(** * codecollob: the collaboration server

    A shallow embedding of the room registry, the per-room virtual file
    tree and the code execution pipeline of the server, followed by the
    properties established about them.

    Strings are UTF-8 byte strings.  The separators the server looks for
    ([/] and [.]) and the word characters of [\w] are ASCII, and a
    multi-byte UTF-8 sequence never contains an ASCII byte, so scanning bytes
    finds them where scanning UTF-16 code units does.  The white space of
    [\s] and the code units that the spread of a string enumerates are read
    off the byte sequences. *)

From Stdlib Require Import ZArith String Ascii List Bool Lia DecimalString.
From stdpp Require Import base option list gmap strings.

Local Open Scope string_scope.
Local Open Scope Z_scope.

(** ** JavaScript fragments used by the server *)

Module JS.

(** Members every plain object inherits from [Object.prototype]. *)
Definition object_prototype_keys : list string :=
  [ "constructor"; "__defineGetter__"; "__defineSetter__"; "hasOwnProperty";
    "__lookupGetter__"; "__lookupSetter__"; "isPrototypeOf";
    "propertyIsEnumerable"; "toString"; "valueOf"; "__proto__";
    "toLocaleString" ].

Definition is_inherited (k : string) : bool :=
  existsb (String.eqb k) object_prototype_keys.

(** What [o[k]] finds on a plain object [o]: an own property, a member
    inherited from [Object.prototype] (a function, or the prototype object
    itself for [__proto__]; always truthy), or nothing ([undefined]). *)
Inductive prop (V : Type) : Type :=
| Own (v : V)
| Inherited (name : string)
| Missing.
Arguments Own {V} v.
Arguments Inherited {V} name.
Arguments Missing {V}.

Definition get_prop {V : Type} (own : option V) (k : string) : prop V :=
  match own with
  | Some v => Own v
  | None => if is_inherited k then Inherited k else Missing
  end.

(** Values a language identifier can take on the way through the
    execute handler. *)
Inductive value : Type :=
| VUndef
| VStr (s : string)
| VBuiltin (name : string).

(** [ToString], as used for property keys and template literals.  The
    text of a builtin is never a key of any table below. *)
Definition to_string (v : value) : string :=
  match v with
  | VUndef => "undefined"
  | VStr s => s
  | VBuiltin _ => "[object Object]"
  end.

Definition of_option (o : option string) : value :=
  match o with Some s => VStr s | None => VUndef end.

(** Truthiness of an optional string: [undefined] and [''] are falsy. *)
Definition truthy (o : option string) : bool :=
  match o with
  | Some s => negb (String.eqb s "")
  | None => false
  end.

(** [s.split(sep)] for a one-character separator. *)
Fixpoint split (sep : ascii) (s : string) : list string :=
  match s with
  | EmptyString => [ "" ]
  | String c s' =>
      if Ascii.eqb c sep then "" :: split sep s'
      else match split sep s' with
           | [] => [ String c "" ]
           | p :: ps => String c p :: ps
           end
  end.

(** [arr.pop()]: the last element, or [undefined], and the array that is
    left. *)
Definition pop {A : Type} (l : list A) : option A * list A :=
  (last l, removelast l).

(** [s.toLowerCase()] on the ASCII range.  No character outside ASCII
    lower-cases to one of the letters of a known extension. *)
Definition lower_char (c : ascii) : ascii :=
  let n := nat_of_ascii c in
  if (Nat.leb 65 n && Nat.leb n 90)%bool then ascii_of_nat (n + 32) else c.

Fixpoint toLowerCase (s : string) : string :=
  match s with
  | EmptyString => EmptyString
  | String c s' => String (lower_char c) (toLowerCase s')
  end.

Definition upper_char (c : ascii) : ascii :=
  let n := nat_of_ascii c in
  if (Nat.leb 97 n && Nat.leb n 122)%bool then ascii_of_nat (n - 32) else c.

Fixpoint toUpperCase (s : string) : string :=
  match s with
  | EmptyString => EmptyString
  | String c s' => String (upper_char c) (toUpperCase s')
  end.

(** [s.slice(from, to)] for [0 <= from]. *)
Definition slice (s : string) (from to : nat) : string :=
  String.substring from (to - from) s.

(** The line feed written [\n] in the source. *)
Definition nl : string := String (ascii_of_nat 10) EmptyString.

(** The double quote character. *)
Definition dq : string := String (ascii_of_nat 34) EmptyString.

(** Decimal text of a natural number. *)
Definition dec (n : nat) : string :=
  NilZero.string_of_uint (Nat.to_uint n).

(** [s.replace(pat, by)] for a string pattern: the first occurrence. *)
Fixpoint replace_first (pat by_ s : string) : string :=
  if String.prefix pat s then by_ +:+ String.substring (String.length pat) (String.length s) s
  else match s with
       | EmptyString => EmptyString
       | String c s' => String c (replace_first pat by_ s')
       end.

(** *** [path.extname] (POSIX flavour of Node's [path] module) *)

Record ext_state : Type := ExtState {
  startDot : option nat;
  startPart : nat;
  end_ : option nat;
  matchedSlash : bool;
  preDotState : Z
}.

Definition ext_init : ext_state :=
  ExtState None 0 None true 0.

(** The backwards scan; [chars] lists the characters with their indices
    from the last one down to the first. *)
Fixpoint extname_scan (chars : list (nat * ascii)) (st : ext_state) : ext_state :=
  match chars with
  | [] => st
  | (i, c) :: rest =>
      if Ascii.eqb c "/" then
        if negb (matchedSlash st)
        then ExtState (startDot st) (i + 1) (end_ st) (matchedSlash st) (preDotState st)
        else extname_scan rest st
      else
        let st1 :=
          match end_ st with
          | None => ExtState (startDot st) (startPart st) (Some (i + 1)%nat) false (preDotState st)
          | Some _ => st
          end in
        let st2 :=
          if Ascii.eqb c "." then
            match startDot st1 with
            | None => ExtState (Some i) (startPart st1) (end_ st1) (matchedSlash st1) (preDotState st1)
            | Some _ =>
                if negb (preDotState st1 =? 1)
                then ExtState (startDot st1) (startPart st1) (end_ st1) (matchedSlash st1) 1
                else st1
            end
          else
            match startDot st1 with
            | Some _ => ExtState (startDot st1) (startPart st1) (end_ st1) (matchedSlash st1) (-1)
            | None => st1
            end in
        extname_scan rest st2
  end.

Definition indexed_rev (s : string) : list (nat * ascii) :=
  rev (combine (seq 0 (String.length s)) (list_ascii_of_string s)).

Definition extname (path : string) : string :=
  let st := extname_scan (indexed_rev path) ext_init in
  match startDot st, end_ st with
  | Some sd, Some e =>
      if ((preDotState st =? 0)
          || ((preDotState st =? 1) && Nat.eqb sd (e - 1) && Nat.eqb sd (startPart st + 1)))%bool
      then ""
      else slice path sd e
  | _, _ => ""
  end.

(** Where the scan of [path] has put [startDot], the path has a dot. *)
Definition dot_marked (path : string) (st : ext_state) : Prop :=
  forall sd, startDot st = Some sd -> String.get sd path = Some "."%char.

End JS.

(** ** The language catalog *)

Module Catalog.
Import JS.

(** One entry of [languageConfigs].  [timeout] is in milliseconds; an
    absent [compile] flag reads as [false]. *)
Record config : Type := Config {
  command : string;
  args : list string;
  timeout : Z;
  compile : bool;
  compileCommand : option string;
  compileArgs : option (list string);
  runCommand : option string
}.

(** The table, in source order ([Object.keys] enumerates it this way). *)
Definition languageConfigs : list (string * config) :=
  [ ("javascript", Config "node" [ "-e" ] 10000 false None None None);
    ("python", Config "python3" [ "-c" ] 10000 false None None None);
    ("java", Config "java" [] 15000 true (Some "javac") None None);
    ("cpp", Config "./temp_program" [] 15000 true (Some "g++")
              (Some [ "-o"; "temp_program" ]) None);
    ("c", Config "./temp_program" [] 15000 true (Some "gcc")
            (Some [ "-o"; "temp_program" ]) None);
    ("go", Config "go" [ "run" ] 15000 false None None None);
    ("rust", Config "rustc" [ "--edition"; "2021"; "-o"; "temp_program" ] 20000
               true None None (Some "./temp_program")) ].

Fixpoint assoc {V : Type} (l : list (string * V)) (k : string) : option V :=
  match l with
  | [] => None
  | (k', v) :: l' => if String.eqb k k' then Some v else assoc l' k
  end.

Definition keys {V : Type} (l : list (string * V)) : list string :=
  map fst l.

(** [languageConfigs[id]] *)
Definition lookup_config (id : value) : prop config :=
  get_prop (assoc languageConfigs (to_string id)) (to_string id).

(** A language id has an entry in the catalog. *)
Definition in_catalog (id : string) : Prop :=
  In id (keys languageConfigs).

Definition languageMap : list (string * string) :=
  [ (".js", "javascript");
    (".jsx", "javascript");
    (".py", "python");
    (".java", "java");
    (".cpp", "cpp");
    (".cxx", "cpp");
    (".cc", "cpp");
    (".c", "c");
    (".go", "go");
    (".rs", "rust") ].

(** [languageMap[ext] || 'javascript'] *)
Definition getLanguageFromExtension (filename : string) : value :=
  let ext := toLowerCase (extname filename) in
  match get_prop (assoc languageMap ext) ext with
  | Own l => if String.eqb l "" then VStr "javascript" else VStr l
  | Inherited name => VBuiltin name
  | Missing => VStr "javascript"
  end.

(** [filename ? getLanguageFromExtension(filename) : language] *)
Definition detectedLanguage (filename language : option string) : value :=
  if truthy filename
  then match filename with
       | Some f => getLanguageFromExtension f
       | None => of_option language
       end
  else of_option language.

(** The table of [getLanguageExtensions]. *)
Definition extensions : list (string * list string) :=
  [ ("javascript", [ ".js"; ".jsx" ]);
    ("python", [ ".py" ]);
    ("java", [ ".java" ]);
    ("cpp", [ ".cpp"; ".cxx"; ".cc" ]);
    ("c", [ ".c" ]);
    ("go", [ ".go" ]);
    ("rust", [ ".rs" ]) ].

(** What [extensions[language] || []] evaluates to: an array, or the member
    of [Object.prototype] that the lookup found. *)
Inductive extension_list : Type :=
| Extensions (l : list string)
| NotAnArray (builtin : string).

Definition getLanguageExtensions (language : string) : extension_list :=
  match get_prop (assoc extensions language) language with
  | Own l => Extensions l
  | Inherited name => NotAnArray name
  | Missing => Extensions []
  end.

(** [key.charAt(0).toUpperCase() + key.slice(1)] *)
Definition display_name (key : string) : string :=
  match key with
  | EmptyString => ""
  | String c rest => toUpperCase (String c "") +:+ rest
  end.

Record language_info : Type := LanguageInfo {
  info_id : string;
  info_name : string;
  info_extensions : extension_list
}.

(** The answer of [GET /api/languages]. *)
Definition languages : list language_info :=
  map (fun key => LanguageInfo key (display_name key) (getLanguageExtensions key))
      (keys languageConfigs).

Fixpoint join (sep : string) (l : list string) : string :=
  match l with
  | [] => ""
  | [ x ] => x
  | x :: l' => x +:+ sep +:+ join sep l'
  end.

(** Text of [ms / 1000] for a non-negative number of milliseconds: the
    shortest decimal, as number-to-string conversion prints it. *)
Definition seconds_text (ms : Z) : string :=
  let q := Z.to_nat (ms / 1000) in
  let r := Z.to_nat (ms mod 1000) in
  let d1 := (r / 100)%nat in
  let d2 := ((r / 10) mod 10)%nat in
  let d3 := (r mod 10)%nat in
  if Nat.eqb r 0 then dec q
  else if negb (Nat.eqb d3 0) then dec q +:+ "." +:+ dec d1 +:+ dec d2 +:+ dec d3
  else if negb (Nat.eqb d2 0) then dec q +:+ "." +:+ dec d1 +:+ dec d2
  else dec q +:+ "." +:+ dec d1.

End Catalog.

(** ** The execution pipeline: [POST /api/execute] and
       [executeCompiledLanguage] *)

Module Exec.
Import JS Catalog.

(** *** Child processes and the disk *)

Inductive role : Type := Interpreter | Compiler | Program.

Inductive status : Type :=
| Alive
| Signalled                  (* [child.kill()] sent SIGTERM *)
| Closed (code : option Z).  (* ['close'] was emitted; [None] is [null] *)

Record process : Type := Process {
  cmd : string;
  argv : list string;
  spawned_as : role;
  state : status
}.

(** Process ids are positions in the spawn order. *)
Record world : Type := World {
  procs : list process;
  disk : gmap string string
}.

Definition spawn (c : string) (a : list string) (r : role) (w : world) : nat * world :=
  (length (procs w), World (procs w ++ [ Process c a r Alive ]) (disk w)).

Definition set_state (pid : nat) (s : status) (w : world) : world :=
  World (alter (fun p => Process (cmd p) (argv p) (spawned_as p) s) pid (procs w)) (disk w).

Definition kill (pid : nat) (w : world) : world :=
  match procs w !! pid with
  | Some p => match state p with
              | Alive => set_state pid Signalled w
              | _ => w
              end
  | None => w
  end.

Definition writeFileSync (path content : string) (w : world) : world :=
  World (procs w) (<[path := content]> (disk w)).

Definition existsSync (path : string) (w : world) : bool :=
  bool_decide (is_Some (disk w !! path)).

Definition unlinkSync (path : string) (w : world) : world :=
  World (procs w) (delete path (disk w)).

(** Still able to emit events: spawned and not yet closed. *)
Definition open (pid : nat) (w : world) : bool :=
  match procs w !! pid with
  | Some p => match state p with Closed _ => false | _ => true end
  | None => false
  end.

(** Running with no signal sent to it. *)
Definition running (pid : nat) (w : world) : bool :=
  match procs w !! pid with
  | Some p => match state p with Alive => true | _ => false end
  | None => false
  end.

(** *** Requests, results, faults *)

Record request : Type := Request {
  code : string;
  language : option string;
  roomId : string;
  filename : option string
}.

(** The JSON body of an answer.  [exitCode]: [None] when the field is
    absent, [Some None] for [null]. *)
Record result : Type := Result {
  output : string;
  exitCode : option (option Z);
  error : bool;
  language_of : option value
}.

Inductive response : Type :=
| RoomNotFound          (* status 404, [{ error: 'Room not found' }] *)
| Json (r : result).

(** ['code-executed'], emitted to the room. *)
Record broadcast : Type := Broadcast {
  to_room : string;
  b_output : string;
  b_exitCode : option (option Z);
  b_language : value
}.

Inductive exn : Type :=
| NotIterable       (* spreading [undefined] *)
| PropertyOfUndefined
| InvalidSpawnFile  (* [spawn(undefined, ...)] *)
| NoSuchFile        (* [readFileSync] of a missing file *)
| HeadersSent.      (* a second [res.json] on an answered request *)

(** What the handler reads from its surroundings. *)
Record env : Type := Env {
  now : nat;                (* [Date.now()] *)
  message : exn -> string   (* [error.message] *)
}.

(** *** The class-name scan [/public\s+class\s+(\w+)/]

    Text is held as the bytes of its UTF-8 encoding, the way
    [fs.writeFileSync] writes it.  [\s] matches TAB, LF, VT, FF, CR, SP,
    U+00A0, U+1680, U+2000 to U+200A, U+2028, U+2029, U+202F, U+205F, U+3000
    and U+FEFF; [\w] matches the ASCII letters, the digits and the
    underscore. *)

(** The members of [\s] that take one byte. *)
Definition ascii_space (c : ascii) : bool :=
  let n := nat_of_ascii c in
  (Nat.eqb n 32 || (Nat.leb 9 n && Nat.leb n 13))%bool.

(** U+00A0, the member of [\s] that takes two bytes. *)
Definition space2 (c1 c2 : ascii) : bool :=
  (Nat.eqb (nat_of_ascii c1) 194 && Nat.eqb (nat_of_ascii c2) 160)%bool.

(** The members of [\s] that take three bytes: U+1680 ([E1 9A 80]),
    U+2000 to U+200A, U+2028, U+2029 and U+202F ([E2 80 ..]), U+205F
    ([E2 81 9F]), U+3000 ([E3 80 80]) and U+FEFF ([EF BB BF]). *)
Definition space3 (c1 c2 c3 : ascii) : bool :=
  let n1 := nat_of_ascii c1 in
  let n2 := nat_of_ascii c2 in
  let n3 := nat_of_ascii c3 in
  ((Nat.eqb n1 225 && (Nat.eqb n2 154 && Nat.eqb n3 128))
   || (Nat.eqb n1 226
       && ((Nat.eqb n2 128
            && ((Nat.leb 128 n3 && Nat.leb n3 138)
                || Nat.eqb n3 168 || Nat.eqb n3 169 || Nat.eqb n3 175))
           || (Nat.eqb n2 129 && Nat.eqb n3 159)))
   || (Nat.eqb n1 227 && (Nat.eqb n2 128 && Nat.eqb n3 128))
   || (Nat.eqb n1 239 && (Nat.eqb n2 187 && Nat.eqb n3 191)))%bool.

(** [\s*] at the start of [s]: the white space and the rest. *)
Fixpoint span_space (s : string) : string * string :=
  match s with
  | EmptyString => ("", "")
  | String c1 r1 =>
      if ascii_space c1 then let '(a, b) := span_space r1 in (String c1 a, b)
      else
        match r1 with
        | EmptyString => ("", s)
        | String c2 r2 =>
            if space2 c1 c2 then let '(a, b) := span_space r2 in (String c1 (String c2 a), b)
            else
              match r2 with
              | EmptyString => ("", s)
              | String c3 r3 =>
                  if space3 c1 c2 c3
                  then let '(a, b) := span_space r3 in (String c1 (String c2 (String c3 a)), b)
                  else ("", s)
              end
        end
  end.

Definition is_word (c : ascii) : bool :=
  let n := nat_of_ascii c in
  ((Nat.leb 48 n && Nat.leb n 57) || (Nat.leb 65 n && Nat.leb n 90)
   || (Nat.leb 97 n && Nat.leb n 122) || Nat.eqb n 95)%bool.

Fixpoint span (p : ascii -> bool) (s : string) : string * string :=
  match s with
  | EmptyString => ("", "")
  | String c s' =>
      if p c then let '(a, b) := span p s' in (String c a, b)
      else ("", s)
  end.

Definition strip_prefix (pre s : string) : option string :=
  if String.prefix pre s
  then Some (String.substring (String.length pre) (String.length s) s)
  else None.

(** A match anchored at the start of [s]: the class name and the text
    after the match. *)
Definition match_here (s : string) : option (string * string) :=
  match strip_prefix "public" s with
  | None => None
  | Some r1 =>
      let '(sp1, r2) := span_space r1 in
      if String.eqb sp1 "" then None
      else match strip_prefix "class" r2 with
           | None => None
           | Some r3 =>
               let '(sp2, r4) := span_space r3 in
               if String.eqb sp2 "" then None
               else let '(w, r5) := span is_word r4 in
                    if String.eqb w "" then None else Some (w, r5)
           end
  end.

(** The leftmost match: text before it, class name, text after it. *)
Fixpoint match_public_class (s : string) : option (string * string * string) :=
  match match_here s with
  | Some (w, rest) => Some ("", w, rest)
  | None =>
      match s with
      | EmptyString => None
      | String c s' =>
          match match_public_class s' with
          | Some (b, w, r) => Some (String c b, w, r)
          | None => None
          end
      end
  end.

(** *** State of one request *)

Inductive timer : Type := Armed | Cleared | Fired.

(** The variables closed over by the callbacks of
    [executeCompiledLanguage]. *)
Record compiled : Type := Compiled {
  c_language : string;
  timestamp : nat;
  sourceFile : option string;
  executableFile : option string;
  compileProcess : nat;
  compileOutput : string;
  compileError : string;
  runProcess : option nat;
  runOutput : string;
  runError : string;
  called_back : option result    (* the argument [callback] was called with *)
}.

(** The variables closed over by the callbacks of the route handler. *)
Record handler : Type := Handler {
  h_room : string;
  detected : value;
  limit : Z;                   (* [config.timeout] *)
  child : option nat;          (* [let child] *)
  h_output : string;           (* [let output] *)
  errorOutput : string;
  timeout_ : timer;
  sent : option response;      (* the answer the requester receives *)
  uncaught : list exn;         (* exceptions no handler caught *)
  broadcasts : list broadcast;
  job : option compiled
}.

Definition answered (room : string) (d : value) (r : response) : handler :=
  Handler room d 0 None "" "" Cleared (Some r) [] [] None.

(** [res.json(r)]: the first call answers the request, a later one
    throws. *)
Definition res_json (r : result) (h : handler) : handler :=
  match sent h with
  | None =>
      Handler (h_room h) (detected h) (limit h) (child h) (h_output h) (errorOutput h)
              (timeout_ h) (Some (Json r)) (uncaught h) (broadcasts h) (job h)
  | Some _ =>
      Handler (h_room h) (detected h) (limit h) (child h) (h_output h) (errorOutput h)
              (timeout_ h) (sent h) (uncaught h ++ [ HeadersSent ]) (broadcasts h) (job h)
  end.

Definition throw (x : exn) (h : handler) : handler :=
  Handler (h_room h) (detected h) (limit h) (child h) (h_output h) (errorOutput h)
          (timeout_ h) (sent h) (uncaught h ++ [ x ]) (broadcasts h) (job h).

Definition clearTimeout (h : handler) : handler :=
  Handler (h_room h) (detected h) (limit h) (child h) (h_output h) (errorOutput h)
          (match timeout_ h with Armed => Cleared | t => t end)
          (sent h) (uncaught h) (broadcasts h) (job h).

Definition fire (h : handler) : handler :=
  Handler (h_room h) (detected h) (limit h) (child h) (h_output h) (errorOutput h)
          Fired (sent h) (uncaught h) (broadcasts h) (job h).

Definition emit (b : broadcast) (h : handler) : handler :=
  Handler (h_room h) (detected h) (limit h) (child h) (h_output h) (errorOutput h)
          (timeout_ h) (sent h) (uncaught h) (broadcasts h ++ [ b ]) (job h).

Definition set_buffers (o e : string) (h : handler) : handler :=
  Handler (h_room h) (detected h) (limit h) (child h) o e
          (timeout_ h) (sent h) (uncaught h) (broadcasts h) (job h).

Definition set_job (j : compiled) (h : handler) : handler :=
  Handler (h_room h) (detected h) (limit h) (child h) (h_output h) (errorOutput h)
          (timeout_ h) (sent h) (uncaught h) (broadcasts h) (Some j).

(** [output + (errorOutput ? `\nError: ${errorOutput}` : '')] *)
Definition finalOutput (out err : string) : string :=
  out +:+ (if String.eqb err "" then "" else nl +:+ "Error: " +:+ err).

(** [code !== 0] *)
Definition nonzero (c : option Z) : bool :=
  match c with Some 0 => false | _ => true end.

(** *** [executeCompiledLanguage]

    The synchronous part: write the source file and spawn the compiler.
    A [spawn] without a command throws, after the file was written. *)

Definition tempDir : string := "/tmp".

Definition path_join (dir file : string) : string := dir +:+ "/" +:+ file.

Definition source_files (language code : string) (ts : nat)
  : option (string * string) * option string :=
  if String.eqb language "java" then
    let sourceFile := path_join tempDir ("TempClass" +:+ dec ts +:+ ".java") in
    let javaCode :=
      match match_public_class code with
      | Some (before, className, after) => before +:+ "public class " +:+ className +:+ after
      | None => code
      end in
    (Some (sourceFile, javaCode), None)
  else if (String.eqb language "cpp" || String.eqb language "c")%bool then
    let ext := if String.eqb language "cpp" then ".cpp" else ".c" in
    (Some (path_join tempDir ("temp" +:+ dec ts +:+ ext), code),
     Some (path_join tempDir ("temp" +:+ dec ts)))
  else if String.eqb language "rust" then
    (Some (path_join tempDir ("temp" +:+ dec ts +:+ ".rs"), code),
     Some (path_join tempDir ("temp" +:+ dec ts)))
  else (None, None).

(** In each branch the file names it uses were set by the [switch]. *)
Definition compile_args (language : string) (sourceFile executableFile : option string)
  : list string :=
  let src := default "undefined" sourceFile in
  let exe := default "undefined" executableFile in
  if String.eqb language "java" then [ src ]
  else if (String.eqb language "cpp" || String.eqb language "c")%bool then [ src; "-o"; exe ]
  else if String.eqb language "rust" then [ src; "-o"; exe ]
  else [].

Definition executeCompiledLanguage (e : env) (language code : string) (w : world)
  : world * (exn + compiled) :=
  let ts := now e in
  let '(src, executableFile) := source_files language code ts in
  let w1 := match src with
            | Some (f, text) => writeFileSync f text w
            | None => w
            end in
  let sourceFile := fst <$> src in
  match lookup_config (VStr language) with
  | Missing => (w1, inl PropertyOfUndefined)
  | Inherited _ => (w1, inl InvalidSpawnFile)
  | Own config =>
      match compileCommand config with
      | None => (w1, inl InvalidSpawnFile)
      | Some cc =>
          let '(pid, w2) :=
            spawn cc (compile_args language sourceFile executableFile) Compiler w1 in
          (w2, inr (Compiled language ts sourceFile executableFile pid "" "" None "" "" None))
      end
  end.

(** *** The route handler, up to the first wait *)

Definition unsupported (d : value) : result :=
  Result ("Unsupported language: " +:+ to_string d +:+ ". Supported languages: "
          +:+ join ", " (keys languageConfigs))
         None true None.

Definition execution_error (e : env) (x : exn) (d : value) : result :=
  Result ("Execution error: " +:+ message e x) None true (Some d).

Definition timed_out (h : handler) : result :=
  Result (h_output h +:+ nl +:+ "[Execution timed out after "
          +:+ seconds_text (limit h) +:+ " seconds]")
         None true None.

(** [rooms_has] is [rooms.has(roomId)]. *)
Definition execute (e : env) (rooms_has : bool) (req : request) (w : world)
  : world * handler :=
  if negb rooms_has then (w, answered (roomId req) VUndef RoomNotFound)
  else
    let d := detectedLanguage (filename req) (language req) in
    match lookup_config d with
    | Missing => (w, answered (roomId req) d (Json (unsupported d)))
    | Inherited _ =>
        (* a truthy builtin: the timer is set, [config.compile] is
           undefined, [[...config.args]] throws, [catch] answers *)
        (w, answered (roomId req) d (Json (execution_error e NotIterable d)))
    | Own config =>
        let h0 := Handler (roomId req) d (timeout config) None "" "" Armed None [] [] None in
        if compile config then
          match executeCompiledLanguage e (to_string d) (code req) w with
          | (w1, inr j) => (w1, set_job j h0)
          | (w1, inl x) => (w1, res_json (execution_error e x d) (clearTimeout h0))
          end
        else if String.eqb (to_string d) "go" then
          let tempFile := "temp_" +:+ dec (now e) +:+ ".go" in
          let w1 := writeFileSync tempFile (code req) w in
          let '(pid, w2) := spawn (command config) (take 1 (args config) ++ [ tempFile ])
                                  Interpreter w1 in
          (w2, Handler (roomId req) d (timeout config) (Some pid) "" "" Armed None [] [] None)
        else
          let '(pid, w1) := spawn (command config) (args config ++ [ code req ])
                                  Interpreter w in
          (w1, Handler (roomId req) d (timeout config) (Some pid) "" "" Armed None [] [] None)
    end.

(** *** Callbacks

    What the surroundings can make happen while the request is pending.
    Every command is taken to start: a command that cannot be started makes
    Node emit an ['error'] event on the child, and the server registers no
    listener for it. *)

Inductive event : Type :=
| Stdout (pid : nat) (data : string)
| Stderr (pid : nat) (data : string)
| Wrote (pid : nat) (path content : string)   (* a child creates a file *)
| Close (pid : nat) (code : option Z)
| Deadline.                                   (* the timer expires *)

(** The [callback] the route handler passes to
    [executeCompiledLanguage]. *)
Definition callback (r : result) (h : handler) : handler :=
  let h1 := clearTimeout h in
  let h2 := emit (Broadcast (h_room h) (output r) (exitCode r) (detected h)) h1 in
  res_json r h2.

Definition record_callback (r : result) (j : compiled) : compiled :=
  Compiled (c_language j) (timestamp j) (sourceFile j) (executableFile j)
           (compileProcess j) (compileOutput j) (compileError j)
           (runProcess j) (runOutput j) (runError j) (Some r).

Definition set_compile_buffers (o e : string) (j : compiled) : compiled :=
  Compiled (c_language j) (timestamp j) (sourceFile j) (executableFile j)
           (compileProcess j) o e
           (runProcess j) (runOutput j) (runError j) (called_back j).

Definition set_run_buffers (o e : string) (j : compiled) : compiled :=
  Compiled (c_language j) (timestamp j) (sourceFile j) (executableFile j)
           (compileProcess j) (compileOutput j) (compileError j)
           (runProcess j) o e (called_back j).

Definition set_runProcess (pid : nat) (j : compiled) : compiled :=
  Compiled (c_language j) (timestamp j) (sourceFile j) (executableFile j)
           (compileProcess j) (compileOutput j) (compileError j)
           (Some pid) (runOutput j) (runError j) (called_back j).

(** The cleanup in the ['close'] callback of the run process. *)
Definition cleanup (j : compiled) (w : world) : world :=
  let w1 := match sourceFile j with
            | Some f => if existsSync f w then unlinkSync f w else w
            | None => w
            end in
  let w2 := match executableFile j with
            | Some f => if existsSync f w1 then unlinkSync f w1 else w1
            | None => w1
            end in
  if String.eqb (c_language j) "java" then
    match sourceFile j with
    | Some f =>
        let classFile := replace_first ".java" ".class" f in
        if existsSync classFile w2 then unlinkSync classFile w2 else w2
    | None => w2
    end
  else w2.

(** ['close'] of the compiler. *)
Definition compile_closed (j : compiled) (code : option Z) (s : world * handler)
  : world * handler :=
  let '(w, h) := s in
  if nonzero code then
    let r := Result ("Compilation failed:" +:+ nl +:+ compileError j) (Some code) true None in
    (w, callback r (set_job (record_callback r j) h))
  else if String.eqb (c_language j) "java" then
    match sourceFile j ≫= (fun f => disk w !! f) with
    | None => (w, throw NoSuchFile h)
    | Some text =>
        let className :=
          match match_public_class text with
          | Some (_, name, _) => name
          | None => "TempClass" +:+ dec (timestamp j)
          end in
        let '(pid, w1) := spawn "java" [ "-cp"; tempDir; className ] Program w in
        (w1, set_job (set_runProcess pid j) h)
    end
  else
    match executableFile j with
    | None => (w, throw InvalidSpawnFile h)
    | Some exe =>
        let '(pid, w1) := spawn exe [] Program w in
        (w1, set_job (set_runProcess pid j) h)
    end.

(** ['close'] of the compiled program. *)
Definition run_closed (j : compiled) (code : option Z) (s : world * handler)
  : world * handler :=
  let '(w, h) := s in
  let w1 := cleanup j w in
  let r := Result (finalOutput (runOutput j) (runError j)) (Some code) (nonzero code) None in
  (w1, callback r (set_job (record_callback r j) h)).

(** ['close'] of the interpreter started by the route handler. *)
Definition child_closed (code : option Z) (h : handler) : handler :=
  let h1 := clearTimeout h in
  let out := finalOutput (h_output h) (errorOutput h) in
  let h2 := emit (Broadcast (h_room h) out (Some code) (detected h)) h1 in
  res_json (Result out (Some code) (nonzero code) (Some (detected h))) h2.

Definition is_compiler (pid : nat) (h : handler) : option compiled :=
  match job h with
  | Some j => if Nat.eqb pid (compileProcess j) then Some j else None
  | None => None
  end.

Definition is_program (pid : nat) (h : handler) : option compiled :=
  match job h with
  | Some j => if bool_decide (runProcess j = Some pid) then Some j else None
  | None => None
  end.

Definition is_child (pid : nat) (h : handler) : bool :=
  bool_decide (child h = Some pid).

Definition on_data (to_stderr : bool) (pid : nat) (data : string) (h : handler) : handler :=
  if is_child pid h then
    if to_stderr then set_buffers (h_output h) (errorOutput h +:+ data) h
    else set_buffers (h_output h +:+ data) (errorOutput h) h
  else match is_compiler pid h with
  | Some j =>
      if to_stderr then set_job (set_compile_buffers (compileOutput j) (compileError j +:+ data) j) h
      else set_job (set_compile_buffers (compileOutput j +:+ data) (compileError j) j) h
  | None =>
      match is_program pid h with
      | Some j =>
          if to_stderr then set_job (set_run_buffers (runOutput j) (runError j +:+ data) j) h
          else set_job (set_run_buffers (runOutput j +:+ data) (runError j) j) h
      | None => h
      end
  end.

Definition on_close (pid : nat) (code : option Z) (s : world * handler) : world * handler :=
  let '(w, h) := s in
  if is_child pid h then (w, child_closed code h)
  else match is_compiler pid h with
  | Some j => compile_closed j code s
  | None =>
      match is_program pid h with
      | Some j => run_closed j code s
      | None => s
      end
  end.

(** The timer callback. *)
Definition on_deadline (s : world * handler) : world * handler :=
  let '(w, h) := s in
  let w1 := match child h with
            | Some pid => kill pid w
            | None => w
            end in
  (w1, res_json (timed_out h) (fire h)).

(** One callback.  A closed process emits nothing more, a timer that was
    cleared or has fired does not fire, and an uncaught exception ends the
    server process. *)
Definition step (s : world * handler) (ev : event) : world * handler :=
  let '(w, h) := s in
  match uncaught h with
  | _ :: _ => s
  | [] =>
      match ev with
      | Deadline =>
          match timeout_ h with
          | Armed => on_deadline s
          | _ => s
          end
      | Stdout pid data => if open pid w then (w, on_data false pid data h) else s
      | Stderr pid data => if open pid w then (w, on_data true pid data h) else s
      | Wrote pid path content => if open pid w then (writeFileSync path content w, h) else s
      | Close pid code =>
          if open pid w then on_close pid code (set_state pid (Closed code) w, h) else s
      end
  end.

Definition run (s : world * handler) (evs : list event) : world * handler :=
  fold_left step evs s.

Definition empty_world : world := World [] ∅.

(** *** Vocabulary of the properties *)

(** An environment for examples. *)
Definition sample_env : env := Env 1700 (fun _ => "error").

(** U+00A0, the no-break space, in UTF-8. *)
Definition nbsp : string :=
  String (ascii_of_nat 194) (String (ascii_of_nat 160) EmptyString).

(** What the process [pid] wrote to its standard error during [evs]. *)
Fixpoint stderr_of (pid : nat) (evs : list event) : string :=
  match evs with
  | [] => ""
  | Stderr p d :: rest =>
      if Nat.eqb p pid then d +:+ stderr_of pid rest else stderr_of pid rest
  | _ :: rest => stderr_of pid rest
  end.

Definition roles (w : world) : list role := map spawned_as (procs w).

(** The compiler [cp] runs, [err] is what was read from its standard
    error, and the request is pending or was answered by the timer only. *)
Definition compiling (room : string) (d : value) (cp : nat) (rs : list role) (err : string)
           (s : world * handler) : Prop :=
  let '(w, h) := s in
  h_room h = room /\ detected h = d
  /\ roles w = rs /\ open cp w = true
  /\ uncaught h = [] /\ child h = None /\ broadcasts h = []
  /\ (timeout_ h = Armed /\ sent h = None \/ timeout_ h = Fired)
  /\ exists j, job h = Some j /\ compileProcess j = cp /\ runProcess j = None
               /\ compileError j = err /\ called_back j = None.

(** The compiler [cp] has closed and no program was started: nothing can
    change the request any more. *)
Definition settled (cp : nat) (rs : list role) (h0 : handler) (s : world * handler) : Prop :=
  let '(w, h) := s in
  roles w = rs /\ open cp w = false /\ h = h0
  /\ child h = None /\ timeout_ h <> Armed
  /\ exists j, job h = Some j /\ compileProcess j = cp /\ runProcess j = None.

(** What the process [pid] wrote to its standard output during [evs]. *)
Fixpoint stdout_of (pid : nat) (evs : list event) : string :=
  match evs with
  | [] => ""
  | Stdout p d :: rest =>
      if Nat.eqb p pid then d +:+ stdout_of pid rest else stdout_of pid rest
  | _ :: rest => stdout_of pid rest
  end.

(** The interpreter [pid] runs, [out] is what was read from its standard
    output, the timer is armed and the request pending. *)
Definition interpreting (pid : nat) (lim : Z) (out : string) (s : world * handler) : Prop :=
  let '(w, h) := s in
  running pid w = true
  /\ uncaught h = [] /\ child h = Some pid /\ job h = None
  /\ timeout_ h = Armed /\ sent h = None /\ limit h = lim /\ h_output h = out.

(** As [interpreting], with what was read from the standard error, the
    room and the language, and nothing told to the room yet. *)
Definition collecting (room : string) (d : value) (pid : nat) (lim : Z) (out err : string)
           (s : world * handler) : Prop :=
  let '(w, h) := s in
  running pid w = true
  /\ uncaught h = [] /\ child h = Some pid /\ job h = None
  /\ timeout_ h = Armed /\ sent h = None /\ limit h = lim
  /\ h_output h = out /\ errorOutput h = err
  /\ broadcasts h = [] /\ h_room h = room /\ detected h = d.

(** What never changes in the closure of [executeCompiledLanguage]. *)
Definition job_files (h : handler) : option (string * option string * option string * nat) :=
  option_map (fun j => (c_language j, sourceFile j, executableFile j, compileProcess j)) (job h).

(** The compiler [cp] has closed, the program [rp] runs, [out] and [err]
    are what was read from it, and the request is pending or was answered by
    the timer only. *)
Definition job_stamp (h : handler) : option nat :=
  option_map timestamp (job h).

Definition run_buffers (h : handler) : option (string * string) :=
  option_map (fun j => (runOutput j, runError j)) (job h).

Definition executing (room : string) (d : value) (cp rp : nat) (rs : list role)
           (out err : string) (s : world * handler) : Prop :=
  let '(w, h) := s in
  h_room h = room /\ detected h = d
  /\ roles w = rs /\ open rp w = true /\ open cp w = false
  /\ uncaught h = [] /\ child h = None /\ broadcasts h = []
  /\ (timeout_ h = Armed /\ sent h = None \/ timeout_ h = Fired)
  /\ exists j, job h = Some j /\ compileProcess j = cp /\ runProcess j = Some rp
               /\ runOutput j = out /\ runError j = err /\ called_back j = None.

End Exec.

(** ** The virtual file tree of a room

    The objects of a tree live in a store and are named by references, so
    that the copy made by a rename shares the children of the object it was
    copied from, as the spread [{...file}] does.  Every object has a
    prototype: a path segment [__proto__] reads it, and an assignment under
    that name replaces it. *)

Module Tree.
Import JS.

(** What a property can hold and a walk can stand on: a reference to a
    plain object, a member of [Object.prototype] reached through an
    inherited name ([__proto__] names [Object.prototype] itself), a string,
    or a [Date]. *)
Inductive obj : Type :=
| ONode (r : nat)
| OBuiltin (name : string)
| OStr (s : string)
| ODate (n : nat).

(** A plain object: its own properties other than [children]; its own
    [children] property, which the code writes with objects only; and its
    prototype, [None] for [Object.prototype].  Every own property is
    enumerable, writable and configurable, as properties made by object
    literals, spread and assignment are. *)
Record node : Type := Object_ {
  fields : gmap string obj;
  children : option nat;
  proto : option nat
}.

(** The object stored in [roomFiles]: [root] is [files['/']]; [nodes] holds
    the objects reachable from it, by reference. *)
Record files : Type := Files {
  root : option nat;
  nodes : gmap nat node;
  next : nat                   (* the next unused reference *)
}.

Inductive fault : Type :=
| TypeError.   (* a property of [undefined] was read or written, or a
                  prototype chain would become cyclic *)

Definition put (k : string) (v : option obj) (m : gmap string obj) : gmap string obj :=
  match v with
  | Some x => <[k := x]> m
  | None => m
  end.

(** The object literal [{ name, path, type, content, createdAt, children }]
    with the properties that are given. *)
Definition Node (name : string) (path type content : option string)
           (createdAt children : option nat) : node :=
  Object_ (put "createdAt" (ODate <$> createdAt)
             (put "content" (OStr <$> content)
                (put "type" (OStr <$> type)
                   (put "path" (OStr <$> path)
                      (<["name" := OStr name]> ∅)))))
          children None.

Definition text_of (v : option obj) : option string :=
  match v with
  | Some (OStr s) => Some s
  | _ => None
  end.

(** The own properties [name], [path], [type] and [content] of an object,
    when they hold strings. *)
Definition name (n : node) : option string := text_of (fields n !! "name").
Definition path (n : node) : option string := text_of (fields n !! "path").
Definition type (n : node) : option string := text_of (fields n !! "type").
Definition content (n : node) : option string := text_of (fields n !! "content").

(** The own property [k] of an object. *)
Definition own (n : node) (k : string) : option obj :=
  if String.eqb k "children" then ONode <$> children n else fields n !! k.

(** The data property [k] found on the object [r] or along its prototype
    chain, [Object.prototype] excluded.  A chain has no cycle, so it is no
    longer than the number of objects. *)
Fixpoint lookup_from (fuel : nat) (t : files) (r : nat) (k : string) : option obj :=
  match fuel with
  | O => None
  | S fuel' =>
      match nodes t !! r with
      | None => None
      | Some n =>
          match own n k with
          | Some v => Some v
          | None =>
              match proto n with
              | Some p => lookup_from fuel' t p k
              | None => None
              end
          end
      end
  end.

(** [Object.getPrototypeOf(r)] *)
Definition proto_value (t : files) (r : nat) : obj :=
  match nodes t !! r ≫= proto with
  | Some p => ONode p
  | None => OBuiltin "__proto__"
  end.

(** What [Object.prototype] answers for the object [r] under the key [k]:
    [__proto__] is an accessor that answers with the prototype of [r]; the
    other members are the same for every object. *)
Definition from_Object_prototype (t : files) (r : nat) (k : string) : option obj :=
  if String.eqb k "__proto__" then Some (proto_value t r)
  else if is_inherited k then Some (OBuiltin k)
  else None.

(** [o[k]] on the object [r]: an own property, a property of an object on
    its prototype chain, or a member of [Object.prototype]. *)
Definition get (t : files) (r : nat) (k : string) : option obj :=
  match lookup_from (S (S (next t))) t r k with
  | Some v => Some v
  | None => from_Object_prototype t r k
  end.

(** Only the empty string is falsy among these values. *)
Definition truthy_obj (v : obj) : bool :=
  match v with
  | OStr s => negb (String.eqb s "")
  | _ => true
  end.

(** [!v] *)
Definition falsy (v : option obj) : bool :=
  match v with
  | Some x => negb (truthy_obj x)
  | None => true
  end.

(** [filePath.split('/').filter(part => part !== '')] *)
Definition path_parts (filePath : string) : list string :=
  List.filter (fun part => negb (String.eqb part "")) (split "/" filePath).

(** [o.children], when it is an object: strings, dates and the members of
    [Object.prototype] have no such property. *)
Definition children_of (t : files) (o : obj) : option nat :=
  match o with
  | ONode r =>
      match get t r "children" with
      | Some (ONode c) => Some c
      | _ => None
      end
  | _ => None
  end.

(** [current.children && current.children[part]], when truthy. *)
Definition child (t : files) (current : obj) (part : string) : option obj :=
  match children_of t current with
  | None => None
  | Some c =>
      let v := get t c part in
      if falsy v then None else v
  end.

Fixpoint walk (t : files) (parts : list string) (current : option obj) : option obj :=
  match parts with
  | [] => current
  | part :: rest =>
      match current with
      | None => None
      | Some o =>
          match child t o part with
          | Some o' => walk t rest (Some o')
          | None => None
          end
      end
  end.

(** [None] stands for the falsy results, [null] and [undefined]. *)
Definition getFileFromPath (t : files) (filePath : string) : option obj :=
  walk t (path_parts filePath) (ONode <$> root t).

(** The loop of [deleteFileAtPath]; [None] is the early [return false]. *)
Fixpoint descend (t : files) (parts : list string) (current : obj) : option obj :=
  match parts with
  | [] => Some current
  | part :: rest =>
      match child t current part with
      | Some o' => descend t rest o'
      | None => None
      end
  end.

(** [delete c[k]]: the own property goes, if there is one. *)
Definition delete_child (c : nat) (k : string) (t : files) : files :=
  Files (root t)
        (alter (fun n => if String.eqb k "children"
                         then Object_ (fields n) None (proto n)
                         else Object_ (delete k (fields n)) (children n) (proto n))
               c (nodes t))
        (next t).

(** The key [fileName] is used as: [undefined] reads as ["undefined"]. *)
Definition key_of (fileName : option string) : string :=
  default "undefined" fileName.

Definition deleteFileAtPath (t : files) (filePath : string) : fault + (bool * files) :=
  let '(fileName, parts) := pop (path_parts filePath) in
  match root t with
  | None => inl TypeError
  | Some r =>
      match descend t parts (ONode r) with
      | None => inr (false, t)
      | Some current =>
          match child t current (key_of fileName) with
          | Some _ =>
              match children_of t current with
              | Some c => inr (true, delete_child c (key_of fileName) t)
              | None => inr (false, t)
              end
          | None => inr (false, t)
          end
      end
  end.

(** Two removals of the same path in a row: both results and the final
    tree. *)
Definition delete_twice (t : files) (filePath : string) : option (bool * bool * files) :=
  match deleteFileAtPath t filePath with
  | inr (b1, t1) =>
      match deleteFileAtPath t1 filePath with
      | inr (b2, t2) => Some (b1, b2, t2)
      | inl _ => None
      end
  | inl _ => None
  end.

Definition alloc_node (n : node) (t : files) : nat * files :=
  (next t, Files (root t) (<[next t := n]> (nodes t)) (S (next t))).

(** A fresh [{}] *)
Definition alloc_kids (t : files) : nat * files :=
  alloc_node (Object_ ∅ None None) t.

(** The own property [k] of [c] is created or overwritten with a reference
    to [r]. *)
Definition put_child (c : nat) (k : string) (r : nat) (t : files) : files :=
  Files (root t)
        (alter (fun n => if String.eqb k "children"
                         then Object_ (fields n) (Some r) (proto n)
                         else Object_ (<[k := ONode r]> (fields n)) (children n) (proto n))
               c (nodes t))
        (next t).

Definition set_proto (c r : nat) (t : files) : files :=
  Files (root t)
        (alter (fun n => Object_ (fields n) (children n) (Some r)) c (nodes t))
        (next t).

(** The object [target] is [p] or on the prototype chain of [p]. *)
Fixpoint reaches (fuel : nat) (t : files) (p target : nat) : bool :=
  match fuel with
  | O => false
  | S fuel' =>
      if Nat.eqb p target then true
      else match nodes t !! p ≫= proto with
           | Some q => reaches fuel' t q target
           | None => false
           end
  end.

(** [c[k] = r] for an object [r].  A data property on [c] or along its
    chain makes it an own property of [c]; so does a key that is found
    nowhere.  When the key is [__proto__] and the chain ends in the accessor
    of [Object.prototype], the prototype of [c] is replaced; a chain that
    would run in a circle is refused with a TypeError. *)
Definition set_child (c : nat) (k : string) (r : nat) (t : files) : files * option fault :=
  match lookup_from (S (S (next t))) t c k with
  | Some _ => (put_child c k r t, None)
  | None =>
      if String.eqb k "__proto__" then
        if bool_decide (nodes t !! c ≫= proto = Some r) then (t, None)
        else if reaches (S (S (next t))) t r c then (t, Some TypeError)
        else (set_proto c r t, None)
      else (put_child c k r t, None)
  end.

(** [c[part] = { name: part, type: 'directory', children: {} }] *)
Definition add_directory (c : nat) (part : string) (t : files) : files * option fault :=
  let '(k, t1) := alloc_kids t in
  let '(d, t2) := alloc_node (Node part None (Some "directory") None None (Some k)) t1 in
  set_child c part d t2.

(** The loop of [setFileAtPath]: missing directories are created on the
    way, and [current.children[part]] is read again after the test.  The
    tree comes back with the exception when one is thrown: what was written
    before stays written. *)
Fixpoint descend_creating (t : files) (parts : list string) (current : option obj)
  : files * (fault + option obj) :=
  match parts with
  | [] => (t, inr current)
  | part :: rest =>
      match current ≫= children_of t with
      | None => (t, inl TypeError)
      | Some c =>
          let '(t1, thrown) :=
            if falsy (get t c part) then add_directory c part t else (t, None) in
          match thrown with
          | Some x => (t1, inl x)
          | None =>
              match current ≫= children_of t1 with
              | None => (t1, inl TypeError)
              | Some c' => descend_creating t1 rest (get t1 c' part)
              end
          end
      end
  end.

Definition setFileAtPath (t : files) (filePath : string) (fileData : nat)
  : files * option fault :=
  let '(fileName, parts) := pop (path_parts filePath) in
  match descend_creating t parts (ONode <$> root t) with
  | (t1, inl x) => (t1, Some x)
  | (t1, inr current) =>
      match current ≫= children_of t1 with
      | None => (t1, Some TypeError)
      | Some c => set_child c (key_of fileName) fileData t1
      end
  end.

(** [{}], the value stored for a room that has no tree yet. *)
Definition no_files : files := Files None ∅ 0.

(** The tree [POST /api/rooms/create] stores. *)
Definition seeded : files :=
  Files (Some 0%nat)
        (<[0%nat := Node "/" None (Some "directory") None None (Some 1%nat)]>
         (<[1%nat := Object_ (<["main.js" := ONode 2]> (<["example.py" := ONode 3]> ∅))
                             None None]>
          (<[2%nat := Node "main.js" (Some "/main.js") (Some "file")
                       (Some ("// Welcome to the collaborative code editor!" +:+ nl
                              +:+ "console.log(" +:+ dq +:+ "Hello, World!" +:+ dq +:+ ");"))
                       None None]>
           (<[3%nat := Node "example.py" (Some "/example.py") (Some "file")
                        (Some ("# Python example" +:+ nl
                               +:+ "print(" +:+ dq +:+ "Hello from Python!" +:+ dq +:+ ")"))
                        None None]> ∅))))
        4.

(** The names of the own properties of an object. *)
Definition own_keys (n : node) : gset string :=
  dom (fields n) ∪ match children n with
                   | Some _ => {[ "children" ]}
                   | None => ∅
                   end.

(** The own properties of an object that hold references to objects. *)
Definition own_entries (n : node) : list (string * nat) :=
  omap (fun kv => match snd kv with
                  | ONode r => Some (fst kv, r)
                  | _ => None
                  end)
       (map_to_list (fields n))
  ++ match children n with
     | Some c => [ ("children", c) ]
     | None => []
     end.

(** The names of the own entries of the root directory. *)
Definition root_entries (t : files) : option (gset string) :=
  match root t with
  | Some r =>
      match nodes t !! r ≫= children with
      | Some c => own_keys <$> nodes t !! c
      | None => None
      end
  | None => None
  end.

(** The own entries below the object [r], as [(path, type)] pairs, to a
    depth of [fuel] (a rename of the root can make the structure cyclic). *)
Fixpoint listing (fuel : nat) (t : files) (prefix : string) (r : nat)
  : list (string * option string) :=
  match fuel with
  | O => []
  | S fuel' =>
      match nodes t !! r ≫= children with
      | None => []
      | Some c =>
          flat_map
            (fun kr =>
               (prefix +:+ "/" +:+ fst kr, nodes t !! snd kr ≫= type)
               :: listing fuel' t (prefix +:+ "/" +:+ fst kr) (snd kr))
            (default [] (own_entries <$> nodes t !! c))
      end
  end.

(** *** Code units

    [{ ...s }] on a string [s] has one property per UTF-16 code unit.  The
    text is held as UTF-8 bytes: a sequence of one, two or three bytes is
    one code unit, a sequence of four bytes is a pair of surrogates, each
    written here as the three bytes a lone surrogate takes. *)

Definition is_continuation (c : ascii) : bool :=
  let n := nat_of_ascii c in (Nat.leb 128 n && Nat.leb n 191)%bool.

Definition surrogates (c1 c2 c3 c4 : ascii) : list string :=
  let cp := (N_of_ascii c1 mod 8 * 262144 + N_of_ascii c2 mod 64 * 4096
             + N_of_ascii c3 mod 64 * 64 + N_of_ascii c4 mod 64)%N in
  let v := (cp - 65536)%N in
  let hi := (55296 + v / 1024)%N in
  let lo := (56320 + v mod 1024)%N in
  let enc u :=
    String (ascii_of_N (224 + u / 4096))
      (String (ascii_of_N (128 + (u / 64) mod 64))
         (String (ascii_of_N (128 + u mod 64)) "")) in
  [ enc hi; enc lo ].

Fixpoint code_units (s : string) : list string :=
  match s with
  | EmptyString => []
  | String c1 r1 =>
      let n1 := nat_of_ascii c1 in
      let single := String c1 "" :: code_units r1 in
      if Nat.ltb n1 192 then single
      else
        match r1 with
        | EmptyString => single
        | String c2 r2 =>
            if negb (is_continuation c2) then single
            else if Nat.ltb n1 224 then String c1 (String c2 "") :: code_units r2
            else
              match r2 with
              | EmptyString => single
              | String c3 r3 =>
                  if negb (is_continuation c3) then single
                  else if Nat.ltb n1 240
                  then String c1 (String c2 (String c3 "")) :: code_units r3
                  else
                    match r3 with
                    | EmptyString => single
                    | String c4 r4 =>
                        if (is_continuation c4 && Nat.ltb n1 248)%bool
                        then (surrogates c1 c2 c3 c4 ++ code_units r4)%list
                        else single
                    end
              end
        end
  end.

(** The own properties of [{ ...s }]: the code units under their
    indices. *)
Definition index_props (s : string) : gmap string obj :=
  list_to_map (imap (fun i u => (dec i, OStr u)) (code_units s)).

(** [{ ...file, name: newName, path: newPath }]: the own properties of
    [file], its [children] reference among them, under a fresh object with
    the default prototype.  A date, a function and [Object.prototype] have no
    enumerable own property. *)
Definition spread (t : files) (file : obj) (newName newPath : string) : node :=
  let named m := <["path" := OStr newPath]> (<["name" := OStr newName]> m) in
  match file with
  | ONode r =>
      match nodes t !! r with
      | Some n => Object_ (named (fields n)) (children n) None
      | None => Object_ (named ∅) None None
      end
  | OStr s => Object_ (named (index_props s)) None None
  | ODate _ | OBuiltin _ => Object_ (named ∅) None None
  end.

(** [file.content = text] *)
Definition set_content (r : nat) (text : string) (t : files) : files :=
  Files (root t)
        (alter (fun n => Object_ (<["content" := OStr text]> (fields n)) (children n) (proto n))
               r (nodes t))
        (next t).

(** [file && file.type === 'file'], with the object to write to. *)
Definition is_file (t : files) (o : option obj) : option nat :=
  match o with
  | Some (ONode r) =>
      match get t r "type" with
      | Some (OStr s) => if String.eqb s "file" then Some r else None
      | _ => None
      end
  | _ => None
  end.

(** *** Vocabulary of the properties *)

(** Nothing refers to the object [x]. *)
Definition unreferenced (x : nat) (t : files) : Prop :=
  forall r n, nodes t !! r = Some n ->
    children n <> Some x /\ proto n <> Some x
    /\ forall k, fields n !! k <> Some (ONode x).

(** The tree has the root it was created with, reference 0; that object
    is a directory, and it is reached through [files['/']] only. *)
Definition rooted (t : files) : Prop :=
  root t = Some 0%nat
  /\ (exists n, nodes t !! 0%nat = Some n /\ type n = Some "directory")
  /\ (0 < next t)%nat
  /\ unreferenced 0 t.

(** No prototype has a prototype other than [Object.prototype]. *)
Definition shallow (t : files) : Prop :=
  forall x n p, nodes t !! x = Some n -> proto n = Some p -> nodes t !! p ≫= proto = None.

(** An object that serves as a prototype has the default prototype itself
    and is the [children] of no object. *)
Definition plain_target (t : files) (p : nat) : Prop :=
  nodes t !! p ≫= proto = None
  /\ forall r n, nodes t !! r = Some n -> children n <> Some p.

(** References are handed out in increasing order and name objects of the
    store; prototypes that were assigned are as [plain_target] says; and no
    object has an own data property named [__proto__]. *)
Definition well_formed (t : files) : Prop :=
  (forall r, is_Some (nodes t !! r) <-> (r < next t)%nat)
  /\ (forall r n, nodes t !! r = Some n ->
        (forall c, children n = Some c -> (c < next t)%nat)
        /\ (forall k x, fields n !! k = Some (ONode x) -> (x < next t)%nat)
        /\ (forall p, proto n = Some p -> (p < next t)%nat /\ plain_target t p)
        /\ fields n !! "__proto__" = None)
  /\ (forall r, root t = Some r -> (r < next t)%nat).

(** What an object of [t] holds under a key, when truthy, it holds in [t']
    as well. *)
Definition preserved (t t' : files) : Prop :=
  (next t <= next t')%nat
  /\ forall x k v, (x < next t)%nat -> get t x k = Some v -> truthy_obj v = true ->
                   get t' x k = Some v.

(** A fresh [{}] that is the prototype of no object. *)
Definition leaf (t : files) (c : nat) : Prop :=
  nodes t !! c = Some (Object_ ∅ None None)
  /\ forall r n, nodes t !! r = Some n -> proto n <> Some c.

(** No object has had its prototype replaced. *)
Definition unpolluted (t : files) : Prop :=
  forall r n, nodes t !! r = Some n -> proto n = None.

End Tree.

(** ** Rooms: the registry and the socket handlers *)

Module Rooms.
Import JS Tree.

Record user : Type := User {
  id : string;
  user_name : string;
  joinedAt : nat
}.

Record room : Type := Room {
  room_id : string;
  users : list user;
  room_createdAt : nat
}.

(** What the server keeps about a connected socket: [socket.roomId] and
    [socket.userName], both unset until the socket joins a room. *)
Record socket : Type := Socket {
  socket_roomId : option string;
  socket_userName : option string
}.

Inductive target : Type :=
| ToSocket (sid : string)                 (* [socket.emit] *)
| ToRoom (rid : string)                   (* [io.to(rid).emit] *)
| ToOthers (rid : option string) (sid : string).   (* [socket.to(rid).emit] *)

(** An emitted event, by destination and name. *)
Record emission : Type := Emission {
  dest : target;
  event_name : string
}.

Record server : Type := Server {
  rooms : gmap string room;
  roomFiles : gmap string files;
  sockets : gmap string socket;
  emitted : list emission;
  uncaught : list fault          (* exceptions thrown out of a handler *)
}.

Definition initial : server := Server ∅ ∅ ∅ [] [].

Definition emit (d : target) (ev : string) (s : server) : server :=
  Server (rooms s) (roomFiles s) (sockets s) (emitted s ++ [ Emission d ev ]) (uncaught s).

Definition set_files (rid : string) (t : files) (s : server) : server :=
  Server (rooms s) (<[rid := t]> (roomFiles s)) (sockets s) (emitted s) (uncaught s).

Definition throw (x : fault) (s : server) : server :=
  Server (rooms s) (roomFiles s) (sockets s) (emitted s) (uncaught s ++ [ x ]).

(** [POST /api/rooms/create]; [uuid] is what [uuidv4()] returned. *)
Definition createRoom (uuid : string) (now : nat) (s : server) : string * server :=
  let roomId := String.substring 0 8 uuid in
  (roomId,
   Server (<[roomId := Room roomId [] now]> (rooms s))
          (<[roomId := seeded]> (roomFiles s))
          (sockets s) (emitted s) (uncaught s)).

(** [GET /api/rooms/:roomId]: [Some room] is [{ exists: true, room }],
    [None] is the 404 answer [{ exists: false, ... }]. *)
Definition getRoom (roomId : string) (s : server) : option room :=
  rooms s !! roomId.

Definition connect (sid : string) (s : server) : server :=
  Server (rooms s) (roomFiles s) (<[sid := Socket None None]> (sockets s))
         (emitted s) (uncaught s).

Definition join_room (sid roomId userName : string) (now : nat) (s : server) : server :=
  match rooms s !! roomId with
  | None => emit (ToSocket sid) "error" s
  | Some r =>
      let r' := Room (room_id r) (users r ++ [ User sid userName now ]) (room_createdAt r) in
      let s1 := Server (<[roomId := r']> (rooms s)) (roomFiles s)
                       (<[sid := Socket (Some roomId) (Some userName)]> (sockets s))
                       (emitted s) (uncaught s) in
      emit (ToSocket sid) "users-list"
        (emit (ToOthers (Some roomId) sid) "user-joined"
           (emit (ToSocket sid) "files-sync" s1))
  end.

(** [roomFiles.get(roomId)] after the [if (!roomFiles.has(roomId))
    roomFiles.set(roomId, {})] that opens two of the handlers. *)
Definition files_or_new (roomId : string) (s : server) : files * server :=
  match roomFiles s !! roomId with
  | Some t => (t, s)
  | None => (no_files, set_files roomId no_files s)
  end.

Definition code_change (sid filePath text roomId : string) (s : server) : server :=
  let '(t, s1) := files_or_new roomId s in
  match is_file t (getFileFromPath t filePath) with
  | Some r => emit (ToOthers (Some roomId) sid) "code-update" (set_files roomId (set_content r text t) s1)
  | None => s1
  end.

Definition cursor_change (sid : string) (roomId : option string) (s : server) : server :=
  emit (ToOthers roomId sid) "cursor-update" s.

(** The object [fileData] of [create-file], added to the store: a
    directory gets a fresh [children] object and no [content]. *)
Definition fileData (filePath text ty : string) (now : nat) (t : files) : nat * files :=
  let fileName := List.last (split "/" filePath) "" in
  if String.eqb ty "directory" then
    let '(k, t1) := alloc_kids t in
    alloc_node (Node fileName (Some filePath) (Some ty) None (Some now) (Some k)) t1
  else alloc_node (Node fileName (Some filePath) (Some ty) (Some text) (Some now) None) t.

(** [content] and [type] are optional in the message and default to ['']
    and ['file']. *)
Definition create_file (filePath : string) (content type : option string)
           (roomId : string) (now : nat) (s : server) : server :=
  let '(t, s1) := files_or_new roomId s in
  let '(fd, t2) := fileData filePath (default "" content) (default "file" type) now t in
  match setFileAtPath t2 filePath fd with
  | (t3, Some x) => throw x (set_files roomId t3 s1)
  | (t3, None) => emit (ToRoom roomId) "file-created" (set_files roomId t3 s1)
  end.

Definition delete_file (filePath roomId : string) (s : server) : server :=
  match roomFiles s !! roomId with
  | None => s
  | Some t =>
      match deleteFileAtPath t filePath with
      | inl x => throw x s
      | inr (_, t1) => emit (ToRoom roomId) "file-deleted" (set_files roomId t1 s)
      end
  end.

Definition rename_file (oldPath newPath roomId : string) (s : server) : server :=
  match roomFiles s !! roomId with
  | None => s
  | Some t =>
      match getFileFromPath t oldPath with
      | None => s
      | Some file =>
          let newName := List.last (split "/" newPath) "" in
          let '(newFile, t1) := alloc_node (spread t file newName newPath) t in
          match deleteFileAtPath t1 oldPath with
          | inl x => throw x (set_files roomId t1 s)
          | inr (_, t2) =>
              match setFileAtPath t2 newPath newFile with
              | (t3, Some x) => throw x (set_files roomId t3 s)
              | (t3, None) => emit (ToRoom roomId) "file-renamed" (set_files roomId t3 s)
              end
          end
      end
  end.

(** [room.users.filter(user => user.id !== socket.id)] *)
Definition others (sid : string) (us : list user) : list user :=
  List.filter (fun u => negb (String.eqb (id u) sid)) us.

Definition disconnect (sid : string) (s : server) : server :=
  let gone := Server (rooms s) (roomFiles s) (delete sid (sockets s)) (emitted s) (uncaught s) in
  match sockets s !! sid with
  | None => s
  | Some sock =>
      if truthy (socket_roomId sock) then
        match socket_roomId sock with
        | Some rid =>
            match rooms s !! rid with
            | None => gone
            | Some r =>
                let us := others sid (users r) in
                let s1 := emit (ToOthers (Some rid) sid) "user-left" gone in
                match us with
                | [] => Server (delete rid (rooms s1)) (delete rid (roomFiles s1))
                               (sockets s1) (emitted s1) (uncaught s1)
                | _ :: _ => Server (<[rid := Room (room_id r) us (room_createdAt r)]> (rooms s1))
                                   (roomFiles s1) (sockets s1) (emitted s1) (uncaught s1)
                end
            end
        | None => gone
        end
      else gone
  end.

(** Messages and requests that change the registry or a tree.  The
    fields a handler takes from its message are strings, [content] and
    [type] of [create-file] possibly absent; a message in which a path is
    missing or is not a string is not among these. *)
Inductive input : Type :=
| CreateRoom (uuid : string) (now : nat)
| Connect (sid : string)
| JoinRoom (sid roomId userName : string) (now : nat)
| CodeChange (sid filePath content roomId : string)
| CursorChange (sid : string) (roomId : option string)
| CreateFile (sid filePath : string) (content type : option string) (roomId : string) (now : nat)
| DeleteFile (sid filePath roomId : string)
| RenameFile (sid oldPath newPath roomId : string)
| Disconnect (sid : string).

(** Socket messages are handled for connected sockets only; an exception
    thrown out of a handler ends the server process. *)
Definition handle (s : server) (i : input) : server :=
  match uncaught s with
  | _ :: _ => s
  | [] =>
      let connected sid := bool_decide (is_Some (sockets s !! sid)) in
      match i with
      | CreateRoom uuid now => snd (createRoom uuid now s)
      | Connect sid => connect sid s
      | JoinRoom sid roomId userName now =>
          if connected sid then join_room sid roomId userName now s else s
      | CodeChange sid filePath text roomId =>
          if connected sid then code_change sid filePath text roomId s else s
      | CursorChange sid roomId =>
          if connected sid then cursor_change sid roomId s else s
      | CreateFile sid filePath content type roomId now =>
          if connected sid then create_file filePath content type roomId now s else s
      | DeleteFile sid filePath roomId =>
          if connected sid then delete_file filePath roomId s else s
      | RenameFile sid oldPath newPath roomId =>
          if connected sid then rename_file oldPath newPath roomId s else s
      | Disconnect sid => disconnect sid s
      end
  end.

Definition handle_all (s : server) (inputs : list input) : server :=
  fold_left handle inputs s.

(** The own entries of the tree of room [rid], to a depth of [fuel]. *)
Definition listing_of (fuel : nat) (rid : string) (s : server)
  : option (list (string * option string)) :=
  roomFiles s !! rid ≫= (fun t => listing fuel t "" <$> root t).

(** What [deleteFileAtPath] returns on the tree of room [rid]. *)
Definition delete_returns (filePath rid : string) (s : server) : option bool :=
  roomFiles s !! rid ≫=
    (fun t => match deleteFileAtPath t filePath with
              | inr (b, _) => Some b
              | inl _ => None
              end).

(** What [getFileFromPath] returns on the tree of room [rid]. *)
Definition resolves (filePath rid : string) (s : server) : option (option obj) :=
  (fun t => getFileFromPath t filePath) <$> roomFiles s !! rid.

(** Every stored tree is well formed. *)
Definition rooms_well_formed (s : server) : Prop :=
  forall rid t, roomFiles s !! rid = Some t -> well_formed t.

(** Every room of the registry has such a tree. *)
Definition rooms_rooted (s : server) : Prop :=
  forall rid, is_Some (rooms s !! rid) -> exists t, roomFiles s !! rid = Some t /\ rooted t.

End Rooms.

(** * Properties *)

Import JS Catalog.

(** ** Language detection *)

Lemma extname_scan_dot_marked path chars st :
  Forall (fun ic => String.get (fst ic) path = Some (snd ic)) chars ->
  dot_marked path st ->
  dot_marked path (extname_scan chars st).
Proof.
  revert st. induction chars as [| [i c] rest IH]; intros st Hall Hst; [ exact Hst | ].
  inversion Hall as [| ? ? Hi Hrest]; subst. simpl in Hi. simpl.
  destruct (Ascii.eqb c "/") eqn:Hslash.
  - destruct (negb (matchedSlash st)); [ exact Hst | apply IH; assumption ].
  - apply IH; [ assumption | ].
    destruct st as [sdot sp en ms pd]. unfold dot_marked in *. simpl in *.
    destruct (Ascii.eqb c ".") eqn:Hdot.
    + apply Ascii.eqb_eq in Hdot. subst c.
      destruct en, sdot; simpl; try destruct (negb (pd =? 1)); simpl;
        try exact Hst; intros sd [= <-]; exact Hi.
    + destruct en, sdot; simpl; try exact Hst; discriminate.
Qed.

Lemma indexed_chars s k :
  Forall (fun ic => exists j, fst ic = (k + j)%nat /\ String.get j s = Some (snd ic))
         (combine (seq k (String.length s)) (list_ascii_of_string s)).
Proof.
  revert k. induction s as [| c s IH]; intros k; simpl; constructor.
  - exists 0%nat. split; [ simpl; lia | reflexivity ].
  - eapply Stdlib.Lists.List.Forall_impl; [ | apply (IH (S k)) ].
    intros [i a] (j & Hi & Hj). exists (S j). simpl in *. split; [ lia | exact Hj ].
Qed.

Lemma indexed_rev_get s :
  Forall (fun ic => String.get (fst ic) s = Some (snd ic)) (indexed_rev s).
Proof.
  unfold indexed_rev. apply Forall_rev.
  eapply Stdlib.Lists.List.Forall_impl; [ | apply (indexed_chars s 0) ].
  intros [i a] (j & Hi & Hj). simpl in *. subst i. exact Hj.
Qed.

Lemma substring_from_get s : forall n m c,
  String.get n s = Some c -> exists rest, String.substring n (S m) s = String c rest.
Proof.
  induction s as [| a s IH]; intros n m c H; [ destruct n; discriminate | ].
  destruct n as [| n]; simpl in *.
  - injection H as <-. eexists. reflexivity.
  - apply IH. exact H.
Qed.

(** [path.extname] returns the empty string or a string that starts with a
    dot. *)
Lemma extname_shape f : extname f = "" \/ exists rest, extname f = String "." rest.
Proof.
  unfold extname.
  pose proof (extname_scan_dot_marked f (indexed_rev f) ext_init (indexed_rev_get f)) as H.
  destruct (extname_scan (indexed_rev f) ext_init) as [sdot sp en ms pd]. simpl in *.
  destruct sdot as [sd |]; [ | left; reflexivity ].
  destruct en as [e |]; [ | left; reflexivity ].
  match goal with |- context [if ?b then _ else _] => destruct b end; [ left; reflexivity | ].
  unfold slice. destruct (e - sd)%nat as [| m] eqn:Hm.
  - left. clear. revert sd. induction f as [| a f IH]; intros [| sd]; simpl; auto.
  - right. apply substring_from_get. apply H; [ intros ? [=] | reflexivity ].
Qed.

(** No extension names a member of [Object.prototype]: the lookup in
    [languageMap] finds an own entry or nothing. *)
Lemma extension_not_inherited f : is_inherited (toLowerCase (extname f)) = false.
Proof.
  destruct (extname_shape f) as [-> | [rest ->]]; reflexivity.
Qed.

Lemma assoc_in {V : Type} (l : list (string * V)) k v :
  assoc l k = Some v -> In (k, v) l.
Proof.
  induction l as [| [k' v'] l IH]; simpl; [ discriminate | ].
  destruct (String.eqb k k') eqn:E.
  - apply String.eqb_eq in E. intros [= <-]. subst. left. reflexivity.
  - intros H. right. apply IH. exact H.
Qed.

Lemma assoc_none {V : Type} (l : list (string * V)) k :
  ~ In k (keys l) -> assoc l k = None.
Proof.
  induction l as [| [k' v'] l IH]; simpl; [ reflexivity | ].
  intros H. destruct (String.eqb k k') eqn:E.
  - apply String.eqb_eq in E. subst. exfalso. apply H. left. reflexivity.
  - apply IH. intros Hin. apply H. right. exact Hin.
Qed.

(** The inferred language is always a string, and one of the catalog. *)
Lemma inferred_language_in_catalog f :
  exists id, getLanguageFromExtension f = VStr id /\ in_catalog id.
Proof.
  unfold getLanguageFromExtension, get_prop.
  destruct (assoc languageMap (toLowerCase (extname f))) as [l |] eqn:E.
  - apply assoc_in in E. unfold languageMap in E. simpl in E.
    repeat (destruct E as [[= _ <-] | E];
            [ eexists; split; [ reflexivity | unfold in_catalog; simpl; tauto ] | ]).
    destruct E.
  - rewrite extension_not_inherited. exists "javascript".
    split; [ reflexivity | unfold in_catalog; simpl; tauto ].
Qed.

Lemma chars_app a b :
  list_ascii_of_string (a +:+ b) = (list_ascii_of_string a ++ list_ascii_of_string b)%list.
Proof.
  induction a as [| c a IH]; [ reflexivity | ].
  change (String c a +:+ b) with (String c (a +:+ b)). simpl. rewrite IH. reflexivity.
Qed.

Lemma length_chars s : length (list_ascii_of_string s) = String.length s.
Proof. induction s as [| c s IH]; simpl; congruence. Qed.

Lemma indexed_app {A : Type} (l1 l2 : list A) : forall k,
  combine (seq k (length (l1 ++ l2))) (l1 ++ l2)
  = (combine (seq k (length l1)) l1 ++ combine (seq (k + length l1) (length l2)) l2)%list.
Proof.
  induction l1 as [| a l1 IH]; intros k; simpl.
  - rewrite Nat.add_0_r. reflexivity.
  - rewrite IH. replace (S k + length l1)%nat with (k + S (length l1))%nat by lia. reflexivity.
Qed.

Lemma combine_snd_Forall {A B : Type} (P : B -> Prop) (l2 : list B) : forall (l1 : list A),
  Forall P l2 -> Forall (fun ic => P (snd ic)) (combine l1 l2).
Proof.
  induction l2 as [| b l2 IH]; intros l1 H.
  - destruct l1; constructor.
  - destruct l1 as [| a l1]; [ constructor | ].
    inversion H; subst. simpl. constructor; [ assumption | apply IH; assumption ].
Qed.

(** Characters that are neither a dot nor a slash, read after the end of the
    last segment was marked and before any dot was seen, change nothing. *)
Lemma extname_scan_plain chars rest : forall st en,
  Forall (fun ic => snd ic <> "."%char /\ snd ic <> "/"%char) chars ->
  end_ st = Some en -> startDot st = None ->
  extname_scan (chars ++ rest) st = extname_scan rest st.
Proof.
  induction chars as [| [i c] chars IH]; intros st en Hall He Hs; [ reflexivity | ].
  inversion Hall as [| ? ? [Hdot Hslash] Hrest]; subst. simpl in Hdot, Hslash.
  apply Ascii.eqb_neq in Hdot, Hslash.
  simpl. rewrite Hslash, He, Hdot, Hs. apply (IH st en Hrest He Hs).
Qed.

(** Once a dot and the end are marked and a character before the dot was
    read, the rest of the scan keeps all three. *)
Lemma extname_scan_keeps chars : forall st sd en,
  startDot st = Some sd -> end_ st = Some en -> preDotState st <> 0 ->
  let st' := extname_scan chars st in
  startDot st' = Some sd /\ end_ st' = Some en /\ preDotState st' <> 0.
Proof.
  induction chars as [| [i c] chars IH]; intros st sd en Hs He Hp; [ simpl; auto | ].
  simpl. destruct (Ascii.eqb c "/").
  - destruct (negb (matchedSlash st)); [ simpl; auto | apply IH; assumption ].
  - rewrite He, Hs. destruct (Ascii.eqb c ".").
    + destruct (negb (preDotState st =? 1)) eqn:E.
      * apply IH; simpl; auto; lia.
      * apply IH; assumption.
    + apply IH; simpl; auto; lia.
Qed.

Lemma substring_all b : String.substring 0 (String.length b) b = b.
Proof. induction b as [| c b IH]; simpl; congruence. Qed.

Lemma substring_app_tail a b :
  String.substring (String.length a) (String.length b) (a +:+ b) = b.
Proof.
  induction a as [| c a IH]; [ apply substring_all | ].
  change (String c a +:+ b) with (String c (a +:+ b)). simpl. exact IH.
Qed.

Lemma string_app_cons a c b : a +:+ String c b = (a +:+ String c "") +:+ b.
Proof.
  induction a as [| x a IH]; [ reflexivity | ].
  change (String x a +:+ String c b) with (String x (a +:+ String c b)).
  change ((String x a +:+ String c "") +:+ b) with (String x ((a +:+ String c "") +:+ b)).
  rewrite IH. reflexivity.
Qed.

Lemma length_app_one a c : String.length (a +:+ String c "") = S (String.length a).
Proof.
  induction a as [| x a IH]; [ reflexivity | ].
  change (String x a +:+ String c "") with (String x (a +:+ String c "")). simpl. congruence.
Qed.

(** A last segment [...c.e], where [c] is not a slash and [e] is not empty
    and has neither dot nor slash, has the extension [.e]. *)
Lemma extname_after_stem pre c e :
  c <> "/"%char -> e <> "" ->
  Forall (fun a => a <> "."%char /\ a <> "/"%char) (list_ascii_of_string e) ->
  extname (pre +:+ String c (String "." e)) = String "." e.
Proof.
  intros Hc He Hall.
  set (path := pre +:+ String c (String "." e)).
  set (n := String.length pre).
  assert (list_ascii_of_string e <> []) as Hle by (destruct e; [ contradiction | discriminate ]).
  destruct (exists_last Hle) as (le' & x & Hsplit).
  assert (indexed_rev path
          = ((n + 2 + length le', x)%nat
               :: rev (combine (seq (n + 2) (length le')) le')
               ++ (n + 1, "."%char)%nat :: (n, c)
               :: rev (combine (seq 0 n) (list_ascii_of_string pre)))%list) as Hrev.
  { unfold indexed_rev, path. rewrite <- length_chars, chars_app.
    change (list_ascii_of_string (String c (String "." e)))
      with ([ c; "."%char ] ++ list_ascii_of_string e)%list.
    rewrite Hsplit, !indexed_app. simpl combine. rewrite length_chars. fold n.
    rewrite !rev_app_distr. simpl rev. rewrite <- !app_assoc. simpl.
    replace (n + 0)%nat with n by lia. replace (n + 2 + 0)%nat with (n + 2)%nat by lia.
    replace (S (S n)) with (n + 2)%nat by lia. replace (S n) with (n + 1)%nat by lia.
    replace (n + 1 + 1)%nat with (n + 2)%nat by lia.
    reflexivity. }
  rewrite Hsplit in Hall. apply Forall_app in Hall as [Hall' Hx].
  inversion Hx as [| ? ? [Hxd Hxs] _]; subst.
  apply Ascii.eqb_neq in Hxd, Hxs, Hc.
  assert (Forall (fun ic : nat * ascii => snd ic <> "."%char /\ snd ic <> "/"%char)
                 (rev (combine (seq (n + 2) (length le')) le'))) as Hplain
    by (apply Forall_rev,
          (combine_snd_Forall (fun a => a <> "."%char /\ a <> "/"%char)), Hall').
  assert (exists st, extname_scan (indexed_rev path) ext_init = st
                     /\ startDot st = Some (n + 1)%nat
                     /\ end_ st = Some (n + 2 + length le' + 1)%nat
                     /\ preDotState st <> 0) as (st & Hst & Hsd & Hen & Hpd).
  { rewrite Hrev. cbn [extname_scan ext_init end_ startDot startPart matchedSlash preDotState].
    rewrite Hxs, Hxd.
    cbn [end_ startDot startPart matchedSlash preDotState].
    rewrite (extname_scan_plain _ _ (ExtState None 0 (Some (n + 2 + length le' + 1)%nat) false 0)
               _ Hplain eq_refl eq_refl).
    cbn [extname_scan end_ startDot startPart matchedSlash preDotState].
    change (Ascii.eqb "." "/") with false. change (Ascii.eqb "." ".") with true.
    cbn [end_ startDot startPart matchedSlash preDotState]. rewrite Hc.
    eexists. split; [ reflexivity | ].
    apply extname_scan_keeps; [ | | ].
    - destruct (Ascii.eqb c "."); reflexivity.
    - destruct (Ascii.eqb c "."); reflexivity.
    - destruct (Ascii.eqb c "."); simpl; lia. }
  unfold extname. rewrite Hst, Hsd, Hen.
  replace (preDotState st =? 0) with false by (symmetry; apply Z.eqb_neq; exact Hpd).
  replace (Nat.eqb (n + 1) (n + 2 + length le' + 1 - 1)) with false
    by (symmetry; apply Nat.eqb_neq; lia).
  rewrite andb_false_r. cbn [orb andb].
  unfold slice, path. rewrite string_app_cons.
  replace (n + 1)%nat with (String.length (pre +:+ String c "")) by (rewrite length_app_one; lia).
  replace (n + 2 + length le' + 1 - String.length (pre +:+ String c ""))%nat
    with (String.length (String "." e)).
  - apply substring_app_tail.
  - rewrite length_app_one. simpl. rewrite <- (length_chars e), Hsplit, length_app. simpl.
    fold n. lia.
Qed.

(** X17 (GET /api/languages, getLanguageExtensions, getLanguageFromExtension):
    every extension that the language list advertises for a language is
    detected as that language, in lower and in upper case, on every file
    name whose last segment has a character before the extension; and the
    language has an entry in the catalog. *)
Theorem advertised_extension_detected (info : language_info) (l : list string)
        (ext pre : string) (c : ascii) :
  In info languages ->
  info_extensions info = Extensions l ->
  In ext l ->
  c <> "/"%char ->
  getLanguageFromExtension (pre +:+ String c ext) = VStr (info_id info)
  /\ getLanguageFromExtension (pre +:+ String c (toUpperCase ext)) = VStr (info_id info)
  /\ in_catalog (info_id info).
Proof.
  intros Hin Hext Hl Hc. unfold languages in Hin. cbn in Hin.
  repeat (destruct Hin as [<- | Hin];
          [ cbn in Hext; injection Hext as <-; cbn in Hl;
            repeat (destruct Hl as [<- | Hl];
                    [ unfold getLanguageFromExtension; cbn [toUpperCase];
                      rewrite !extname_after_stem
                        by (try exact Hc; try discriminate;
                            repeat constructor; discriminate);
                      split; [ reflexivity | ];
                      split; [ reflexivity | unfold in_catalog; cbn; tauto ] | ]);
            destruct Hl | ]).
  destruct Hin.
Qed.

Lemma advertised_extension_detected_witness :
  getLanguageFromExtension "src/Main.JAVA" = VStr "java".
Proof.
  apply (advertised_extension_detected
           (LanguageInfo "java" "Java" (Extensions [ ".java" ])) [ ".java" ] ".java"
           "src/Mai" "n").
  - do 2 right. left. reflexivity.
  - reflexivity.
  - left. reflexivity.
  - discriminate.
Defined.

(** X18 (getLanguageExtensions, getLanguageFromExtension, GET
    /api/languages): the two extension tables agree.  An extension is
    mapped to a language exactly when the language list advertises it for
    that language. *)
Theorem extension_tables_agree (ext lang : string) :
  assoc languageMap ext = Some lang
  <-> exists info l, In info languages /\ info_id info = lang
                     /\ info_extensions info = Extensions l /\ In ext l.
Proof.
  split.
  - intros H. apply assoc_in in H. unfold languageMap in H. cbn in H.
    repeat (destruct H as [[= <- <-] | H];
            [ match goal with
              | |- exists info l, _ /\ info_id info = ?lang /\ _ =>
                  exists (LanguageInfo lang (display_name lang) (getLanguageExtensions lang))
              end;
              eexists;
              split; [ apply (in_map (fun key => LanguageInfo key (display_name key)
                                                  (getLanguageExtensions key)));
                       cbn; auto 15 | ];
              split; [ reflexivity | ]; split; [ reflexivity | cbn; auto 15 ] | ]).
    destruct H.
  - intros (info & l & Hin & <- & Hext & Hl). unfold languages in Hin. cbn in Hin.
    repeat (destruct Hin as [<- | Hin];
            [ cbn in Hext; injection Hext as <-; cbn in Hl;
              repeat (destruct Hl as [<- | Hl]; [ reflexivity | ]); destruct Hl | ]).
    destruct Hin.
Qed.

Import Exec.


Lemma truthy_some f : f <> "" -> truthy (Some f) = true.
Proof.
  intros H. simpl. destruct (String.eqb f "") eqn:E; [ | reflexivity ].
  apply String.eqb_eq in E. contradiction.
Qed.


Lemma lookup_own_in_catalog d config : lookup_config d = Own config -> in_catalog (to_string d).
Proof.
  unfold lookup_config, get_prop.
  destruct (assoc languageConfigs (to_string d)) eqn:E.
  - intros _. apply assoc_in in E. unfold in_catalog, keys.
    apply (in_map fst) in E. exact E.
  - destruct (is_inherited _); discriminate.
Qed.

(** With a non-empty filename the handler does what it does for a request
    that names the inferred language and carries no filename: the explicit
    language id of the request plays no part. *)
Lemma execute_with_filename e has w src rid fname lang id :
  fname <> "" ->
  getLanguageFromExtension fname = VStr id ->
  execute e has (Request src lang rid (Some fname)) w
  = execute e has (Request src (Some id) rid None) w.
Proof.
  intros Hne Hid. unfold execute. cbn [filename language roomId code].
  unfold detectedLanguage. rewrite (truthy_some _ Hne), Hid. reflexivity.
Qed.

(** A falsy filename, absent or empty, is not looked at. *)
Lemma execute_without_filename e has w src rid lang f :
  truthy f = false ->
  execute e has (Request src lang rid f) w = execute e has (Request src lang rid None) w.
Proof.
  intros Hf. unfold execute. cbn [filename language roomId code].
  unfold detectedLanguage. rewrite Hf. reflexivity.
Qed.

(** C4, amended: a request that supplies a non-empty filename is handled
    as a request for the language inferred from the extension of that
    filename, whatever explicit language id it carries; a request whose
    filename is absent or empty is handled in the explicit language: for a
    catalog language, the handler takes the time limit of that entry and
    starts its interpreter, or hands the code to the compile pipeline under
    that language. *)
Theorem filename_overrides_language (e : env) (w : world) (src rid fname : string)
        (lang : option string) :
  (fname <> "" ->
   exists id, getLanguageFromExtension fname = VStr id
              /\ in_catalog id
              /\ forall has, execute e has (Request src lang rid (Some fname)) w
                             = execute e has (Request src (Some id) rid None) w)
  /\ (forall f has, truthy f = false ->
                    execute e has (Request src lang rid f) w
                    = execute e has (Request src lang rid None) w)
  /\ (forall id config,
        lang = Some id -> lookup_config (VStr id) = Own config ->
        let s := execute e true (Request src lang rid None) w in
        detected (snd s) = VStr id
        /\ limit (snd s) = timeout config
        /\ (compile config = false ->
            child (snd s) = Some (length (procs w))
            /\ exists a, procs (fst s)
                         = (procs w ++ [ Process (command config) a Interpreter Alive ])%list)
        /\ (compile config = true ->
            fst s = fst (executeCompiledLanguage e id src w))).
Proof.
  split; [ | split ].
  - intros Hne. destruct (inferred_language_in_catalog fname) as (id & Hid & Hin).
    exists id. split; [ exact Hid | ]. split; [ exact Hin | ].
    intros has. apply execute_with_filename; assumption.
  - intros f has Hf. apply execute_without_filename, Hf.
  - intros id config -> Hc. unfold execute.
    cbn [negb filename language roomId code detectedLanguage truthy of_option].
    rewrite Hc. change (to_string (VStr id)) with id.
    destruct (compile config) eqn:Ecomp.
    + destruct (executeCompiledLanguage e id src w) as [w1 [x | j]];
        (split; [ reflexivity | ]); (split; [ reflexivity | ]);
        (split; [ discriminate | reflexivity ]).
    + destruct (String.eqb id "go");
        (split; [ reflexivity | ]); (split; [ reflexivity | ]);
        (split; [ | discriminate ]); intros _; (split; [ reflexivity | ]);
        eexists; reflexivity.
Qed.

(** A request for javascript that names [main.py] starts python. *)
Lemma filename_overrides_language_witness :
  procs (fst (execute sample_env true
                (Request "print(1)" (Some "javascript") "room" (Some "main.py"))
                empty_world))
  = [ Process "python3" [ "-c"; "print(1)" ] Interpreter Alive ].
Proof.
  destruct (proj1 (filename_overrides_language sample_env empty_world "print(1)" "room"
                     "main.py" (Some "javascript")))
    as (id & Hid & _ & H); [ discriminate | ].
  rewrite H. vm_compute in Hid. injection Hid as <-. vm_compute. reflexivity.
Defined.

(** C4 as it is stated, at the empty filename: the request supplies a
    filename, the language inferred from it is javascript, and the handler
    runs the explicit language, python; the test [filename ? ... : language]
    takes an empty string for no filename. *)
Lemma empty_filename_runs_explicit_language :
  let req := Request "print(1)" (Some "python") "room" (Some "") in
  getLanguageFromExtension "" = VStr "javascript"
  /\ detected (snd (execute sample_env true req empty_world)) = VStr "python"
  /\ procs (fst (execute sample_env true req empty_world))
     = [ Process "python3" [ "-c"; "print(1)" ] Interpreter Alive ]
  /\ execute sample_env true req empty_world
     <> execute sample_env true (Request "print(1)" (Some "javascript") "room" None)
          empty_world.
Proof.
  split; [ vm_compute; reflexivity | ]. split; [ vm_compute; reflexivity | ].
  split; [ vm_compute; reflexivity | ].
  intros H. apply (f_equal (fun s => detected (snd s))) in H. vm_compute in H. discriminate H.
Qed.



(** A language id that is neither in the catalog nor the name of a member
    of [Object.prototype] gets the unsupported-language answer, and nothing
    is spawned or written. *)
Lemma unknown_language_unsupported e w src rid l :
  ~ in_catalog l -> is_inherited l = false ->
  execute e true (Request src (Some l) rid None) w
  = (w, answered rid (VStr l) (Json (unsupported (VStr l)))).
Proof.
  intros Hin Hproto. unfold execute. simpl.
  unfold lookup_config, get_prop. simpl to_string.
  rewrite (assoc_none _ _ Hin), Hproto. reflexivity.
Qed.

(** C5, at the language id ["constructor"]: it is no catalog entry, yet
    the lookup in the catalog object finds the inherited member, the handler
    goes on, fails on [config.args] and answers with the execution-error
    result instead of the unsupported-language one.  No process is
    started. *)
Theorem inherited_name_passes_catalog_check (e : env) (w : world) (src rid : string) :
  ~ in_catalog "constructor"
  /\ execute e true (Request src (Some "constructor") rid None) w
     = (w, answered rid (VStr "constructor")
             (Json (execution_error e NotIterable (VStr "constructor"))))
  /\ execution_error e NotIterable (VStr "constructor") <> unsupported (VStr "constructor").
Proof.
  split; [ | split ].
  - unfold in_catalog. simpl. intros H.
    repeat (destruct H as [H | H]; [ discriminate H | ]). destruct H.
  - reflexivity.
  - discriminate.
Qed.

(** ** Compilation failure *)

Lemma roles_set_state pid st w : roles (set_state pid st w) = roles w.
Proof.
  unfold roles, set_state. simpl. generalize (procs w) as l. clear w.
  intros l. revert pid. induction l as [| p l IH]; intros [| pid]; simpl; try reflexivity.
  f_equal. apply IH.
Qed.

Lemma open_set_state_ne pid pid' st w :
  pid <> pid' -> open pid' (set_state pid st w) = open pid' w.
Proof.
  intros Hne. unfold open, set_state. simpl.
  rewrite list_lookup_alter_ne by exact Hne. reflexivity.
Qed.

Lemma open_set_state_closed pid c w : open pid (set_state pid (Closed c) w) = false.
Proof.
  unfold open, set_state. simpl. rewrite list_lookup_alter.
  destruct (decide (pid = pid)); [ | congruence ].
  destruct (procs w !! pid); reflexivity.
Qed.

Lemma string_app_assoc (a b c : string) : (a +:+ b) +:+ c = a +:+ (b +:+ c).
Proof.
  induction a as [| x a IH]; [ reflexivity | ].
  change (String x ((a +:+ b) +:+ c) = String x (a +:+ (b +:+ c))).
  f_equal. exact IH.
Qed.

Lemma string_app_nil_r (a : string) : a +:+ "" = a.
Proof.
  induction a as [| x a IH]; [ reflexivity | ].
  change (String x (a +:+ "") = String x a). f_equal. exact IH.
Qed.

Lemma compiling_step room d cp rs err s ev :
  compiling room d cp rs err s ->
  (forall c, ev <> Close cp c) ->
  compiling room d cp rs (err +:+ stderr_of cp [ ev ]) (step s ev)
  /\ (ev <> Deadline -> sent (snd s) = None -> sent (snd (step s ev)) = None).
Proof.
  destruct s as [w h].
  intros (Hroom & Hd & Hr & Hopen & Hu & Hc & Hb & Ht & j & Hj & Hcp & Hrun & Herr & Hcb) Hev.
  destruct h as [room' d' lim ch out eout tm snt unc bs jb]. simpl in *. subst.
  destruct j as [lang ts src exe cp' co ce rp ro re cb]. simpl in *. subst.
  unfold step. simpl.
  destruct ev as [pid data | pid data | pid path content | pid code |]; simpl.
  - (* stdout *)
    rewrite string_app_nil_r.
    destruct (open pid w) eqn:Hp; simpl.
    + unfold on_data, is_child, is_compiler, is_program. simpl.
      destruct (Nat.eqb pid cp'); simpl; (split; [ | auto ]); repeat split; eauto 10.
    + (split; [ | auto ]); repeat split; eauto 10.
  - (* stderr *)
    destruct (open pid w) eqn:Hp; simpl.
    + unfold on_data, is_child, is_compiler, is_program. simpl.
      destruct (Nat.eqb pid cp') eqn:E; simpl.
      * (split; [ | auto ]). rewrite string_app_nil_r. repeat split; eauto 10.
      * (split; [ | auto ]). rewrite string_app_nil_r. repeat split; eauto 10.
    + destruct (Nat.eqb pid cp') eqn:E.
      * apply Nat.eqb_eq in E. subst. congruence.
      * rewrite string_app_nil_r. (split; [ | auto ]); repeat split; eauto 10.
  - (* a file is written *)
    rewrite string_app_nil_r.
    destruct (open pid w) eqn:Hp; simpl; (split; [ | auto ]); repeat split; eauto 10.
  - (* another process closes *)
    rewrite string_app_nil_r.
    assert (pid <> cp') as Hne by (intros ->; apply (Hev code); reflexivity).
    destruct (open pid w) eqn:Hp; simpl.
    + unfold on_close, is_child, is_compiler, is_program. simpl.
      apply Nat.eqb_neq in Hne as Hneb. rewrite Hneb. simpl.
      split; [ | auto ]. rewrite roles_set_state, open_set_state_ne by exact Hne.
      repeat split; eauto 10.
    + (split; [ | auto ]); repeat split; eauto 10.
  - (* the timer *)
    rewrite string_app_nil_r. split; [ | congruence ].
    destruct Ht as [[-> ->] | ->]; simpl; repeat split; eauto 10.
Qed.

Lemma stderr_of_app pid evs1 evs2 :
  stderr_of pid (evs1 ++ evs2) = stderr_of pid evs1 +:+ stderr_of pid evs2.
Proof.
  induction evs1 as [| ev evs1 IH]; simpl; [ reflexivity | ].
  destruct ev; try exact IH.
  destruct (Nat.eqb _ _); [ | exact IH ].
  rewrite IH, string_app_assoc. reflexivity.
Qed.

Lemma compiling_run room d cp rs evs : forall err s,
  compiling room d cp rs err s ->
  (forall c, ~ In (Close cp c) evs) ->
  compiling room d cp rs (err +:+ stderr_of cp evs) (run s evs)
  /\ (~ In Deadline evs -> sent (snd s) = None -> sent (snd (run s evs)) = None).
Proof.
  induction evs as [| ev evs IH]; intros err s Hs Hev.
  - simpl. rewrite string_app_nil_r. auto.
  - destruct (compiling_step room d cp rs err s ev Hs) as [Hs1 Hsent1].
    { intros c ->. apply (Hev c). left. reflexivity. }
    destruct (IH _ _ Hs1) as [Hs2 Hsent2].
    { intros c Hin. apply (Hev c). right. exact Hin. }
    change (run s (ev :: evs)) with (run (step s ev) evs).
    split.
    + change (ev :: evs) with (List.app [ ev ] evs).
      rewrite stderr_of_app, <- string_app_assoc. exact Hs2.
    + intros Hd Hnone. apply Hsent2.
      * intros Hin. apply Hd. right. exact Hin.
      * apply Hsent1; [ | exact Hnone ]. intros ->. apply Hd. left. reflexivity.
Qed.

Lemma settled_step cp rs h0 s ev : settled cp rs h0 s -> settled cp rs h0 (step s ev).
Proof.
  destruct s as [w h]. intros (Hr & Hopen & <- & Hc & Ht & j & Hj & Hcp & Hrun).
  unfold step. destruct (uncaught h) as [| x xs] eqn:Hu; [ | repeat split; eauto ].
  assert (forall pid, open pid w = true -> pid <> cp) as Hne by (intros pid Hp ->; congruence).
  destruct ev as [pid data | pid data | pid path content | pid code |].
  - destruct (open pid w) eqn:Hp; [ | repeat split; eauto ].
    apply Hne, Nat.eqb_neq in Hp.
    unfold on_data, is_child, is_compiler, is_program. rewrite Hc, Hj, Hcp, Hp, Hrun. simpl.
    repeat split; eauto.
  - destruct (open pid w) eqn:Hp; [ | repeat split; eauto ].
    apply Hne, Nat.eqb_neq in Hp.
    unfold on_data, is_child, is_compiler, is_program. rewrite Hc, Hj, Hcp, Hp, Hrun. simpl.
    repeat split; eauto.
  - destruct (open pid w) eqn:Hp; repeat split; eauto.
  - destruct (open pid w) eqn:Hp; [ | repeat split; eauto ].
    apply Hne in Hp as Hp'. apply Nat.eqb_neq in Hp' as Hpb.
    unfold on_close, is_child, is_compiler, is_program. rewrite Hc, Hj, Hcp, Hpb, Hrun. simpl.
    rewrite roles_set_state, open_set_state_ne by exact Hp'. repeat split; eauto.
  - destruct (timeout_ h) eqn:E; [ congruence | | ]; repeat split; eauto; congruence.
Qed.

Lemma settled_run cp rs h0 evs : forall s, settled cp rs h0 s -> settled cp rs h0 (run s evs).
Proof.
  induction evs as [| ev evs IH]; intros s Hs; [ exact Hs | ].
  apply IH, settled_step, Hs.
Qed.

Lemma lookup_config_to_string d : lookup_config (VStr (to_string d)) = lookup_config d.
Proof. reflexivity. Qed.

(** A request for a compiled language whose compiler can be started: the
    handler returns with the compiler running and the timer armed. *)
Lemma compile_started e req w config cc :
  lookup_config (detectedLanguage (filename req) (language req)) = Own config ->
  compile config = true ->
  compileCommand config = Some cc ->
  compiling (roomId req) (detectedLanguage (filename req) (language req))
            (length (procs w)) (roles w ++ [ Compiler ])%list "" (execute e true req w)
  /\ sent (snd (execute e true req w)) = None.
Proof.
  intros Hl Hc Hcc. unfold execute. simpl. rewrite Hl, Hc.
  unfold executeCompiledLanguage. rewrite lookup_config_to_string, Hl, Hcc.
  destruct (source_files _ _ _) as [[[f text] |] exe]; simpl;
    (split; [ | reflexivity ]); unfold roles, open; simpl;
    rewrite map_app, lookup_app_r, Nat.sub_diag by lia; simpl;
    repeat split; eauto 12.
Qed.

(** The compiler closes with a status other than 0. *)
Lemma compile_failed room d cp rs err s code :
  compiling room d cp rs err s ->
  nonzero code = true ->
  let r := Result ("Compilation failed:" +:+ nl +:+ err) (Some code) true None in
  let s' := step s (Close cp code) in
  settled cp rs (snd s') s'
  /\ (job (snd s') ≫= called_back) = Some r
  /\ broadcasts (snd s') = [ Broadcast room (output r) (Some code) d ]
  /\ (sent (snd s) = None -> sent (snd s') = Some (Json r)).
Proof.
  destruct s as [w h].
  intros (Hroom & Hd & Hr & Hopen & Hu & Hc & Hb & Ht & j & Hj & Hcp & Hrun & Herr & Hcb) Hnz.
  destruct h as [room' d' lim ch out eout tm snt unc bs jb]. simpl in *. subst.
  destruct j as [lang ts src exe cp' co ce rp ro re cb]. simpl in *. subst.
  unfold step. simpl. rewrite Hopen.
  unfold on_close, is_child, is_compiler. simpl. rewrite Nat.eqb_refl.
  unfold compile_closed. rewrite Hnz. simpl.
  rewrite roles_set_state, open_set_state_closed.
  destruct Ht as [[-> ->] | ->]; simpl.
  - repeat split; eauto 10; discriminate.
  - destruct snt; simpl; repeat split; eauto 10; discriminate.
Qed.

(** C3: when the compiler of a compile-mode request closes with a status
    other than 0, the result handed back is the compile-failed one (error
    flag set, output made of the compiler's standard error), it is what the
    room is told and, unless the timer fired first, what the requester
    receives; whatever happens afterwards, the compiler stays the only
    process the request ever started: the run phase is never entered. *)
Theorem compile_failure_skips_run (e : env) (w : world) (req : request) (config : config)
        (cc : string) (evs1 evs2 : list event) (code : option Z) :
  let d := detectedLanguage (filename req) (language req) in
  let cp := length (procs w) in
  let r := Result ("Compilation failed:" +:+ nl +:+ stderr_of cp evs1) (Some code) true None in
  let s' := run (execute e true req w) (evs1 ++ Close cp code :: evs2)%list in
  lookup_config d = Own config ->
  compile config = true ->
  compileCommand config = Some cc ->
  (forall c, ~ In (Close cp c) evs1) ->
  nonzero code = true ->
  (job (snd s') ≫= called_back) = Some r
  /\ broadcasts (snd s') = [ Broadcast (roomId req) (output r) (Some code) d ]
  /\ (~ In Deadline evs1 -> sent (snd s') = Some (Json r))
  /\ roles (fst s') = (roles w ++ [ Compiler ])%list
  /\ (job (snd s') ≫= runProcess) = None.
Proof.
  intros d cp r s' Hl Hc Hcc Hfirst Hnz.
  destruct (compile_started e req w config cc Hl Hc Hcc) as [H0 Hsent0].
  destruct (compiling_run _ _ _ _ evs1 _ _ H0 Hfirst) as [H1 Hsent1].
  pose proof (compile_failed _ _ _ _ _ _ code H1 Hnz) as (H2 & Hcb & Hbc & Hsent2).
  pose proof (settled_run _ _ _ evs2 _ H2) as H3.
  subst s' cp. unfold run in *. rewrite fold_left_app. simpl fold_left.
  set (s1 := fold_left step evs1 (execute e true req w)) in *.
  revert H3. destruct (fold_left step evs2 _) as [w3 h3]. unfold settled.
  intros (Hr & Hopen & -> & Hch & Ht & j & Hj & Hcp & Hrun).
  simpl. repeat split.
  - exact Hcb.
  - exact Hbc.
  - intros Hd. apply Hsent2, Hsent1; assumption.
  - exact Hr.
  - rewrite Hj. simpl. exact Hrun.
Qed.

Lemma compile_failure_skips_run_witness :
  let s' := run (execute sample_env true (Request "int main( {" (Some "c") "room" None) empty_world)
                ([ Stderr 0 "error: expected )" ] ++ Close 0 (Some 1) :: [ Deadline ])%list in
  sent (snd s') = Some (Json (Result ("Compilation failed:" +:+ nl +:+ "error: expected )")
                                     (Some (Some 1)) true None))
  /\ roles (fst s') = [ Compiler ].
Proof.
  pose proof (compile_failure_skips_run sample_env empty_world
                (Request "int main( {" (Some "c") "room" None)
                (Config "./temp_program" [] 15000 true (Some "gcc")
                        (Some [ "-o"; "temp_program" ]) None)
                "gcc" [ Stderr 0 "error: expected )" ] [ Deadline ] (Some 1)
                eq_refl eq_refl eq_refl) as H.
  simpl in H.
  destruct H as (_ & _ & Hsent & Hroles & _).
  - intros c [H | []]. discriminate H.
  - reflexivity.
  - split; [ apply Hsent; intros [H | []]; discriminate H | exact Hroles ].
Defined.

(** ** The deadline *)

Lemma running_open pid w : running pid w = true -> open pid w = true.
Proof.
  unfold running, open. destruct (procs w !! pid) as [p |]; [ | discriminate ].
  destruct (state p); (reflexivity || discriminate).
Qed.

Lemma running_set_state_ne pid pid' st w :
  pid <> pid' -> running pid' (set_state pid st w) = running pid' w.
Proof.
  intros Hne. unfold running, set_state. simpl.
  rewrite list_lookup_alter_ne by exact Hne. reflexivity.
Qed.

Lemma running_kill pid w : running pid (kill pid w) = false.
Proof.
  unfold kill, running. destruct (procs w !! pid) as [p |] eqn:E.
  - destruct (state p) eqn:Es.
    + unfold set_state. simpl. rewrite list_lookup_alter, E.
      destruct (decide (pid = pid)); [ reflexivity | congruence ].
    + rewrite E, Es. reflexivity.
    + rewrite E, Es. reflexivity.
  - rewrite E. reflexivity.
Qed.

Lemma interpreting_step pid lim out s ev :
  interpreting pid lim out s ->
  (forall c, ev <> Close pid c) -> ev <> Deadline ->
  interpreting pid lim (out +:+ stdout_of pid [ ev ]) (step s ev).
Proof.
  destruct s as [w h]. intros (Hrun & Hu & Hc & Hj & Ht & Hs & Hl & Ho) Hclose Hdl.
  destruct h as [room d lim' ch o eo tm snt unc bs jb]. simpl in *. subst.
  unfold step. simpl.
  destruct ev as [p data | p data | p path content | p code |]; simpl.
  - destruct (open p w) eqn:Hp; simpl.
    + unfold on_data, is_child. simpl.
      destruct (Nat.eqb p pid) eqn:E.
      * apply Nat.eqb_eq in E. subst p. rewrite bool_decide_eq_true_2 by reflexivity.
        simpl. rewrite string_app_nil_r. repeat split; assumption.
      * apply Nat.eqb_neq in E. rewrite bool_decide_eq_false_2 by congruence.
        simpl. rewrite string_app_nil_r. repeat split; assumption.
    + destruct (Nat.eqb p pid) eqn:E.
      * apply Nat.eqb_eq in E. subst p. apply running_open in Hrun. congruence.
      * rewrite string_app_nil_r. repeat split; assumption.
  - rewrite string_app_nil_r. destruct (open p w) eqn:Hp; simpl.
    + unfold on_data, is_child. simpl.
      destruct (bool_decide (Some pid = Some p)); simpl; repeat split; assumption.
    + repeat split; assumption.
  - rewrite string_app_nil_r. destruct (open p w); simpl; repeat split; assumption.
  - rewrite string_app_nil_r.
    assert (p <> pid) as Hne by (intros ->; apply (Hclose code); reflexivity).
    destruct (open p w) eqn:Hp; simpl.
    + unfold on_close, is_child. simpl.
      rewrite bool_decide_eq_false_2 by congruence. simpl.
      rewrite running_set_state_ne by exact Hne. repeat split; assumption.
    + repeat split; assumption.
  - contradiction.
Qed.

Lemma stdout_of_app pid evs1 evs2 :
  stdout_of pid (evs1 ++ evs2) = stdout_of pid evs1 +:+ stdout_of pid evs2.
Proof.
  induction evs1 as [| ev evs1 IH]; simpl; [ reflexivity | ].
  destruct ev; try exact IH.
  destruct (Nat.eqb _ _); [ | exact IH ].
  rewrite IH, string_app_assoc. reflexivity.
Qed.

Lemma interpreting_run pid lim evs : forall out s,
  interpreting pid lim out s ->
  (forall c, ~ In (Close pid c) evs) -> ~ In Deadline evs ->
  interpreting pid lim (out +:+ stdout_of pid evs) (run s evs).
Proof.
  induction evs as [| ev evs IH]; intros out s Hs Hclose Hdl.
  - simpl. rewrite string_app_nil_r. exact Hs.
  - change (run s (ev :: evs)) with (run (step s ev) evs).
    change (ev :: evs) with (List.app [ ev ] evs).
    rewrite stdout_of_app, <- string_app_assoc. apply IH.
    + apply interpreting_step; [ exact Hs | | ].
      * intros c ->. apply (Hclose c). left. reflexivity.
      * intros ->. apply Hdl. left. reflexivity.
    + intros c Hin. apply (Hclose c). right. exact Hin.
    + intros Hin. apply Hdl. right. exact Hin.
Qed.

(** An interpreted request (any catalog language that is not compiled and
    is not go) starts the interpreter on the source text. *)
Lemma interpreter_started e req w config :
  let d := detectedLanguage (filename req) (language req) in
  lookup_config d = Own config ->
  compile config = false ->
  to_string d <> "go" ->
  interpreting (length (procs w)) (timeout config) "" (execute e true req w).
Proof.
  intros d Hl Hc Hgo. unfold execute. simpl. fold d. rewrite Hl, Hc.
  destruct (String.eqb (to_string d) "go") eqn:E; [ apply String.eqb_eq in E; contradiction | ].
  simpl. unfold running. simpl. rewrite lookup_app_r, Nat.sub_diag by lia. simpl.
  repeat split.
Qed.

(** X13 (POST /api/execute, timer callback): on the interpreted path, when
    the timer fires before the child has closed, the child is signalled, and
    the answer has the error flag and the output read so far followed by the
    notice. *)
Lemma deadline_stops_interpreter (e : env) (w : world) (req : request) (config : config)
      (evs : list event) :
  let d := detectedLanguage (filename req) (language req) in
  let pid := length (procs w) in
  let s' := run (execute e true req w) (evs ++ [ Deadline ])%list in
  lookup_config d = Own config ->
  compile config = false ->
  to_string d <> "go" ->
  (forall c, ~ In (Close pid c) evs) -> ~ In Deadline evs ->
  sent (snd s')
  = Some (Json (Result (stdout_of pid evs +:+ nl +:+ "[Execution timed out after "
                        +:+ seconds_text (timeout config) +:+ " seconds]")
                       None true None))
  /\ running pid (fst s') = false.
Proof.
  intros d pid s' Hl Hc Hgo Hclose Hdl.
  pose proof (interpreter_started e req w config Hl Hc Hgo) as H0.
  pose proof (interpreting_run _ _ evs _ _ H0 Hclose Hdl) as H1.
  subst s' pid. unfold run in *. rewrite fold_left_app.
  destruct (fold_left step evs (execute e true req w)) as [w1 h1].
  destruct H1 as (Hrun & Hu & Hch & Hj & Ht & Hs & Hlim & Ho).
  simpl. unfold step. rewrite Hu, Ht. unfold on_deadline. rewrite Hch.
  unfold res_json, fire. simpl. rewrite Hs. simpl. unfold timed_out. simpl.
  rewrite Hlim, Ho. split; [ reflexivity | apply running_kill ].
Qed.

(** A python loop that prints once before the timer fires. *)
Lemma deadline_stops_interpreter_witness :
  let req := Request "while True: pass" (Some "python") "r1" None in
  running 0 (fst (run (execute sample_env true req empty_world)
                      ([ Stdout 0 "tick" ] ++ [ Deadline ])%list)) = false.
Proof.
  apply (deadline_stops_interpreter sample_env empty_world
           (Request "while True: pass" (Some "python") "r1" None)
           (Config "python3" [ "-c" ] 10000 false None None None) [ Stdout 0 "tick" ]).
  - reflexivity.
  - reflexivity.
  - discriminate.
  - intros c [H | []]. discriminate H.
  - intros [H | []]. discriminate H.
Defined.

(** No callback assigns the [child] variable of the route handler. *)
Lemma step_child s ev : child (snd (step s ev)) = child (snd s).
Proof.
  destruct s as [w h]. unfold step, on_deadline, on_data, on_close, compile_closed,
    run_closed, child_closed, callback, res_json, is_compiler, is_program.
  repeat match goal with
         | |- context [match ?x with _ => _ end] => destruct x; simpl
         end; reflexivity.
Qed.

Lemma run_child evs : forall s, child (snd (run s evs)) = child (snd s).
Proof.
  induction evs as [| ev evs IH]; intros s; [ reflexivity | ].
  change (run s (ev :: evs)) with (run (step s ev) evs). rewrite IH. apply step_child.
Qed.

(** On the compiled path the variable is unset when the handler returns,
    so it is unset whenever the timer fires: the timer signals no process
    of a compiled request, whatever the callbacks before it. *)
Lemma compiled_request_child_unset e req w config evs :
  lookup_config (detectedLanguage (filename req) (language req)) = Own config ->
  compile config = true ->
  child (snd (run (execute e true req w) evs)) = None.
Proof.
  intros Hl Hc. rewrite run_child. unfold execute. simpl. rewrite Hl, Hc.
  destruct (executeCompiledLanguage _ _ _ _) as [w1 [x | j]]; reflexivity.
Qed.

Lemma deadline_signals_nothing e req w config evs :
  lookup_config (detectedLanguage (filename req) (language req)) = Own config ->
  compile config = true ->
  let s := run (execute e true req w) evs in
  fst (step s Deadline) = fst s.
Proof.
  intros Hl Hc s. pose proof (compiled_request_child_unset e req w config evs Hl Hc) as H.
  fold s in H. destruct s as [w1 h1]. simpl in H. unfold step, on_deadline.
  destruct (uncaught h1); [ | reflexivity ].
  destruct (timeout_ h1); try reflexivity. rewrite H. reflexivity.
Qed.

(** C1, on the compiled path: the child variable of the route handler is
    never assigned there.  A C++ program is compiled, started, prints and
    keeps running; when the timer fires nothing is signalled, the program
    (process 1) is still running after the answer, and the answer carries
    only the notice, not the output read so far.  The same happens while
    the compiler (process 0) is still at work. *)
Theorem deadline_misses_compiled_program (e : env) (src rid data : string) :
  (let s' := run (execute e true (Request src (Some "cpp") rid None) empty_world)
                 [ Close 0 (Some 0); Stdout 1 data; Deadline ] in
   sent (snd s')
   = Some (Json (Result (nl +:+ "[Execution timed out after 15 seconds]") None true None))
   /\ (job (snd s') ≫= runProcess) = Some 1%nat
   /\ option_map runOutput (job (snd s')) = Some data
   /\ running 1 (fst s') = true
   /\ child (snd s') = None)
  /\ (let s' := run (execute e true (Request src (Some "cpp") rid None) empty_world)
                    [ Stderr 0 data; Deadline ] in
      sent (snd s')
      = Some (Json (Result (nl +:+ "[Execution timed out after 15 seconds]") None true None))
      /\ option_map compileProcess (job (snd s')) = Some 0%nat
      /\ running 0 (fst s') = true).
Proof. repeat split. Qed.

(** ** Temporary files *)

(** C2, for go, for a failed compilation and for a compiler that cannot
    be started: the file written for a go request is still on disk after the
    program has closed and the request was answered; so is the source file
    of a compiled request whose compiler failed, and the one of a rust
    request, whose catalog entry has no compiler command. *)
Theorem temporary_files_left_behind (e : env) (src rid : string) :
  (let s' := run (execute e true (Request src (Some "go") rid None) empty_world)
                 [ Close 0 (Some 0) ] in
   sent (snd s') = Some (Json (Result "" (Some (Some 0)) false (Some (VStr "go"))))
   /\ disk (fst s') !! ("temp_" +:+ dec (now e) +:+ ".go") = Some src)
  /\ (let s' := run (execute e true (Request src (Some "c") rid None) empty_world)
                    [ Close 0 (Some 1) ] in
      sent (snd s')
      = Some (Json (Result ("Compilation failed:" +:+ nl) (Some (Some 1)) true None))
      /\ disk (fst s') !! ("/tmp/temp" +:+ dec (now e) +:+ ".c") = Some src)
  /\ (let s' := execute e true (Request src (Some "rust") rid None) empty_world in
      sent (snd s') = Some (Json (execution_error e InvalidSpawnFile (VStr "rust")))
      /\ procs (fst s') = []
      /\ disk (fst s') !! ("/tmp/temp" +:+ dec (now e) +:+ ".rs") = Some src).
Proof.
  split; [ | split ].
  - split; [ reflexivity | ]. simpl. apply lookup_insert_eq.
  - split; [ reflexivity | ]. simpl. apply lookup_insert_eq.
  - split; [ reflexivity | ]. split; [ reflexivity | ]. simpl. apply lookup_insert_eq.
Qed.

(** ** Runs that complete *)

Lemma collecting_step room d pid lim out err s ev :
  collecting room d pid lim out err s ->
  (forall c, ev <> Close pid c) -> ev <> Deadline ->
  collecting room d pid lim (out +:+ stdout_of pid [ ev ]) (err +:+ stderr_of pid [ ev ])
             (step s ev).
Proof.
  destruct s as [w h].
  intros (Hrun & Hu & Hc & Hj & Ht & Hs & Hl & Ho & He & Hb & Hroom & Hd) Hclose Hdl.
  destruct h as [room' d' lim' ch o eo tm snt unc bs jb]. simpl in *. subst.
  unfold step. simpl.
  destruct ev as [p data | p data | p path content | p code |]; simpl.
  - destruct (open p w) eqn:Hp; simpl.
    + unfold on_data, is_child. simpl.
      destruct (Nat.eqb p pid) eqn:E.
      * apply Nat.eqb_eq in E. subst p. rewrite bool_decide_eq_true_2 by reflexivity.
        simpl. rewrite !string_app_nil_r. repeat split; assumption.
      * apply Nat.eqb_neq in E. rewrite bool_decide_eq_false_2 by congruence.
        simpl. rewrite !string_app_nil_r. repeat split; assumption.
    + destruct (Nat.eqb p pid) eqn:E.
      * apply Nat.eqb_eq in E. subst p. apply running_open in Hrun. congruence.
      * rewrite !string_app_nil_r. repeat split; assumption.
  - destruct (open p w) eqn:Hp; simpl.
    + unfold on_data, is_child. simpl.
      destruct (Nat.eqb p pid) eqn:E.
      * apply Nat.eqb_eq in E. subst p. rewrite bool_decide_eq_true_2 by reflexivity.
        simpl. rewrite !string_app_nil_r. repeat split; assumption.
      * apply Nat.eqb_neq in E. rewrite bool_decide_eq_false_2 by congruence.
        simpl. rewrite !string_app_nil_r. repeat split; assumption.
    + destruct (Nat.eqb p pid) eqn:E.
      * apply Nat.eqb_eq in E. subst p. apply running_open in Hrun. congruence.
      * rewrite !string_app_nil_r. repeat split; assumption.
  - rewrite !string_app_nil_r. destruct (open p w); simpl; repeat split; assumption.
  - rewrite !string_app_nil_r.
    assert (p <> pid) as Hne by (intros ->; apply (Hclose code); reflexivity).
    destruct (open p w) eqn:Hp; simpl.
    + unfold on_close, is_child. simpl.
      rewrite bool_decide_eq_false_2 by congruence. simpl.
      rewrite running_set_state_ne by exact Hne. repeat split; assumption.
    + repeat split; assumption.
  - contradiction.
Qed.

Lemma collecting_run room d pid lim evs : forall out err s,
  collecting room d pid lim out err s ->
  (forall c, ~ In (Close pid c) evs) -> ~ In Deadline evs ->
  collecting room d pid lim (out +:+ stdout_of pid evs) (err +:+ stderr_of pid evs) (run s evs).
Proof.
  induction evs as [| ev evs IH]; intros out err s Hs Hclose Hdl.
  - simpl. rewrite !string_app_nil_r. exact Hs.
  - change (run s (ev :: evs)) with (run (step s ev) evs).
    change (ev :: evs) with (List.app [ ev ] evs).
    rewrite stdout_of_app, stderr_of_app, <- !string_app_assoc. apply IH.
    + apply collecting_step; [ exact Hs | | ].
      * intros c ->. apply (Hclose c). left. reflexivity.
      * intros ->. apply Hdl. left. reflexivity.
    + intros c Hin. apply (Hclose c). right. exact Hin.
    + intros Hin. apply Hdl. right. exact Hin.
Qed.

(** Every request for an interpreted language, go included, starts one
    process and waits for it. *)
Lemma interpreted_started e req w config :
  let d := detectedLanguage (filename req) (language req) in
  lookup_config d = Own config ->
  compile config = false ->
  collecting (roomId req) d (length (procs (fst (execute e true req w))) - 1)
             (timeout config) "" "" (execute e true req w)
  /\ length (procs (fst (execute e true req w))) = S (length (procs w)).
Proof.
  intros d Hl Hc. unfold execute. simpl. fold d. rewrite Hl, Hc.
  destruct (String.eqb (to_string d) "go"); simpl; rewrite length_app; simpl;
    replace (length (procs w) + 1 - 1)%nat with (length (procs w)) by lia;
    (split; [ | lia ]); unfold running; simpl;
    rewrite lookup_app_r, Nat.sub_diag by lia; simpl; repeat split.
Qed.

(** X9: an interpreted request whose process closes before the timer
    fires is answered with the standard output read so far, followed by an
    error section when something was read from the standard error; the exit
    code is passed on, the error flag is set exactly when the code is not 0,
    the same output is broadcast to the room once, and the timer is
    cleared. *)
Theorem interpreted_run_completes (e : env) (w : world) (req : request) (config : config)
        (evs : list event) (code : option Z) :
  let d := detectedLanguage (filename req) (language req) in
  let pid := length (procs w) in
  let s' := run (execute e true req w) (evs ++ [ Close pid code ])%list in
  let out := finalOutput (stdout_of pid evs) (stderr_of pid evs) in
  lookup_config d = Own config ->
  compile config = false ->
  (forall c, ~ In (Close pid c) evs) -> ~ In Deadline evs ->
  sent (snd s') = Some (Json (Result out (Some code) (nonzero code) (Some d)))
  /\ broadcasts (snd s') = [ Broadcast (roomId req) out (Some code) d ]
  /\ timeout_ (snd s') = Cleared
  /\ uncaught (snd s') = [].
Proof.
  intros d pid s' out Hl Hc Hclose Hdl.
  destruct (interpreted_started e req w config Hl Hc) as [H0 Hlen].
  rewrite Hlen in H0. replace (S (length (procs w)) - 1)%nat with pid in H0 by (subst pid; lia).
  pose proof (collecting_run _ _ _ _ evs _ _ _ H0 Hclose Hdl) as H1.
  subst s' out. unfold run in *. rewrite fold_left_app.
  destruct (fold_left step evs (execute e true req w)) as [w1 h1].
  destruct H1 as (Hrun & Hu & Hch & Hj & Ht & Hs & Hlim & Ho & He & Hb & Hroom & Hd).
  simpl. unfold step. rewrite Hu, (running_open _ _ Hrun).
  unfold on_close, is_child. rewrite Hch, bool_decide_eq_true_2 by reflexivity.
  unfold child_closed, res_json, emit, clearTimeout. simpl.
  rewrite Hs, Ht, Hb, Ho, He, Hroom, Hd, Hu. simpl. repeat split.
Qed.

Lemma interpreted_run_completes_witness :
  let s' := run (execute sample_env true (Request "print(1/0)" (Some "python") "room" None)
                   empty_world)
                ([ Stdout 0 "start"; Stderr 0 "ZeroDivisionError" ] ++ [ Close 0 (Some 1) ])%list in
  sent (snd s')
  = Some (Json (Result (finalOutput "start" "ZeroDivisionError") (Some (Some 1)) true
                       (Some (VStr "python")))).
Proof.
  pose proof (interpreted_run_completes sample_env empty_world
                (Request "print(1/0)" (Some "python") "room" None)
                (Config "python3" [ "-c" ] 10000 false None None None)
                [ Stdout 0 "start"; Stderr 0 "ZeroDivisionError" ] (Some 1)
                eq_refl eq_refl) as H.
  destruct H as (Hsent & _).
  - intros c [H | [H | []]]; discriminate H.
  - intros [H | [H | []]]; discriminate H.
  - exact Hsent.
Defined.

(** Once a request is answered, no callback changes the answer. *)
Lemma step_sent s ev r : sent (snd s) = Some r -> sent (snd (step s ev)) = Some r.
Proof.
  destruct s as [w h]. destruct h as [room d lim ch o eo tm snt unc bs jb]. simpl.
  intros ->.
  unfold step, on_deadline, on_data, on_close, compile_closed, run_closed, child_closed,
    callback, res_json, is_child, is_compiler, is_program. simpl.
  repeat match goal with
         | |- context [match ?x with _ => _ end] => destruct x; simpl
         end; reflexivity.
Qed.

(** *** Compiled runs *)

Lemma step_job_files s ev : job_files (snd (step s ev)) = job_files (snd s).
Proof.
  destruct s as [w h]. destruct h as [room d lim ch o eo tm snt unc bs jb].
  unfold job_files, step, on_deadline, on_data, on_close, compile_closed, run_closed,
    child_closed, callback, res_json, is_child, is_compiler, is_program.
  destruct jb as [[lang ts src exe cp co ce rp ro re cb] |]; simpl;
    repeat match goal with
           | |- context [Nat.eqb ?a ?b] => destruct (Nat.eqb a b); simpl
           | |- context [bool_decide ?P] => destruct (bool_decide P); simpl
           | |- context [match ?x with _ => _ end] => destruct x; simpl
           end; reflexivity.
Qed.

Lemma run_job_files evs : forall s, job_files (snd (run s evs)) = job_files (snd s).
Proof.
  induction evs as [| ev evs IH]; intros s; [ reflexivity | ].
  change (run s (ev :: evs)) with (run (step s ev) evs). rewrite IH. apply step_job_files.
Qed.

Lemma step_run_buffers s ev :
  (job (snd s) ≫= runProcess) = None ->
  run_buffers (snd (step s ev)) = run_buffers (snd s).
Proof.
  destruct s as [w h]. destruct h as [room d lim ch o eo tm snt unc bs jb].
  assert (forall pid : nat, bool_decide (@None nat = Some pid) = false) as Hnp
    by (intros pid; apply bool_decide_eq_false_2; discriminate).
  unfold run_buffers, step, on_deadline, on_data, on_close, compile_closed, run_closed,
    child_closed, callback, res_json, is_child, is_compiler, is_program.
  destruct jb as [[lang ts src exe cp co ce rp ro re cb] |]; simpl; intros Hrp; subst;
    repeat match goal with
           | |- context [bool_decide (None = Some ?p)] => rewrite (Hnp p); simpl
           | |- context [Nat.eqb ?a ?b] => destruct (Nat.eqb a b); simpl
           | |- context [bool_decide ?P] => destruct (bool_decide P); simpl
           | |- context [match ?x with _ => _ end] => destruct x; simpl
           end; reflexivity.
Qed.

Lemma compiling_run_buffers room d cp rs evs : forall err s,
  compiling room d cp rs err s ->
  (forall c, ~ In (Close cp c) evs) ->
  run_buffers (snd (run s evs)) = run_buffers (snd s).
Proof.
  induction evs as [| ev evs IH]; intros err s Hs Hev; [ reflexivity | ].
  change (run s (ev :: evs)) with (run (step s ev) evs).
  destruct (compiling_step room d cp rs err s ev Hs) as [Hs1 _].
  { intros c ->. apply (Hev c). left. reflexivity. }
  rewrite (IH _ _ Hs1) by (intros c Hin; apply (Hev c); right; exact Hin).
  apply step_run_buffers. destruct s as [w h].
  destruct Hs as (_ & _ & _ & _ & _ & _ & _ & _ & j & Hj & _ & Hrun & _).
  simpl. rewrite Hj. exact Hrun.
Qed.

Lemma roles_length w : length (roles w) = length (procs w).
Proof. unfold roles. apply length_map. Qed.

Lemma open_lt pid w : open pid w = true -> (pid < length (procs w))%nat.
Proof.
  unfold open. destruct (procs w !! pid) eqn:E; [ | discriminate ].
  intros _. eapply lookup_lt_Some, E.
Qed.

(** The compiler closes with status 0 and the language is not java: the
    executable is started. *)
Lemma compile_succeeded room d cp rs err s lang src exe :
  compiling room d cp rs err s ->
  job_files (snd s) = Some (lang, src, Some exe, cp) ->
  run_buffers (snd s) = Some ("", "") ->
  lang <> "java" ->
  let s' := step s (Close cp (Some 0)) in
  executing room d cp (length rs) (rs ++ [ Program ])%list "" "" s'
  /\ (sent (snd s) = None -> sent (snd s') = None).
Proof.
  destruct s as [w h].
  intros (Hroom & Hd & Hr & Hopen & Hu & Hc & Hb & Ht & j & Hj & Hcp & Hrun & Herr & Hcb)
         Hfiles Hbuf Hlang.
  destruct h as [room' d' lim ch out eout tm snt unc bs jb]. simpl in *. subst.
  destruct j as [lang' ts src' exe' cp' co ce rp ro re cb]. simpl in *. subst.
  unfold job_files in Hfiles. simpl in Hfiles. injection Hfiles as -> -> ->.
  unfold run_buffers in Hbuf. simpl in Hbuf. injection Hbuf as -> ->.
  pose proof (open_lt _ _ Hopen) as Hlt.
  unfold step. simpl. rewrite Hopen.
  unfold on_close, is_child, is_compiler. simpl. rewrite Nat.eqb_refl.
  unfold compile_closed. simpl.
  destruct (String.eqb lang "java") eqn:E; [ apply String.eqb_eq in E; contradiction | ].
  simpl. split; [ | auto ].
  pose proof (roles_set_state cp' (Closed (Some 0)) w) as HA.
  pose proof (open_set_state_closed cp' (Some 0) w) as HC.
  unfold roles, open, set_state in HA, HC. simpl in HA, HC.
  unfold roles, open. simpl.
  set (A := alter (fun p => Process (cmd p) (argv p) (spawned_as p) (Closed (Some 0)))
                  cp' (procs w)) in *.
  assert (length A = length (procs w)) as HL by apply length_alter.
  rewrite map_app, HA, length_map, <- HL.
  rewrite lookup_app_r by lia. rewrite Nat.sub_diag.
  rewrite lookup_app_l by lia. rewrite HC. simpl.
  repeat split; eauto 12.
Qed.

Lemma executing_step room d cp rp rs out err s ev :
  executing room d cp rp rs out err s ->
  (forall c, ev <> Close rp c) ->
  executing room d cp rp rs (out +:+ stdout_of rp [ ev ]) (err +:+ stderr_of rp [ ev ])
            (step s ev)
  /\ (ev <> Deadline -> sent (snd s) = None -> sent (snd (step s ev)) = None).
Proof.
  destruct s as [w h].
  intros (Hroom & Hd & Hr & Hopen & Hclosed & Hu & Hc & Hb & Ht & j & Hj & Hcp & Hrun
          & Hout & Herr & Hcb) Hev.
  destruct h as [room' d' lim ch o eo tm snt unc bs jb]. simpl in *. subst.
  destruct j as [lang ts src exe cp' co ce rp' ro re cb]. simpl in *. subst.
  assert (forall p, open p w = true -> Nat.eqb p cp' = false) as Hncp.
  { intros p Hp. apply Nat.eqb_neq. intros ->. congruence. }
  unfold step. simpl.
  destruct ev as [p data | p data | p path content | p code |]; simpl.
  - destruct (open p w) eqn:Hp; simpl.
    + unfold on_data, is_child, is_compiler, is_program. simpl. rewrite (Hncp _ Hp).
      destruct (Nat.eqb p rp) eqn:E.
      * apply Nat.eqb_eq in E. subst p. rewrite bool_decide_eq_true_2 by reflexivity. simpl.
        rewrite !string_app_nil_r. split; [ | auto ]. repeat split; eauto 12.
      * apply Nat.eqb_neq in E. rewrite bool_decide_eq_false_2 by congruence. simpl.
        rewrite !string_app_nil_r. split; [ | auto ]. repeat split; eauto 12.
    + destruct (Nat.eqb p rp) eqn:E.
      * apply Nat.eqb_eq in E. subst p. congruence.
      * rewrite !string_app_nil_r. split; [ | auto ]. repeat split; eauto 12.
  - destruct (open p w) eqn:Hp; simpl.
    + unfold on_data, is_child, is_compiler, is_program. simpl. rewrite (Hncp _ Hp).
      destruct (Nat.eqb p rp) eqn:E.
      * apply Nat.eqb_eq in E. subst p. rewrite bool_decide_eq_true_2 by reflexivity. simpl.
        rewrite !string_app_nil_r. split; [ | auto ]. repeat split; eauto 12.
      * apply Nat.eqb_neq in E. rewrite bool_decide_eq_false_2 by congruence. simpl.
        rewrite !string_app_nil_r. split; [ | auto ]. repeat split; eauto 12.
    + destruct (Nat.eqb p rp) eqn:E.
      * apply Nat.eqb_eq in E. subst p. congruence.
      * rewrite !string_app_nil_r. split; [ | auto ]. repeat split; eauto 12.
  - rewrite !string_app_nil_r.
    destruct (open p w) eqn:Hp; simpl; (split; [ | auto ]); repeat split; eauto 12.
  - rewrite !string_app_nil_r.
    assert (p <> rp) as Hne by (intros ->; apply (Hev code); reflexivity).
    destruct (open p w) eqn:Hp; simpl.
    + pose proof (Hncp _ Hp) as Hpc. apply Nat.eqb_neq in Hpc as Hpc'.
      unfold on_close, is_child, is_compiler, is_program. simpl. rewrite Hpc.
      rewrite bool_decide_eq_false_2 by congruence. simpl. split; [ | auto ].
      rewrite roles_set_state, !open_set_state_ne by assumption. repeat split; eauto 12.
    + (split; [ | auto ]); repeat split; eauto 12.
  - rewrite !string_app_nil_r. split; [ | congruence ].
    destruct Ht as [[-> ->] | ->]; simpl; repeat split; eauto 12.
Qed.

Lemma executing_run room d cp rp rs evs : forall out err s,
  executing room d cp rp rs out err s ->
  (forall c, ~ In (Close rp c) evs) ->
  executing room d cp rp rs (out +:+ stdout_of rp evs) (err +:+ stderr_of rp evs) (run s evs)
  /\ (~ In Deadline evs -> sent (snd s) = None -> sent (snd (run s evs)) = None).
Proof.
  induction evs as [| ev evs IH]; intros out err s Hs Hev.
  - simpl. rewrite !string_app_nil_r. auto.
  - destruct (executing_step room d cp rp rs out err s ev Hs) as [Hs1 Hsent1].
    { intros c ->. apply (Hev c). left. reflexivity. }
    destruct (IH _ _ _ Hs1) as [Hs2 Hsent2].
    { intros c Hin. apply (Hev c). right. exact Hin. }
    change (run s (ev :: evs)) with (run (step s ev) evs).
    split.
    + change (ev :: evs) with (List.app [ ev ] evs).
      rewrite stdout_of_app, stderr_of_app, <- !string_app_assoc. exact Hs2.
    + intros Hd Hnone. apply Hsent2.
      * intros Hin. apply Hd. right. exact Hin.
      * apply Hsent1; [ | exact Hnone ]. intros ->. apply Hd. left. reflexivity.
Qed.

Lemma unlink_if_exists f w :
  let w' := if existsSync f w then unlinkSync f w else w in
  disk w' !! f = None /\ procs w' = procs w
  /\ (forall g, disk w !! g = None -> disk w' !! g = None).
Proof.
  simpl. destruct (existsSync f w) eqn:Ex.
  - simpl. split; [ apply lookup_delete_eq | ]. split; [ reflexivity | ].
    intros g Hg. rewrite lookup_delete. case_decide; [ reflexivity | exact Hg ].
  - unfold existsSync in Ex. apply bool_decide_eq_false in Ex.
    split; [ | auto ]. destruct (disk w !! f); [ exfalso; eauto | reflexivity ].
Qed.

Lemma existsSync_false f w : disk w !! f = None -> existsSync f w = false.
Proof.
  intros H. unfold existsSync. apply bool_decide_eq_false. rewrite H. intros [? [=]].
Qed.

Lemma cleanup_removes j w src exe :
  sourceFile j = Some src -> executableFile j = Some exe -> c_language j <> "java" ->
  existsSync src (cleanup j w) = false /\ existsSync exe (cleanup j w) = false
  /\ procs (cleanup j w) = procs w.
Proof.
  intros Hs He Hl. unfold cleanup. rewrite Hs, He.
  destruct (String.eqb (c_language j) "java") eqn:E; [ apply String.eqb_eq in E; contradiction | ].
  destruct (unlink_if_exists src w) as (H1 & P1 & _).
  set (w1 := if existsSync src w then unlinkSync src w else w) in *.
  destruct (unlink_if_exists exe w1) as (H2 & P2 & K2).
  set (w2 := if existsSync exe w1 then unlinkSync exe w1 else w1) in *.
  split; [ apply existsSync_false, K2, H1 | ].
  split; [ apply existsSync_false, H2 | ].
  rewrite P2. exact P1.
Qed.

Lemma run_finished room d cp rp rs out err s lang src exe status :
  executing room d cp rp rs out err s ->
  job_files (snd s) = Some (lang, Some src, Some exe, cp) ->
  lang <> "java" ->
  let r := Result (finalOutput out err) (Some status) (nonzero status) None in
  let s' := step s (Close rp status) in
  existsSync src (fst s') = false /\ existsSync exe (fst s') = false
  /\ roles (fst s') = rs
  /\ broadcasts (snd s') = [ Broadcast room (output r) (Some status) d ]
  /\ (sent (snd s) = None -> sent (snd s') = Some (Json r) /\ uncaught (snd s') = []).
Proof.
  destruct s as [w h].
  intros (Hroom & Hd & Hr & Hopen & Hclosed & Hu & Hc & Hb & Ht & j & Hj & Hcp & Hrun
          & Hout & Herr & Hcb) Hfiles Hlang.
  destruct h as [room' d' lim ch o eo tm snt unc bs jb]. simpl in *. subst.
  destruct j as [lang' ts src' exe' cp' co ce rp' ro re cb]. simpl in *. subst.
  unfold job_files in Hfiles. simpl in Hfiles. injection Hfiles as -> -> ->.
  assert (Nat.eqb rp cp' = false) as Hne by (apply Nat.eqb_neq; intros ->; congruence).
  unfold step. simpl. rewrite Hopen.
  unfold on_close, is_child, is_compiler, is_program. simpl. rewrite Hne.
  rewrite bool_decide_eq_true_2 by reflexivity.
  unfold run_closed.
  set (j := Compiled lang ts (Some src) (Some exe) cp' co ce (Some rp) ro re None).
  destruct (cleanup_removes j (set_state rp (Closed status) w) src exe eq_refl eq_refl Hlang)
    as (Hs & He & Hp).
  cbn [fst snd]. split; [ exact Hs | ]. split; [ exact He | ].
  split; [ unfold roles; rewrite Hp; apply roles_set_state | ].
  destruct Ht as [[-> ->] | ->]; simpl.
  - split; [ reflexivity | ]. intros _. split; reflexivity.
  - destruct snt; simpl; (split; [ reflexivity | ]); [ discriminate | ].
    intros _. split; reflexivity.
Qed.

(** X11 (POST /api/execute, executeCompiledLanguage): a C or C++ request whose
    compiler closes with status 0 and whose program then closes.  Whatever
    else the callbacks deliver, the result carries the program's standard
    output, followed by an error section when it wrote to its standard error,
    its exit status and the error flag of a nonzero status; it is broadcast
    to the room, it is the HTTP answer when the timer
    did not fire first, the request started the compiler and the program and
    nothing else, and neither the source file nor the executable is left on
    disk. *)
Theorem compiled_run_completes (e : env) (w : world) (req : request) (config : config)
        (cc src text exe : string) (evs1 evs2 : list event) (status : option Z) :
  let d := detectedLanguage (filename req) (language req) in
  let cp := length (procs w) in
  let rp := S cp in
  let r := Result (finalOutput (stdout_of rp evs2) (stderr_of rp evs2))
                  (Some status) (nonzero status) None in
  let s' := run (execute e true req w)
                (evs1 ++ Close cp (Some 0) :: evs2 ++ [ Close rp status ])%list in
  lookup_config d = Own config ->
  compile config = true ->
  compileCommand config = Some cc ->
  to_string d <> "java" ->
  source_files (to_string d) (code req) (now e) = (Some (src, text), Some exe) ->
  (forall c, ~ In (Close cp c) evs1) ->
  (forall c, ~ In (Close rp c) evs2) ->
  existsSync src (fst s') = false /\ existsSync exe (fst s') = false
  /\ roles (fst s') = (roles w ++ [ Compiler; Program ])%list
  /\ broadcasts (snd s') = [ Broadcast (roomId req) (output r) (Some status) d ]
  /\ (~ In Deadline evs1 -> ~ In Deadline evs2 ->
      sent (snd s') = Some (Json r) /\ uncaught (snd s') = []).
Proof.
  intros d cp rp r s' Hl Hc Hcc Hlang Hsrc Hfirst Hsecond.
  destruct (compile_started e req w config cc Hl Hc Hcc) as [H0 Hsent0].
  assert (job_files (snd (execute e true req w)) = Some (to_string d, Some src, Some exe, cp)
          /\ run_buffers (snd (execute e true req w)) = Some ("", "")) as [Hf0 Hb0].
  { unfold execute. simpl. fold d. rewrite Hl, Hc.
    unfold executeCompiledLanguage. rewrite Hsrc, lookup_config_to_string, Hl, Hcc.
    split; reflexivity. }
  destruct (compiling_run _ _ _ _ evs1 _ _ H0 Hfirst) as [H1 Hsent1].
  pose proof (compiling_run_buffers _ _ _ _ evs1 _ _ H0 Hfirst) as Hb1.
  pose proof (run_job_files evs1 (execute e true req w)) as Hf1.
  rewrite Hb0 in Hb1. rewrite Hf0 in Hf1.
  set (s1 := run (execute e true req w) evs1) in *.
  destruct (compile_succeeded _ _ _ _ _ _ _ _ _ H1 Hf1 Hb1 Hlang) as [H2 Hsent2].
  pose proof (step_job_files s1 (Close cp (Some 0))) as Hf2. rewrite Hf1 in Hf2.
  set (s2 := step s1 (Close cp (Some 0))) in *.
  assert (length (roles w ++ [ Compiler ])%list = rp) as Hrp
    by (rewrite length_app, roles_length; simpl; subst rp cp; lia).
  rewrite Hrp in H2.
  destruct (executing_run _ _ _ _ _ evs2 _ _ _ H2 Hsecond) as [H3 Hsent3].
  pose proof (run_job_files evs2 s2) as Hf3. rewrite Hf2 in Hf3.
  set (s3 := run s2 evs2) in *.
  pose proof (run_finished _ _ _ _ _ _ _ _ _ _ _ status H3 Hf3 Hlang)
    as (Hs & He & Hr & Hbc & Hsent4).
  assert (s' = step s3 (Close rp status)) as ->.
  { subst s' s3 s2 s1. unfold run. rewrite fold_left_app. simpl fold_left.
    rewrite fold_left_app. reflexivity. }
  rewrite <- app_assoc in Hr. simpl in Hr.
  split; [ exact Hs | ]. split; [ exact He | ]. split; [ exact Hr | ].
  split; [ exact Hbc | ].
  intros Hd1 Hd2. apply Hsent4, Hsent3, Hsent2, Hsent1; assumption.
Qed.

(** A C++ request whose program prints and fails. *)
Lemma compiled_run_completes_witness :
  let req := Request "int main(){}" (Some "cpp") "r1" None in
  let s' := run (execute sample_env true req empty_world)
                ([ Stderr 0 "warning" ] ++ Close 0 (Some 0)
                 :: [ Stdout 1 "hi"; Deadline ] ++ [ Close 1 (Some 1) ])%list in
  existsSync "/tmp/temp1700.cpp" (fst s') = false
  /\ existsSync "/tmp/temp1700" (fst s') = false
  /\ broadcasts (snd s') = [ Broadcast "r1" "hi" (Some (Some 1)) (VStr "cpp") ].
Proof.
  pose proof (compiled_run_completes sample_env empty_world
                (Request "int main(){}" (Some "cpp") "r1" None)
                (Config "./temp_program" [] 15000 true (Some "g++")
                        (Some [ "-o"; "temp_program" ]) None)
                "g++" "/tmp/temp1700.cpp" "int main(){}" "/tmp/temp1700"
                [ Stderr 0 "warning" ] [ Stdout 1 "hi"; Deadline ] (Some 1)
                eq_refl eq_refl eq_refl) as H.
  simpl in H.
  destruct H as (Hs & He & _ & Hb & _).
  - discriminate.
  - reflexivity.
  - intros c [H | []]. discriminate H.
  - intros c [H | [H | []]]; discriminate H.
  - split; [ exact Hs | ]. split; [ exact He | exact Hb ].
Defined.

(** *** A language without a compile command *)

Lemma step_idle w h ev :
  child h = None -> job h = None -> timeout_ h <> Armed ->
  snd (step (w, h) ev) = h /\ roles (fst (step (w, h) ev)) = roles w.
Proof.
  destruct h as [room d lim ch o eo tm snt unc bs jb]. simpl. intros -> -> Ht.
  unfold step. simpl. destruct unc; [ | auto ].
  destruct ev as [p data | p data | p path content | p code |]; simpl.
  - destruct (open p w); auto.
  - destruct (open p w); auto.
  - destruct (open p w); auto.
  - destruct (open p w); [ | auto ].
    unfold on_close, is_child, is_compiler, is_program. simpl.
    split; [ reflexivity | apply roles_set_state ].
  - destruct tm; [ contradiction | auto | auto ].
Qed.

Lemma run_idle evs : forall w h,
  child h = None -> job h = None -> timeout_ h <> Armed ->
  snd (run (w, h) evs) = h /\ roles (fst (run (w, h) evs)) = roles w.
Proof.
  induction evs as [| ev evs IH]; intros w h Hc Hj Ht; [ auto | ].
  change (run (w, h) (ev :: evs)) with (run (step (w, h) ev) evs).
  destruct (step_idle w h ev Hc Hj Ht) as [Hh Hr].
  destruct (step (w, h) ev) as [w1 h1]. simpl in Hh, Hr. subst h1.
  destruct (IH w1 h Hc Hj Ht) as [Hh' Hr']. rewrite Hh', Hr', Hr. auto.
Qed.

(** X12 (POST /api/execute, languageConfigs.rust): the rust entry has
    [compile: true] and no [compileCommand].  Every request that is detected
    as rust, by its language id or by a file name such as [main.rs], is
    answered at once with the converted spawn exception; the timer is
    cleared, nothing is broadcast, and no process is started then or by any
    later callback. *)
Theorem rust_request_starts_nothing (e : env) (w : world) (req : request)
        (evs : list event) :
  detectedLanguage (filename req) (language req) = VStr "rust" ->
  let s' := run (execute e true req w) evs in
  sent (snd s') = Some (Json (execution_error e InvalidSpawnFile (VStr "rust")))
  /\ roles (fst s') = roles w
  /\ broadcasts (snd s') = []
  /\ timeout_ (snd s') = Cleared
  /\ uncaught (snd s') = [].
Proof.
  intros Hd s'. subst s'. unfold execute. simpl. rewrite Hd.
  change (lookup_config (VStr "rust"))
    with (Own (Config "rustc" [ "--edition"; "2021"; "-o"; "temp_program" ] 20000
                      true None None (Some "./temp_program"))).
  cbn [compile]. unfold executeCompiledLanguage.
  change (to_string (VStr "rust")) with "rust".
  change (source_files "rust" (code req) (now e))
    with (Some (path_join tempDir ("temp" +:+ dec (now e) +:+ ".rs"), code req),
          Some (path_join tempDir ("temp" +:+ dec (now e)))).
  change (lookup_config (VStr "rust"))
    with (Own (Config "rustc" [ "--edition"; "2021"; "-o"; "temp_program" ] 20000
                      true None None (Some "./temp_program"))).
  cbn [compileCommand].
  match goal with
  | |- context [run (?w1, ?h1) evs] =>
      destruct (run_idle evs w1 h1) as [Hh Hr];
        [ reflexivity | reflexivity | discriminate | rewrite Hh, Hr ]
  end.
  repeat split.
Qed.

(** A request that names python and a rust file. *)
Lemma rust_request_starts_nothing_witness :
  let req := Request "fn main() {}" (Some "python") "r1" (Some "main.rs") in
  roles (fst (run (execute sample_env true req empty_world) [ Deadline ])) = [].
Proof.
  apply (rust_request_starts_nothing sample_env empty_world
           (Request "fn main() {}" (Some "python") "r1" (Some "main.rs")) [ Deadline ]).
  reflexivity.
Defined.

(** *** The class-name scan *)

Lemma string_app_String c a b : String c a +:+ b = String c (a +:+ b).
Proof. reflexivity. Qed.

Lemma substring_rest r : forall m, (String.length r <= m)%nat -> String.substring 0 m r = r.
Proof.
  induction r as [| c r IH]; intros m H; [ destruct m; reflexivity | ].
  destruct m as [| m]; simpl in *; [ lia | ]. rewrite IH by lia. reflexivity.
Qed.

Lemma substring_after p r : forall m,
  (String.length r <= m)%nat -> String.substring (String.length p) m (p +:+ r) = r.
Proof.
  induction p as [| c p IH]; intros m H; [ apply substring_rest, H | ].
  rewrite string_app_String. simpl. apply IH, H.
Qed.

Lemma length_string_app a b :
  String.length (a +:+ b) = (String.length a + String.length b)%nat.
Proof.
  induction a as [| c a IH]; [ reflexivity | ].
  rewrite string_app_String. simpl. rewrite IH. reflexivity.
Qed.

Lemma string_prefix_split p : forall s, String.prefix p s = true -> exists r, s = p +:+ r.
Proof.
  induction p as [| a p IH]; intros s H; [ exists s; reflexivity | ].
  destruct s as [| b s]; [ discriminate | ]. simpl in H.
  destruct (ascii_dec a b) as [<- |]; [ | discriminate ].
  destruct (IH s H) as [r ->]. exists r. reflexivity.
Qed.

Lemma string_prefix_app p r : String.prefix p (p +:+ r) = true.
Proof.
  induction p as [| a p IH]; [ destruct r; reflexivity | ].
  rewrite string_app_String. simpl. destruct (ascii_dec a a); [ exact IH | contradiction ].
Qed.

Lemma strip_prefix_app p r : strip_prefix p (p +:+ r) = Some r.
Proof.
  unfold strip_prefix. rewrite string_prefix_app, substring_after; [ reflexivity | ].
  rewrite length_string_app. lia.
Qed.

Lemma strip_prefix_Some p s r : strip_prefix p s = Some r -> s = p +:+ r.
Proof.
  unfold strip_prefix. destruct (String.prefix p s) eqn:E; [ | discriminate ].
  destruct (string_prefix_split p s E) as [r' ->]. rewrite substring_after.
  - intros [= <-]. reflexivity.
  - rewrite length_string_app. lia.
Qed.

(** A literal none of whose characters after the first is [c] cannot match
    across the end of a non-empty text that is followed by [c]. *)
Lemma strip_prefix_tail p c : 
  (forall k, (1 <= k)%nat -> String.get k p <> Some c) ->
  forall y, y <> "" ->
  (forall t, strip_prefix p (y +:+ String c t) = None)
  \/ (exists y1, forall t, strip_prefix p (y +:+ String c t) = Some (y1 +:+ String c t)).
Proof.
  intros Hp y Hy.
  destruct (String.prefix p y) eqn:E.
  - right. destruct (string_prefix_split p y E) as [y1 ->]. exists y1. intros t.
    rewrite string_app_assoc. apply strip_prefix_app.
  - left. intros t. unfold strip_prefix.
    enough (String.prefix p (y +:+ String c t) = false) as -> by reflexivity.
    revert y Hy E Hp. induction p as [| a p IH]; intros y Hy E Hp.
    + destruct y; discriminate.
    + destruct y as [| b y]; [ contradiction | ].
      rewrite string_app_String. simpl in *.
      destruct (ascii_dec a b); [ | reflexivity ].
      destruct y as [| b' y].
      * destruct p as [| a' p]; [ discriminate | ].
        change ("" +:+ String c t) with (String c t). simpl.
        destruct (ascii_dec a' c) as [-> |]; [ | reflexivity ].
        exfalso. apply (Hp 1%nat); [ lia | reflexivity ].
      * apply IH; [ discriminate | exact E | ].
        intros k Hk. apply (Hp (S k)). lia.
Qed.

Lemma space2_p c : space2 c "p" = false.
Proof. unfold space2. apply andb_false_r. Qed.

Lemma space3_p2 c1 c3 : space3 c1 "p" c3 = false.
Proof.
  unfold space3. change (nat_of_ascii "p") with 112%nat. cbn [Nat.eqb].
  rewrite !andb_false_r. reflexivity.
Qed.

Lemma space3_p3 c1 c2 : space3 c1 c2 "p" = false.
Proof.
  unfold space3. change (nat_of_ascii "p") with 112%nat.
  change (Nat.eqb 112 128) with false. change (Nat.eqb 112 159) with false.
  change (Nat.eqb 112 191) with false. change (Nat.eqb 112 168) with false.
  change (Nat.eqb 112 169) with false. change (Nat.eqb 112 175) with false.
  change (Nat.leb 128 112) with false.
  cbn [andb orb]. rewrite !andb_false_r. reflexivity.
Qed.

(** The white space at the start of a text that is followed by a [p] does
    not depend on what follows the [p]. *)
Lemma span_space_tail_bounded n : forall y, (String.length y <= n)%nat ->
  exists a b, forall t, span_space (y +:+ String "p" t) = (a, b +:+ String "p" t).
Proof.
  induction n as [| n IH]; intros y Hy.
  - destruct y; [ | simpl in Hy; lia ].
    exists "", "". intros t. change ("" +:+ String "p" t) with (String "p" t).
    cbn [span_space]. change (ascii_space "p") with false. cbv iota.
    destruct t as [| c2 [| c3 r3]]; rewrite ?space2_p, ?space3_p2; reflexivity.
  - destruct y as [| c1 y1].
    { apply (IH ""). simpl. lia. }
    simpl in Hy. destruct (ascii_space c1) eqn:E1.
    { destruct (IH y1) as (a & b & H); [ lia | ].
      exists (String c1 a), b. intros t. rewrite string_app_String. cbn [span_space].
      rewrite E1, H. reflexivity. }
    destruct y1 as [| c2 y2].
    { exists "", (String c1 ""). intros t.
      change (String c1 "" +:+ String "p" t) with (String c1 (String "p" t)).
      cbn [span_space]. rewrite E1, space2_p.
      destruct t as [| c3 r3]; rewrite ?space3_p2; reflexivity. }
    destruct (space2 c1 c2) eqn:E2.
    { destruct (IH y2) as (a & b & H); [ simpl in Hy; lia | ].
      exists (String c1 (String c2 a)), b. intros t. rewrite !string_app_String.
      cbn [span_space]. rewrite E1, E2, H. reflexivity. }
    destruct y2 as [| c3 y3].
    { exists "", (String c1 (String c2 "")). intros t.
      change (String c1 (String c2 "") +:+ String "p" t)
        with (String c1 (String c2 (String "p" t))).
      cbn [span_space]. rewrite E1, E2, space3_p3. reflexivity. }
    destruct (space3 c1 c2 c3) eqn:E3.
    { destruct (IH y3) as (a & b & H); [ simpl in Hy; lia | ].
      exists (String c1 (String c2 (String c3 a))), b. intros t. rewrite !string_app_String.
      cbn [span_space]. rewrite E1, E2, E3, H. reflexivity. }
    exists "", (String c1 (String c2 (String c3 y3))). intros t. rewrite !string_app_String.
    cbn [span_space]. rewrite E1, E2, E3. reflexivity.
Qed.

Lemma span_space_tail y :
  exists a b, forall t, span_space (y +:+ String "p" t) = (a, b +:+ String "p" t).
Proof. apply (span_space_tail_bounded (String.length y)). lia. Qed.

Lemma span_tail_taken f c : f c = true -> forall y,
  (forall t, fst (span f (y +:+ String c t)) <> "")
  \/ (forall t, fst (span f (y +:+ String c t)) = "").
Proof.
  intros Hc y. destruct y as [| x y].
  - left. intros t. change ("" +:+ String c t) with (String c t). simpl. rewrite Hc.
    destruct (span f t). discriminate.
  - destruct (f x) eqn:E.
    + left. intros t. rewrite string_app_String. simpl. rewrite E.
      destruct (span f _). discriminate.
    + right. intros t. rewrite string_app_String. simpl. rewrite E. reflexivity.
Qed.

Lemma span_app_eq f s : forall a b, span f s = (a, b) -> s = a +:+ b.
Proof.
  induction s as [| c s IH]; intros a b H; simpl in H.
  - injection H as <- <-. reflexivity.
  - destruct (f c).
    + destruct (span f s) as [a' b']. injection H as <- <-.
      rewrite string_app_String, <- (IH a' b' eq_refl). reflexivity.
    + injection H as <- <-. reflexivity.
Qed.

Lemma span_first f s a b c a' :
  span f s = (a, b) -> a = String c a' -> f c = true.
Proof.
  destruct s as [| x s]; simpl; [ intros [= <- <-]; discriminate | ].
  destruct (f x) eqn:E.
  - destruct (span f s). intros [= <- <-] [= <- <-]. exact E.
  - intros [= <- <-]. discriminate.
Qed.

Lemma word_is_ascii c : is_word c = true -> (nat_of_ascii c < 128)%nat.
Proof.
  destruct c as [[] [] [] [] [] [] [] []]; vm_compute; first [ discriminate | lia ].
Qed.

Lemma word_not_space c : is_word c = true -> ascii_space c = false.
Proof.
  destruct c as [[] [] [] [] [] [] [] []]; vm_compute; congruence.
Qed.

Lemma span_space_blank s :
  span_space (String " " s) = (String " " (fst (span_space s)), snd (span_space s)).
Proof.
  change (span_space (String " " s))
    with (let '(a, b) := span_space s in (String " " a, b)).
  destruct (span_space s). reflexivity.
Qed.

(** No white space starts with a word character. *)
Lemma span_space_word c s : is_word c = true -> span_space (String c s) = ("", String c s).
Proof.
  intros H. pose proof (word_is_ascii c H) as Hlt.
  cbn [span_space]. rewrite (word_not_space c H).
  assert (forall c2, space2 c c2 = false) as H2.
  { intros c2. unfold space2. destruct (Nat.eqb_spec (nat_of_ascii c) 194); [ lia | reflexivity ]. }
  assert (forall c2 c3, space3 c c2 c3 = false) as H3.
  { intros c2 c3. unfold space3. cbv zeta.
    destruct (Nat.eqb_spec (nat_of_ascii c) 225); [ lia | ].
    destruct (Nat.eqb_spec (nat_of_ascii c) 226); [ lia | ].
    destruct (Nat.eqb_spec (nat_of_ascii c) 227); [ lia | ].
    destruct (Nat.eqb_spec (nat_of_ascii c) 239); [ lia | ]. reflexivity. }
  destruct s as [| c2 [| c3 r3]]; rewrite ?H2, ?H3; reflexivity.
Qed.

(** An attempt that starts before a [p] and fails does not depend on what
    follows the [p]. *)
Lemma match_here_tail y r1 r2 :
  y <> "" ->
  match_here (y +:+ String "p" r1) = None ->
  match_here (y +:+ String "p" r2) = None.
Proof.
  intros Hy. unfold match_here.
  destruct (strip_prefix_tail "public" "p") with (y := y) as [Hn | [y1 Hs]].
  { intros k Hk.
    do 6 (destruct k as [| k]; [ simpl; first [ lia | discriminate ] | ]).
    destruct k; discriminate. }
  { exact Hy. }
  { rewrite !Hn. reflexivity. }
  rewrite !Hs.
  destruct (span_space_tail y1) as (a & b & Hsp). rewrite !Hsp.
  destruct (String.eqb a ""); [ reflexivity | ].
  destruct b as [| x b].
  { change ("" +:+ String "p" r1) with (String "p" r1).
    change ("" +:+ String "p" r2) with (String "p" r2). reflexivity. }
  destruct (strip_prefix_tail "class" "p") with (y := String x b) as [Hn | [b1 Hs2]].
  { intros k Hk.
    do 5 (destruct k as [| k]; [ simpl; first [ lia | discriminate ] | ]).
    destruct k; discriminate. }
  { discriminate. }
  { rewrite !Hn. reflexivity. }
  rewrite !Hs2.
  destruct (span_space_tail b1) as (a2 & b2 & Hsp2). rewrite !Hsp2.
  destruct (String.eqb a2 ""); [ reflexivity | ].
  destruct (span_tail_taken is_word "p" eq_refl b2) as [Hw | Hw].
  - pose proof (Hw r1) as H1.
    destruct (span is_word (b2 +:+ String "p" r1)) as [w r5]. simpl in H1.
    destruct (String.eqb w "") eqn:E; [ apply String.eqb_eq in E; contradiction | ].
    discriminate.
  - intros _. pose proof (Hw r2) as H2.
    destruct (span is_word (b2 +:+ String "p" r2)) as [w r5]. simpl in H2. subst w.
    reflexivity.
Qed.

Lemma match_public_class_eq s :
  match_public_class s
  = match match_here s with
    | Some (w, rest) => Some ("", w, rest)
    | None =>
        match s with
        | EmptyString => None
        | String c s' =>
            match match_public_class s' with
            | Some (b, w, r) => Some (String c b, w, r)
            | None => None
            end
        end
    end.
Proof. destruct s; reflexivity. Qed.

Lemma match_here_starts s w r : match_here s = Some (w, r) -> exists t, s = String "p" t.
Proof.
  unfold match_here. destruct (strip_prefix "public" s) as [r1 |] eqn:E; [ | discriminate ].
  intros _. apply strip_prefix_Some in E. subst s. eexists. reflexivity.
Qed.

Lemma match_public_class_starts s : forall b w r,
  match_public_class s = Some (b, w, r) -> exists t, s = b +:+ String "p" t.
Proof.
  induction s as [| c s IH]; intros b w r; rewrite match_public_class_eq.
  - change (match_here "") with (@None (string * string)). discriminate.
  - destruct (match_here (String c s)) as [[w' r'] |] eqn:E.
    + intros [= <- <- <-]. exact (match_here_starts _ _ _ E).
    + destruct (match_public_class s) as [[[b' w'] r'] |] eqn:E2; [ | discriminate ].
      intros [= <- <- <-]. destruct (IH _ _ _ eq_refl) as [t ->].
      exists t. reflexivity.
Qed.

(** Where the scan has matched, it matches the normalised declaration, with
    the same name and the same rest. *)
Lemma match_here_rewritten s w r :
  match_here s = Some (w, r) ->
  match_here ("public class " +:+ w +:+ r) = Some (w, r).
Proof.
  unfold match_here at 1.
  destruct (strip_prefix "public" s) as [r1 |]; [ | discriminate ].
  destruct (span_space r1) as [sp1 r2]. destruct (String.eqb sp1 ""); [ discriminate | ].
  destruct (strip_prefix "class" r2) as [r3 |]; [ | discriminate ].
  destruct (span_space r3) as [sp2 r4]. destruct (String.eqb sp2 ""); [ discriminate | ].
  destruct (span is_word r4) as [w' r5] eqn:Ew.
  destruct (String.eqb w' "") eqn:Enw; [ discriminate | ].
  intros [= -> ->].
  destruct w as [| c w0]; [ discriminate | ].
  pose proof (span_first _ _ _ _ _ _ Ew eq_refl) as Hc.
  pose proof (span_app_eq _ _ _ _ Ew) as Hr4.
  unfold match_here.
  change ("public class " +:+ String c w0 +:+ r)
    with ("public" +:+ String " " ("class" +:+ String " " (String c (w0 +:+ r)))).
  rewrite strip_prefix_app.
  assert (forall x, span_space (String " " (String "c" x)) = (" ", String "c" x)) as Hsp
    by (intros x; rewrite span_space_blank, (span_space_word "c" x eq_refl); reflexivity).
  change ("class" +:+ String " " (String c (w0 +:+ r)))
    with (String "c" ("lass" +:+ String " " (String c (w0 +:+ r)))).
  rewrite Hsp.
  change (String "c" ("lass" +:+ String " " (String c (w0 +:+ r))))
    with ("class" +:+ String " " (String c (w0 +:+ r))).
  change (String.eqb " " "") with false. cbv iota.
  rewrite strip_prefix_app.
  assert (span_space (String " " (String c (w0 +:+ r))) = (" ", String c (w0 +:+ r))) as ->.
  { rewrite span_space_blank, (span_space_word c (w0 +:+ r) Hc). reflexivity. }
  change (String.eqb " " "") with false. cbv iota.
  change (String c (w0 +:+ r)) with (String c w0 +:+ r). rewrite <- Hr4, Ew, Enw.
  reflexivity.
Qed.

(** The scan of the rewritten code finds what the scan of the submitted
    code found. *)
Lemma match_public_class_rewritten s : forall b w r,
  match_public_class s = Some (b, w, r) ->
  match_public_class (b +:+ "public class " +:+ w +:+ r) = Some (b, w, r).
Proof.
  induction s as [| c s IH]; intros b w r; rewrite match_public_class_eq.
  - change (match_here "") with (@None (string * string)). discriminate.
  - destruct (match_here (String c s)) as [[w' r'] |] eqn:E.
    + intros [= <- <- <-]. change ("" +:+ "public class " +:+ w' +:+ r')
        with ("public class " +:+ w' +:+ r').
      rewrite match_public_class_eq, (match_here_rewritten _ _ _ E). reflexivity.
    + destruct (match_public_class s) as [[[b' w'] r'] |] eqn:E2; [ | discriminate ].
      intros [= <- <- <-].
      destruct (match_public_class_starts _ _ _ _ E2) as [t ->].
      rewrite match_public_class_eq.
      change ("public class " +:+ w' +:+ r') with (String "p" ("ublic class " +:+ w' +:+ r')).
      rewrite (match_here_tail (String c b') t _ ltac:(discriminate) E).
      rewrite string_app_String.
      change (String "p" ("ublic class " +:+ w' +:+ r')) with ("public class " +:+ w' +:+ r').
      rewrite (IH _ _ _ eq_refl). reflexivity.
Qed.

Lemma step_job_stamp s ev : job_stamp (snd (step s ev)) = job_stamp (snd s).
Proof.
  destruct s as [w h]. destruct h as [room d lim ch o eo tm snt unc bs jb].
  unfold job_stamp, step, on_deadline, on_data, on_close, compile_closed, run_closed,
    child_closed, callback, res_json, is_child, is_compiler, is_program.
  destruct jb as [[lang ts src exe cp co ce rp ro re cb] |]; simpl;
    repeat match goal with
           | |- context [Nat.eqb ?a ?b] => destruct (Nat.eqb a b); simpl
           | |- context [bool_decide ?P] => destruct (bool_decide P); simpl
           | |- context [match ?x with _ => _ end] => destruct x; simpl
           end; reflexivity.
Qed.

Lemma run_job_stamp evs : forall s, job_stamp (snd (run s evs)) = job_stamp (snd s).
Proof.
  induction evs as [| ev evs IH]; intros s; [ reflexivity | ].
  change (run s (ev :: evs)) with (run (step s ev) evs). rewrite IH. apply step_job_stamp.
Qed.

(** While no program runs, a file changes only when a process writes it. *)
Lemma step_disk s ev f :
  (job (snd s) ≫= runProcess) = None ->
  (forall p text, ev <> Wrote p f text) ->
  disk (fst (step s ev)) !! f = disk (fst s) !! f.
Proof.
  destruct s as [w h]. destruct h as [room d lim ch o eo tm snt unc bs jb].
  assert (forall pid : nat, bool_decide (@None nat = Some pid) = false) as Hnp
    by (intros pid; apply bool_decide_eq_false_2; discriminate).
  intros Hrp Hev. destruct ev as [p data | p data | p path content | p code |].
  3: { unfold step. simpl. destruct unc; [ | reflexivity ].
       destruct (open p w); [ | reflexivity ]. simpl.
       apply lookup_insert_ne. intros ->. apply (Hev p content). reflexivity. }
  all: clear Hev; revert Hrp;
    unfold step, on_deadline, on_data, on_close, compile_closed, run_closed,
      child_closed, callback, res_json, is_child, is_compiler, is_program, kill, set_state, spawn;
    destruct jb as [[lang ts src exe cp co ce rp ro re cb] |]; simpl; intros Hrp; subst;
    repeat match goal with
           | |- context [bool_decide (None = Some ?p)] => rewrite (Hnp p); simpl
           | |- context [Nat.eqb ?a ?b] => destruct (Nat.eqb a b); simpl
           | |- context [bool_decide ?P] => destruct (bool_decide P); simpl
           | |- context [match ?x with _ => _ end] => destruct x; simpl
           end; reflexivity.
Qed.

Lemma compiling_run_disk room d cp rs f evs : forall err s,
  compiling room d cp rs err s ->
  (forall c, ~ In (Close cp c) evs) ->
  (forall p text, ~ In (Wrote p f text) evs) ->
  disk (fst (run s evs)) !! f = disk (fst s) !! f.
Proof.
  induction evs as [| ev evs IH]; intros err s Hs Hev Hw; [ reflexivity | ].
  change (run s (ev :: evs)) with (run (step s ev) evs).
  destruct (compiling_step room d cp rs err s ev Hs) as [Hs1 _].
  { intros c ->. apply (Hev c). left. reflexivity. }
  rewrite (IH _ _ Hs1);
    [ | intros c Hin; apply (Hev c); right; exact Hin
      | intros p text Hin; apply (Hw p text); right; exact Hin ].
  apply step_disk.
  - destruct s as [w h].
    destruct Hs as (_ & _ & _ & _ & _ & _ & _ & _ & j & Hj & _ & Hrun & _).
    simpl. rewrite Hj. exact Hrun.
  - intros p text ->. apply (Hw p text). left. reflexivity.
Qed.

(** The compiler of a java request closes with status 0: the class named
    in the source file is started. *)
Lemma compile_succeeded_java room d cp rs err s ts src exe text :
  compiling room d cp rs err s ->
  job_files (snd s) = Some ("java", Some src, exe, cp) ->
  job_stamp (snd s) = Some ts ->
  disk (fst s) !! src = Some text ->
  let className := match match_public_class text with
                   | Some (_, name, _) => name
                   | None => "TempClass" +:+ dec ts
                   end in
  procs (fst (step s (Close cp (Some 0)))) !! length rs
  = Some (Process "java" [ "-cp"; tempDir; className ] Program Alive).
Proof.
  destruct s as [w h].
  intros (Hroom & Hd & Hr & Hopen & Hu & Hc & Hb & Ht & j & Hj & Hcp & Hrun & Herr & Hcb)
         Hfiles Hstamp Hdisk.
  destruct h as [room' d' lim ch out eout tm snt unc bs jb]. simpl in *. subst.
  destruct j as [lang' ts' src' exe' cp' co ce rp ro re cb]. simpl in *. subst.
  unfold job_files in Hfiles. simpl in Hfiles. injection Hfiles as -> -> ->.
  unfold job_stamp in Hstamp. simpl in Hstamp. injection Hstamp as ->.
  unfold step. simpl. rewrite Hopen.
  unfold on_close, is_child, is_compiler. simpl. rewrite Nat.eqb_refl.
  unfold compile_closed. simpl. rewrite Hdisk. simpl.
  rewrite roles_length, <- (length_alter (fun p => Process (cmd p) (argv p) (spawned_as p)
                                                          (Closed (Some 0))) (procs w) cp').
  rewrite lookup_app_r by lia. rewrite Nat.sub_diag. reflexivity.
Qed.

(** X19 (executeCompiledLanguage, java): the class name is taken from the
    submitted code when the file is written and from the file when the
    compiler has finished; the two scans agree.  When the compiler of a java
    request closes with status 0 and no process has written the source file
    meanwhile, the program started is [java -cp /tmp C], where [C] is the
    class the submitted code declares, or [TempClass<timestamp>] when it
    declares none. *)
Theorem java_runs_declared_class (e : env) (w : world) (req : request) (evs : list event) :
  let cp := length (procs w) in
  let src := path_join tempDir ("TempClass" +:+ dec (now e) +:+ ".java") in
  let className := match match_public_class (code req) with
                   | Some (_, name, _) => name
                   | None => "TempClass" +:+ dec (now e)
                   end in
  let s' := run (execute e true req w) (evs ++ [ Close cp (Some 0) ])%list in
  detectedLanguage (filename req) (language req) = VStr "java" ->
  (forall c, ~ In (Close cp c) evs) ->
  (forall p text, ~ In (Wrote p src text) evs) ->
  procs (fst s') !! S cp
  = Some (Process "java" [ "-cp"; tempDir; className ] Program Alive).
Proof.
  intros cp src className s' Hd Hclose Hwrote.
  set (javaCode := match match_public_class (code req) with
                   | Some (before, name, after) => before +:+ "public class " +:+ name +:+ after
                   | None => code req
                   end).
  destruct (compile_started e req w
              (Config "java" [] 15000 true (Some "javac") None None) "javac") as [H0 _];
    [ rewrite Hd; reflexivity | reflexivity | reflexivity | ].
  rewrite Hd in H0.
  assert (job_files (snd (execute e true req w)) = Some ("java", Some src, None, cp)
          /\ job_stamp (snd (execute e true req w)) = Some (now e)
          /\ disk (fst (execute e true req w)) !! src = Some javaCode) as (Hf0 & Ht0 & Hd0).
  { unfold execute. simpl. rewrite Hd.
    change (lookup_config (VStr "java"))
      with (Own (Config "java" [] 15000 true (Some "javac") None None)).
    cbn [compile]. unfold executeCompiledLanguage.
    change (to_string (VStr "java")) with "java".
    change (source_files "java" (code req) (now e)) with (Some (src, javaCode), @None string).
    change (lookup_config (VStr "java"))
      with (Own (Config "java" [] 15000 true (Some "javac") None None)).
    cbn [compileCommand]. split; [ reflexivity | ]. split; [ reflexivity | ].
    simpl. apply lookup_insert_eq. }
  pose proof (compiling_run _ _ _ _ evs _ _ H0 Hclose) as [H1 _].
  pose proof (compiling_run_disk _ _ _ _ src evs _ _ H0 Hclose Hwrote) as Hd1.
  pose proof (run_job_files evs (execute e true req w)) as Hf1.
  pose proof (run_job_stamp evs (execute e true req w)) as Ht1.
  rewrite Hd0 in Hd1. rewrite Hf0 in Hf1. rewrite Ht0 in Ht1.
  pose proof (compile_succeeded_java _ _ _ _ _ _ _ _ _ _ H1 Hf1 Ht1 Hd1) as H2.
  subst s' cp. unfold run in *. rewrite fold_left_app. simpl fold_left.
  replace (S (length (procs w))) with (length (roles w ++ [ Compiler ])%list)
    by (rewrite length_app, roles_length; simpl; lia).
  rewrite H2. do 4 f_equal. subst javaCode className.
  destruct (match_public_class (code req)) as [[[before name] after] |] eqn:E.
  - rewrite (match_public_class_rewritten _ _ _ _ E). reflexivity.
  - rewrite E. reflexivity.
Qed.

(** A class declared with a no-break space and a line feed between the
    words. *)
Lemma java_runs_declared_class_witness :
  let req := Request ("// demo" +:+ nl +:+ "public" +:+ nbsp +:+ "class" +:+ nbsp +:+ nl
                      +:+ "Foo { }")
                     (Some "java") "r1" None in
  procs (fst (run (execute sample_env true req empty_world)
                  ([ Stderr 0 "note" ] ++ [ Close 0 (Some 0) ])%list)) !! 1%nat
  = Some (Process "java" [ "-cp"; tempDir; "Foo" ] Program Alive).
Proof.
  apply (java_runs_declared_class sample_env empty_world
           (Request ("// demo" +:+ nl +:+ "public" +:+ nbsp +:+ "class" +:+ nbsp +:+ nl
                     +:+ "Foo { }")
                    (Some "java") "r1" None) [ Stderr 0 "note" ]).
  - reflexivity.
  - intros c [H | []]. discriminate H.
  - intros p text [H | []]. discriminate H.
Defined.

(** ** The file tree *)

Import Tree.

Lemma walk_descend t parts o : walk t parts (Some o) = descend t parts o.
Proof.
  revert o. induction parts as [| part rest IH]; intros o; simpl; [ reflexivity | ].
  destruct (child t o part); [ apply IH | reflexivity ].
Qed.

Lemma descend_snoc t parts k o :
  descend t (parts ++ [ k ]) o = descend t parts o ≫= (fun cur => child t cur k).
Proof.
  revert o. induction parts as [| part rest IH]; intros o; simpl.
  - destruct (child t o k); reflexivity.
  - destruct (child t o part); [ apply IH | reflexivity ].
Qed.

Lemma pop_snoc {A : Type} (l : list A) x : pop (l ++ [ x ]) = (Some x, l).
Proof. unfold pop. rewrite last_snoc, removelast_last. reflexivity. Qed.

Lemma list_snoc_cases {A : Type} (l : list A) : l = [] \/ exists l' x, l = (l' ++ [ x ])%list.
Proof.
  destruct (last l) as [x |] eqn:E.
  - apply last_Some in E as [l' ->]. right. eauto.
  - apply last_None in E. left. exact E.
Qed.

Lemma child_children t o k o' : child t o k = Some o' -> exists c, children_of t o = Some c.
Proof. unfold child. destruct (children_of t o); [ eauto | discriminate ]. Qed.

(** A path that [getFileFromPath] does not resolve is not removed:
    [deleteFileAtPath] returns [false] and the tree is the same. *)
Lemma delete_unresolved t filePath r :
  root t = Some r ->
  getFileFromPath t filePath = None ->
  deleteFileAtPath t filePath = inr (false, t).
Proof.
  unfold getFileFromPath, deleteFileAtPath. intros -> H. simpl in H.
  rewrite walk_descend in H.
  destruct (list_snoc_cases (path_parts filePath)) as [E | (l & x & E)]; rewrite E in *.
  - discriminate H.
  - rewrite pop_snoc. rewrite descend_snoc in H.
    destruct (descend t l (ONode r)) as [cur |]; [ | reflexivity ].
    simpl in H. unfold key_of. simpl. rewrite H. reflexivity.
Qed.

Lemma node_eta n : Object_ (fields n) (children n) (proto n) = n.
Proof. destruct n. reflexivity. Qed.

Lemma delete_child_absent c k t :
  (forall n, nodes t !! c = Some n -> own n k = None) -> delete_child c k t = t.
Proof.
  intros H. unfold delete_child. destruct t as [rt ns nx]. simpl in *. f_equal.
  apply map_eq. intros i. rewrite lookup_alter.
  destruct (decide (c = i)) as [<- |]; [ | reflexivity ].
  destruct (ns !! c) as [n |] eqn:E; [ | reflexivity ].
  simpl. f_equal. specialize (H n eq_refl). unfold own in H.
  destruct (String.eqb k "children").
  - destruct n as [f [x |] p]; [ discriminate | reflexivity ].
  - rewrite delete_id by exact H. apply node_eta.
Qed.

(** Whatever it returns, [deleteFileAtPath] changes the tree only when the
    last segment names an own property of the object it reached. *)
Lemma delete_changes_own_entries_only t filePath b t' :
  deleteFileAtPath t filePath = inr (b, t') ->
  t' = t
  \/ exists cur c k n, children_of t cur = Some c /\ nodes t !! c = Some n
                       /\ is_Some (own n k) /\ t' = delete_child c k t.
Proof.
  unfold deleteFileAtPath. destruct (pop _) as [fileName parts].
  destruct (root t) as [r |]; [ | discriminate ].
  destruct (descend t parts (ONode r)) as [cur |]; [ | intros [= _ <-]; left; reflexivity ].
  destruct (child t cur (key_of fileName)); [ | intros [= _ <-]; left; reflexivity ].
  destruct (children_of t cur) as [c |] eqn:Hc; [ | intros [= _ <-]; left; reflexivity ].
  intros [= _ <-].
  destruct (nodes t !! c) as [n |] eqn:Hn.
  - destruct (own n (key_of fileName)) as [v |] eqn:Ho.
    + right. exists cur, c, (key_of fileName), n. eauto.
    + left. apply delete_child_absent. intros n' H'. congruence.
  - left. apply delete_child_absent. intros n' H'. congruence.
Qed.

(** X1: for a path other than the root, [deleteFileAtPath] returns [true]
    exactly when [getFileFromPath] resolves the path; it goes through the
    same lookups. *)
Theorem delete_succeeds_iff_resolves (t : files) (filePath : string) (b : bool) (t' : files) :
  path_parts filePath <> [] ->
  deleteFileAtPath t filePath = inr (b, t') ->
  (b = true <-> is_Some (getFileFromPath t filePath)).
Proof.
  unfold getFileFromPath, deleteFileAtPath. intros Hne.
  destruct (list_snoc_cases (path_parts filePath)) as [E | (l & x & E)]; [ contradiction | ].
  rewrite E, pop_snoc. destruct (root t) as [r |]; [ | discriminate ].
  simpl. rewrite walk_descend, descend_snoc.
  destruct (descend t l (ONode r)) as [cur |]; simpl.
  - unfold key_of. simpl. destruct (child t cur x) as [o |] eqn:Hc.
    + destruct (child_children _ _ _ _ Hc) as [c ->]. intros [= <- _]. split; eauto.
    + intros [= <- _]. split; [ discriminate | intros [? [=]] ].
  - intros [= <- _]. split; [ discriminate | intros [? [=]] ].
Qed.

Lemma delete_succeeds_iff_resolves_witness :
  (true = true <-> is_Some (getFileFromPath seeded "/main.js"))
  /\ (false = true <-> is_Some (getFileFromPath seeded "/missing/main.js")).
Proof.
  split.
  - apply (delete_succeeds_iff_resolves seeded "/main.js" true
             (delete_child 1 "main.js" seeded)).
    + discriminate.
    + vm_compute. reflexivity.
  - apply (delete_succeeds_iff_resolves seeded "/missing/main.js" false seeded).
    + discriminate.
    + vm_compute. reflexivity.
Defined.

(** C8, at the path [/constructor] of a fresh tree: nothing is stored
    there (the root has the two seeded entries only), yet the lookup finds
    the member every object inherits and [deleteFileAtPath] returns [true],
    the first time and every time; the tree is left as it was. *)
Theorem delete_inherited_name_returns_true :
  root_entries seeded = Some {[ "main.js"; "example.py" ]}
  /\ getFileFromPath seeded "/constructor" = Some (OBuiltin "constructor")
  /\ deleteFileAtPath seeded "/constructor" = inr (true, seeded)
  /\ delete_twice seeded "/constructor" = Some (true, true, seeded).
Proof.
  assert (deleteFileAtPath seeded "/constructor" = inr (true, seeded)) as H
    by (vm_compute; reflexivity).
  split; [ vm_compute; reflexivity | ]. split; [ vm_compute; reflexivity | ].
  split; [ exact H | ]. unfold delete_twice. rewrite H, H. reflexivity.
Qed.

(** *** The root *)

Import Rooms.

Lemma lookup_from_own f : forall t r k v,
  lookup_from f t r k = Some v -> exists r' n, nodes t !! r' = Some n /\ own n k = Some v.
Proof.
  induction f as [| f IH]; intros t r k v; simpl; [ discriminate | ].
  destruct (nodes t !! r) as [n |] eqn:E; [ | discriminate ].
  destruct (own n k) as [v' |] eqn:Eo.
  - intros [= <-]. eauto.
  - destruct (proto n); [ apply IH | discriminate ].
Qed.

Lemma own_ref n k x :
  own n k = Some (ONode x) -> children n = Some x \/ fields n !! k = Some (ONode x).
Proof.
  unfold own. destruct (String.eqb k "children"); [ | auto ].
  destruct (children n); simpl; [ intros [= ->]; auto | discriminate ].
Qed.

(** A reference that a lookup returns is stored in the tree, as a property
    or as a prototype. *)
Lemma get_ref t r k x :
  get t r k = Some (ONode x) ->
  exists r' n, nodes t !! r' = Some n
               /\ (children n = Some x \/ proto n = Some x
                   \/ exists k', fields n !! k' = Some (ONode x)).
Proof.
  unfold get. destruct (lookup_from _ t r k) as [v |] eqn:E.
  - intros [= ->]. apply lookup_from_own in E as (r' & n & Hn & Ho).
    exists r', n. split; [ exact Hn | ]. apply own_ref in Ho as [H | H]; eauto.
  - unfold from_Object_prototype. destruct (String.eqb k "__proto__").
    + unfold proto_value. destruct (nodes t !! r) as [n |] eqn:Hn; simpl; [ | discriminate ].
      destruct (proto n) as [p |] eqn:Hp; [ | discriminate ].
      intros [= ->]. eauto 6.
    + destruct (is_inherited k); discriminate.
Qed.

Lemma get_unreferenced x t r k : unreferenced x t -> get t r k <> Some (ONode x).
Proof.
  intros Hx H. apply get_ref in H as (r' & n & Hn & H).
  destruct (Hx r' n Hn) as (H1 & H2 & H3).
  destruct H as [H | [H | [k' H]]]; [ contradiction | contradiction | exact (H3 k' H) ].
Qed.

Lemma children_of_unreferenced x t o c :
  unreferenced x t -> children_of t o = Some c -> c <> x.
Proof.
  intros Hx. unfold children_of. destruct o as [r | | |]; try discriminate.
  destruct (get t r "children") as [[c' | | |] |] eqn:E; try discriminate.
  intros [= ->] ->. exact (get_unreferenced _ _ _ _ Hx E).
Qed.

Lemma child_unreferenced x t o k : unreferenced x t -> child t o k <> Some (ONode x).
Proof.
  intros Hx. unfold child. destruct (children_of t o) as [c |]; [ | discriminate ].
  destruct (falsy (get t c k)); [ discriminate | ]. apply get_unreferenced, Hx.
Qed.

Lemma walk_unreferenced x t parts : forall cur,
  unreferenced x t -> walk t parts cur = Some (ONode x) -> parts = [] /\ cur = Some (ONode x).
Proof.
  induction parts as [| part rest IH]; intros cur Hx; simpl; [ auto | ].
  destruct cur as [o |]; [ | discriminate ].
  destruct (child t o part) as [o' |] eqn:E; [ | discriminate ].
  intros H. destruct (IH _ Hx H) as [_ [= ->]]. exfalso. exact (child_unreferenced _ _ _ _ Hx E).
Qed.

(** Every property of an object literal made by [Node] holds a string or a
    date. *)
Lemma put_plain key v m x :
  (forall k, m !! k <> Some (ONode x)) -> (v <> Some (ONode x)) ->
  forall k, put key v m !! k <> Some (ONode x).
Proof.
  intros Hm Hv k. unfold put. destruct v as [y |]; [ | apply Hm ].
  destruct (decide (key = k)) as [<- |].
  - rewrite lookup_insert_eq. congruence.
  - rewrite lookup_insert_ne by assumption. apply Hm.
Qed.

Lemma Node_plain nm p ty c d ch x k : fields (Node nm p ty c d ch) !! k <> Some (ONode x).
Proof.
  unfold Node. cbn [fields]. revert k.
  repeat (apply put_plain; [ | destruct_all (option string); destruct_all (option nat);
                               simpl; discriminate ]).
  intros k. destruct (decide ("name" = k)) as [<- |].
  - rewrite lookup_insert_eq. discriminate.
  - rewrite lookup_insert_ne by assumption. rewrite lookup_empty. discriminate.
Qed.

Lemma index_props_plain s k v : index_props s !! k = Some v -> exists u, v = OStr u.
Proof.
  unfold index_props. intros H. apply elem_of_list_to_map_2 in H.
  apply elem_of_lookup_imap in H as (i & u & [= _ ->] & _). eauto.
Qed.

Lemma unreferenced_alloc_node x n t :
  unreferenced x t ->
  children n <> Some x -> proto n <> Some x -> (forall k, fields n !! k <> Some (ONode x)) ->
  unreferenced x (snd (alloc_node n t)).
Proof.
  intros Hx H1 H2 H3 r m. unfold alloc_node. simpl.
  destruct (decide (next t = r)) as [<- |].
  - rewrite lookup_insert_eq. intros [= <-]. auto.
  - rewrite lookup_insert_ne by assumption. apply Hx.
Qed.

Lemma unreferenced_put_child x c k r t :
  unreferenced x t -> r <> x -> unreferenced x (put_child c k r t).
Proof.
  intros Hx Hr r' m. unfold put_child. simpl. rewrite lookup_alter.
  destruct (decide (c = r')) as [<- |]; [ | apply Hx ].
  destruct (nodes t !! c) as [n |] eqn:Hn; simpl; [ | discriminate ].
  destruct (Hx c n Hn) as (H1 & H2 & H3). intros [= <-].
  destruct (String.eqb k "children"); simpl.
  - split; [ congruence | auto ].
  - split; [ exact H1 | split; [ exact H2 | ] ]. intros k'.
    destruct (decide (k = k')) as [<- |].
    + rewrite lookup_insert_eq. congruence.
    + rewrite lookup_insert_ne by assumption. apply H3.
Qed.

Lemma unreferenced_set_proto x c r t :
  unreferenced x t -> r <> x -> unreferenced x (set_proto c r t).
Proof.
  intros Hx Hr r' m. unfold set_proto. simpl. rewrite lookup_alter.
  destruct (decide (c = r')) as [<- |]; [ | apply Hx ].
  destruct (nodes t !! c) as [n |] eqn:Hn; simpl; [ | discriminate ].
  destruct (Hx c n Hn) as (H1 & H2 & H3). intros [= <-]. simpl.
  split; [ exact H1 | split; [ congruence | exact H3 ] ].
Qed.

Lemma unreferenced_set_child x c k r t :
  unreferenced x t -> r <> x -> unreferenced x (fst (set_child c k r t)).
Proof.
  intros Hx Hr. unfold set_child.
  destruct (lookup_from _ t c k); [ apply unreferenced_put_child; assumption | ].
  destruct (String.eqb k "__proto__"); [ | apply unreferenced_put_child; assumption ].
  destruct (bool_decide _); [ exact Hx | ].
  destruct (reaches _ t r c); [ exact Hx | apply unreferenced_set_proto; assumption ].
Qed.

Lemma unreferenced_delete_child x c k t :
  unreferenced x t -> unreferenced x (delete_child c k t).
Proof.
  intros Hx r' m. unfold delete_child. simpl. rewrite lookup_alter.
  destruct (decide (c = r')) as [<- |]; [ | apply Hx ].
  destruct (nodes t !! c) as [n |] eqn:Hn; simpl; [ | discriminate ].
  destruct (Hx c n Hn) as (H1 & H2 & H3). intros [= <-].
  destruct (String.eqb k "children"); simpl.
  - split; [ discriminate | auto ].
  - split; [ exact H1 | split; [ exact H2 | ] ]. intros k' H.
    apply lookup_delete_Some in H as [_ H]. exact (H3 k' H).
Qed.

Lemma unreferenced_set_content x r text t :
  unreferenced x t -> unreferenced x (set_content r text t).
Proof.
  intros Hx r' m. unfold set_content. simpl. rewrite lookup_alter.
  destruct (decide (r = r')) as [<- |]; [ | apply Hx ].
  destruct (nodes t !! r) as [n |] eqn:Hn; simpl; [ | discriminate ].
  destruct (Hx r n Hn) as (H1 & H2 & H3). intros [= <-]. simpl.
  split; [ exact H1 | split; [ exact H2 | ] ]. intros k'.
  destruct (decide ("content" = k')) as [<- |].
  - rewrite lookup_insert_eq. discriminate.
  - rewrite lookup_insert_ne by assumption. apply H3.
Qed.

Lemma rooted_seeded : rooted seeded.
Proof.
  unfold rooted. split; [ reflexivity | ].
  split; [ eexists; split; [ vm_compute; reflexivity | reflexivity ] | ].
  split; [ simpl; lia | ].
  intros r n H. unfold seeded in H. cbn [nodes] in H.
  destruct (decide (r = 0%nat)) as [-> |].
  { rewrite lookup_insert_eq in H. injection H as <-.
    split; [ discriminate | split; [ discriminate | apply Node_plain ] ]. }
  rewrite lookup_insert_ne in H by congruence.
  destruct (decide (r = 1%nat)) as [-> |].
  { rewrite lookup_insert_eq in H. injection H as <-.
    split; [ discriminate | split; [ discriminate | ] ].
    intros k. cbn [fields].
    destruct (decide (k = "main.js")) as [-> |];
      [ rewrite lookup_insert_eq; discriminate | rewrite lookup_insert_ne by congruence ].
    destruct (decide (k = "example.py")) as [-> |];
      [ rewrite lookup_insert_eq; discriminate | rewrite lookup_insert_ne by congruence ].
    rewrite lookup_empty. discriminate. }
  rewrite lookup_insert_ne in H by congruence.
  destruct (decide (r = 2%nat)) as [-> |].
  { rewrite lookup_insert_eq in H. injection H as <-.
    split; [ discriminate | split; [ discriminate | apply Node_plain ] ]. }
  rewrite lookup_insert_ne in H by congruence.
  destruct (decide (r = 3%nat)) as [-> |].
  { rewrite lookup_insert_eq in H. injection H as <-.
    split; [ discriminate | split; [ discriminate | apply Node_plain ] ]. }
  rewrite lookup_insert_ne, lookup_empty in H by congruence. discriminate H.
Qed.

Lemma rooted_alloc_node n t :
  rooted t ->
  children n <> Some 0%nat -> proto n <> Some 0%nat ->
  (forall k, fields n !! k <> Some (ONode 0)) ->
  rooted (snd (alloc_node n t)).
Proof.
  intros (Hr & (m & Hm & Ht) & Hn & Hx) H1 H2 H3. unfold rooted.
  split; [ exact Hr | ]. split; [ | split ].
  - exists m. unfold alloc_node. simpl. rewrite lookup_insert_ne by lia. auto.
  - simpl. lia.
  - apply unreferenced_alloc_node; assumption.
Qed.

Lemma rooted_alloc_kids t : rooted t -> rooted (snd (alloc_kids t)).
Proof.
  intros H. apply rooted_alloc_node; [ exact H | discriminate | discriminate | ].
  intros k. cbn [fields]. rewrite lookup_empty. discriminate.
Qed.

(** A change to an object other than the root, which stores no reference
    to the root, leaves the tree rooted. *)
Lemma rooted_alter f c t :
  rooted t -> c <> 0%nat ->
  unreferenced 0 (Files (root t) (alter f c (nodes t)) (next t)) ->
  rooted (Files (root t) (alter f c (nodes t)) (next t)).
Proof.
  intros (Hr & (m & Hm & Ht) & Hn & _) Hc Hx. unfold rooted. simpl.
  split; [ exact Hr | ]. split; [ | split; [ exact Hn | exact Hx ] ].
  exists m. rewrite lookup_alter_ne by assumption. auto.
Qed.

Lemma rooted_put_child c k r t :
  rooted t -> c <> 0%nat -> r <> 0%nat -> rooted (put_child c k r t).
Proof.
  intros Ht Hc Hr. apply rooted_alter; [ exact Ht | exact Hc | ].
  apply (unreferenced_put_child 0 c k r t); [ apply Ht | exact Hr ].
Qed.

Lemma rooted_set_child c k r t :
  rooted t -> c <> 0%nat -> r <> 0%nat -> rooted (fst (set_child c k r t)).
Proof.
  intros Ht Hc Hr. unfold set_child.
  destruct (lookup_from _ t c k); [ apply rooted_put_child; assumption | ].
  destruct (String.eqb k "__proto__"); [ | apply rooted_put_child; assumption ].
  destruct (bool_decide _); [ exact Ht | ].
  destruct (reaches _ t r c); [ exact Ht | ].
  apply rooted_alter; [ exact Ht | exact Hc | ].
  apply (unreferenced_set_proto 0 c r t); [ apply Ht | exact Hr ].
Qed.

Lemma rooted_delete_child c k t : rooted t -> c <> 0%nat -> rooted (delete_child c k t).
Proof.
  intros Ht Hc. apply rooted_alter; [ exact Ht | exact Hc | ].
  apply (unreferenced_delete_child 0 c k t), Ht.
Qed.

Lemma rooted_set_content r text t : rooted t -> r <> 0%nat -> rooted (set_content r text t).
Proof.
  intros Ht Hc. apply rooted_alter; [ exact Ht | exact Hc | ].
  apply (unreferenced_set_content 0 r text t), Ht.
Qed.

Lemma rooted_add_directory c part t :
  rooted t -> c <> 0%nat -> rooted (fst (add_directory c part t)).
Proof.
  intros Ht Hc. unfold add_directory.
  destruct (alloc_kids t) as [k t1] eqn:E1.
  destruct (alloc_node _ t1) as [d t2] eqn:E2.
  assert (rooted t1) as Ht1 by (replace t1 with (snd (alloc_kids t)) by (rewrite E1; reflexivity);
                                apply rooted_alloc_kids, Ht).
  assert (k = next t) as -> by (injection E1 as <- _; reflexivity).
  assert (d = next t1) as -> by (injection E2 as <- _; reflexivity).
  assert (rooted t2) as Ht2.
  { replace t2 with (snd (alloc_node (Node part None (Some "directory") None None
                                            (Some (next t))) t1))
      by (rewrite E2; reflexivity).
    apply rooted_alloc_node; [ exact Ht1 | | discriminate | apply Node_plain ].
    destruct Ht as (_ & _ & Hn & _). simpl. intros [= H]. lia. }
  apply rooted_set_child; [ exact Ht2 | exact Hc | ].
  destruct Ht1 as (_ & _ & Hn & _). lia.
Qed.

Lemma bind_children_of_unreferenced x t cur c :
  unreferenced x t -> cur ≫= children_of t = Some c -> c <> x.
Proof.
  intros Hx. destruct cur as [o |]; [ | discriminate ]. apply children_of_unreferenced, Hx.
Qed.

Lemma rooted_descend_creating parts : forall t cur,
  rooted t -> rooted (fst (descend_creating t parts cur)).
Proof.
  induction parts as [| part rest IH]; intros t cur Ht; simpl; [ exact Ht | ].
  destruct (cur ≫= children_of t) as [c |] eqn:Hc; [ | exact Ht ].
  assert (c <> 0%nat) as Hc0 by (eapply bind_children_of_unreferenced; [ apply Ht | exact Hc ]).
  assert (rooted (fst (if falsy (get t c part) then add_directory c part t else (t, None))))
    as Ht1 by (destruct (falsy _); [ apply rooted_add_directory; assumption | exact Ht ]).
  destruct (if falsy (get t c part) then add_directory c part t else (t, None))
    as [t1 [x |]]; simpl in Ht1; [ exact Ht1 | ].
  destruct (cur ≫= children_of t1) as [c' |]; [ | exact Ht1 ].
  apply IH, Ht1.
Qed.

Lemma rooted_setFileAtPath t filePath fileData :
  rooted t -> fileData <> 0%nat -> rooted (fst (setFileAtPath t filePath fileData)).
Proof.
  intros Ht Hf. unfold setFileAtPath. destruct (pop _) as [fileName parts].
  pose proof (rooted_descend_creating parts t (ONode <$> root t) Ht) as H1.
  destruct (descend_creating t parts _) as [t1 [x | cur]]; simpl in H1; [ exact H1 | ].
  destruct (cur ≫= children_of t1) as [c |] eqn:Hc; [ | exact H1 ].
  apply rooted_set_child; [ exact H1 | | exact Hf ].
  eapply bind_children_of_unreferenced; [ apply H1 | exact Hc ].
Qed.

Lemma rooted_deleteFileAtPath t filePath b t' :
  rooted t -> deleteFileAtPath t filePath = inr (b, t') -> rooted t'.
Proof.
  intros Ht H.
  apply delete_changes_own_entries_only in H as [-> | (cur & c & k & n & Hc & _ & _ & ->)].
  - exact Ht.
  - apply rooted_delete_child; [ exact Ht | ].
    eapply children_of_unreferenced; [ apply Ht | exact Hc ].
Qed.

(** [file.type === 'file'] is false of the root. *)
Lemma is_file_not_root t o r : rooted t -> is_file t o = Some r -> r <> 0%nat.
Proof.
  intros (_ & (n & Hn & Hty) & _ & _). unfold is_file.
  destruct o as [[r' | | |] |]; try discriminate.
  destruct (get t r' "type") as [[| | s |] |] eqn:E; try discriminate.
  destruct (String.eqb s "file") eqn:Es; [ | discriminate ].
  apply String.eqb_eq in Es. subst s. intros [= ->] ->.
  unfold get in E. cbn [lookup_from] in E. rewrite Hn in E.
  unfold type, text_of in Hty. unfold own in E. cbn in E.
  destruct (fields n !! "type") as [[| | s |] |]; try discriminate.
  injection Hty as ->. discriminate E.
Qed.

Lemma spread_plain x t file newName newPath :
  unreferenced x t ->
  children (spread t file newName newPath) <> Some x
  /\ proto (spread t file newName newPath) <> Some x
  /\ forall k, fields (spread t file newName newPath) !! k <> Some (ONode x).
Proof.
  intros Hx.
  assert (forall (m : gmap string obj) k, (forall k', m !! k' <> Some (ONode x)) ->
            <["path" := OStr newPath]> (<["name" := OStr newName]> m) !! k <> Some (ONode x))
    as Hnamed.
  { intros m k Hm.
    destruct (decide ("path" = k)) as [<- |];
      [ rewrite lookup_insert_eq; discriminate | rewrite lookup_insert_ne by assumption ].
    destruct (decide ("name" = k)) as [<- |];
      [ rewrite lookup_insert_eq; discriminate | rewrite lookup_insert_ne by assumption ].
    apply Hm. }
  assert (forall k' : string, (∅ : gmap string obj) !! k' <> Some (ONode x)) as Hempty
    by (intros k'; rewrite lookup_empty; discriminate).
  unfold spread. destruct file as [r' | nm | s | d]; cbn [children proto fields].
  - destruct (nodes t !! r') as [n' |] eqn:Hn'; cbn [children proto fields].
    + destruct (Hx r' n' Hn') as (H1 & H2 & H3).
      split; [ exact H1 | split; [ discriminate | ] ]. intros k. apply Hnamed, H3.
    + split; [ discriminate | split; [ discriminate | ] ]. intros k. apply Hnamed, Hempty.
  - split; [ discriminate | split; [ discriminate | ] ]. intros k. apply Hnamed, Hempty.
  - split; [ discriminate | split; [ discriminate | ] ]. intros k. apply Hnamed.
    intros k' H. apply index_props_plain in H as [u [=]].
  - split; [ discriminate | split; [ discriminate | ] ]. intros k. apply Hnamed, Hempty.
Qed.

Lemma rooms_rooted_set_files rid t s :
  rooms_rooted s -> (is_Some (rooms s !! rid) -> rooted t) -> rooms_rooted (set_files rid t s).
Proof.
  intros Hs Ht rid' Hin. unfold set_files in *. cbn [rooms roomFiles] in *.
  destruct (decide (rid = rid')) as [<- |].
  - rewrite lookup_insert_eq. eauto.
  - rewrite lookup_insert_ne by assumption. apply Hs, Hin.
Qed.

Lemma rooms_rooted_throw x s : rooms_rooted s -> rooms_rooted (Rooms.throw x s).
Proof. intros H. exact H. Qed.

Lemma rooms_rooted_emit d ev s : rooms_rooted s -> rooms_rooted (Rooms.emit d ev s).
Proof. intros H. exact H. Qed.

Lemma rooms_rooted_files_or_new rid s t s1 :
  rooms_rooted s -> files_or_new rid s = (t, s1) ->
  rooms_rooted s1 /\ rooms s1 = rooms s /\ (is_Some (rooms s !! rid) -> rooted t).
Proof.
  intros Hs. unfold files_or_new. destruct (roomFiles s !! rid) as [t0 |] eqn:E.
  - intros [= <- <-]. split; [ exact Hs | split; [ reflexivity | ] ].
    intros Hin. destruct (Hs rid Hin) as (t1 & H1 & Hr). congruence.
  - intros [= <- <-]. assert (is_Some (rooms s !! rid) -> rooted no_files) as Hno.
    { intros Hin. destruct (Hs rid Hin) as (t1 & H1 & _). congruence. }
    split; [ apply rooms_rooted_set_files; assumption | split; [ reflexivity | exact Hno ] ].
Qed.

Lemma rooted_fileData filePath text ty now t :
  rooted t ->
  rooted (snd (fileData filePath text ty now t)) /\ fst (fileData filePath text ty now t) <> 0%nat.
Proof.
  intros Hr. unfold fileData. destruct (String.eqb ty "directory").
  - unfold alloc_kids at 1. cbn [alloc_node fst snd].
    split; [ | destruct Hr as (_ & _ & Hn & _); cbn; lia ].
    apply (rooted_alloc_node _ (snd (alloc_kids t)));
      [ apply rooted_alloc_kids, Hr | | discriminate | apply Node_plain ].
    destruct Hr as (_ & _ & Hn & _). simpl. intros [= H]. lia.
  - split; [ | destruct Hr as (_ & _ & Hn & _); cbn; lia ].
    apply rooted_alloc_node; [ exact Hr | discriminate | discriminate | apply Node_plain ].
Qed.

Lemma handle_rooms_rooted s i : rooms_rooted s -> rooms_rooted (handle s i).
Proof.
  intros Hs. unfold handle. destruct (Rooms.uncaught s); [ | exact Hs ].
  destruct i as [uuid now | sid | sid rid userName now | sid filePath text rid | sid rid
                | sid filePath text ty rid now | sid filePath rid | sid oldPath newPath rid | sid];
    try (destruct (bool_decide _); [ | exact Hs ]).
  - (* create room *)
    intros rid Hin. unfold createRoom in *. cbn [snd rooms roomFiles] in *.
    destruct (decide (String.substring 0 8 uuid = rid)) as [<- |].
    + rewrite lookup_insert_eq. exists seeded. split; [ reflexivity | apply rooted_seeded ].
    + rewrite lookup_insert_ne in Hin by assumption.
      rewrite lookup_insert_ne by assumption. apply Hs, Hin.
  - exact Hs.
  - (* join *)
    unfold join_room. destruct (rooms s !! rid) as [r |] eqn:E; [ | exact Hs ].
    intros rid' Hin. unfold Rooms.emit in *. cbn [rooms roomFiles] in *. apply Hs.
    destruct (decide (rid = rid')) as [<- |].
    + rewrite E. eauto.
    + rewrite lookup_insert_ne in Hin by assumption. exact Hin.
  - (* code change *)
    unfold code_change. destruct (files_or_new rid s) as [t s1] eqn:E.
    destruct (rooms_rooted_files_or_new _ _ _ _ Hs E) as (Hs1 & Hrooms & Ht).
    destruct (is_file t _) as [r |] eqn:Hf; [ | exact Hs1 ].
    apply rooms_rooted_emit, (rooms_rooted_set_files rid _ s1 Hs1). rewrite Hrooms.
    intros Hin. apply rooted_set_content; [ apply Ht, Hin | ].
    eapply is_file_not_root; [ apply Ht, Hin | exact Hf ].
  - exact Hs.
  - (* create file *)
    unfold create_file. destruct (files_or_new rid s) as [t s1] eqn:E.
    destruct (rooms_rooted_files_or_new _ _ _ _ Hs E) as (Hs1 & Hrooms & Ht).
    assert (is_Some (rooms s !! rid) ->
            rooted (snd (fileData filePath (default "" text) (default "file" ty) now t))
            /\ fst (fileData filePath (default "" text) (default "file" ty) now t) <> 0%nat)
      as Ht2 by (intros Hin; apply rooted_fileData, Ht, Hin).
    destruct (fileData _ _ _ now t) as [fd t2]. simpl in Ht2.
    assert (is_Some (rooms s !! rid) -> rooted (fst (setFileAtPath t2 filePath fd))) as Ht3
      by (intros Hin; destruct (Ht2 Hin); apply rooted_setFileAtPath; assumption).
    destruct (setFileAtPath t2 filePath fd) as [t3 [x |]]; simpl in Ht3.
    + apply rooms_rooted_throw, (rooms_rooted_set_files rid t3 s1 Hs1). rewrite Hrooms. exact Ht3.
    + apply rooms_rooted_emit, (rooms_rooted_set_files rid t3 s1 Hs1). rewrite Hrooms. exact Ht3.
  - (* delete file *)
    unfold delete_file. destruct (roomFiles s !! rid) as [t |] eqn:E; [ | exact Hs ].
    destruct (deleteFileAtPath t filePath) as [x | [b t1]] eqn:E1; [ exact Hs | ].
    apply rooms_rooted_emit, (rooms_rooted_set_files rid t1 s Hs).
    intros Hin. destruct (Hs rid Hin) as (t0 & H0 & Hr).
    eapply rooted_deleteFileAtPath; [ | exact E1 ]. congruence.
  - (* rename file *)
    unfold rename_file. destruct (roomFiles s !! rid) as [t |] eqn:E; [ | exact Hs ].
    destruct (getFileFromPath t oldPath) as [file |]; [ | exact Hs ].
    assert (is_Some (rooms s !! rid) -> rooted t) as Ht.
    { intros Hin. destruct (Hs rid Hin) as (t0 & H0 & Hr). congruence. }
    destruct (alloc_node _ t) as [fd t1] eqn:E1.
    assert (is_Some (rooms s !! rid) -> rooted t1 /\ fd <> 0%nat) as Ht1.
    { intros Hin. pose proof (Ht Hin) as Hr.
      destruct (spread_plain 0 t file (List.last (split "/" newPath) "") newPath)
        as (H1 & H2 & H3); [ apply Hr | ].
      split.
      - replace t1 with (snd (alloc_node (spread t file (List.last (split "/" newPath) "") newPath) t))
          by (rewrite E1; reflexivity).
        apply rooted_alloc_node; assumption.
      - injection E1 as <- _. destruct Hr as (_ & _ & Hn & _). lia. }
    destruct (deleteFileAtPath t1 oldPath) as [x | [b t2]] eqn:E2.
    { apply rooms_rooted_throw, (rooms_rooted_set_files rid t1 s Hs). apply Ht1. }
    assert (is_Some (rooms s !! rid) -> rooted (fst (setFileAtPath t2 newPath fd))) as Ht3.
    { intros Hin. destruct (Ht1 Hin). apply rooted_setFileAtPath; [ | assumption ].
      eapply rooted_deleteFileAtPath; [ | exact E2 ]. assumption. }
    destruct (setFileAtPath t2 newPath fd) as [t3 [x |]]; simpl in Ht3.
    + apply rooms_rooted_throw, (rooms_rooted_set_files rid t3 s Hs). exact Ht3.
    + apply rooms_rooted_emit, (rooms_rooted_set_files rid t3 s Hs). exact Ht3.
  - (* disconnect *)
    unfold disconnect. destruct (sockets s !! sid) as [sock |]; [ | exact Hs ].
    destruct (truthy (socket_roomId sock)); [ | exact Hs ].
    destruct (socket_roomId sock) as [rid |]; [ | exact Hs ].
    destruct (rooms s !! rid) as [r |] eqn:E; [ | exact Hs ].
    destruct (others sid (users r)); intros rid' Hin; unfold Rooms.emit in *;
      cbn [rooms roomFiles] in *.
    + destruct (decide (rid = rid')) as [<- |].
      * rewrite lookup_delete_eq in Hin. destruct Hin as [? [=]].
      * rewrite lookup_delete_ne in Hin by assumption.
        rewrite lookup_delete_ne by assumption. apply Hs, Hin.
    + apply Hs. destruct (decide (rid = rid')) as [<- |].
      * rewrite E. eauto.
      * rewrite lookup_insert_ne in Hin by assumption. exact Hin.
Qed.

Lemma handle_all_rooms_rooted inputs : forall s,
  rooms_rooted s -> rooms_rooted (handle_all s inputs).
Proof.
  induction inputs as [| i rest IH]; intros s Hs; [ exact Hs | ].
  apply IH, handle_rooms_rooted, Hs.
Qed.

Lemma rooms_rooted_initial : rooms_rooted initial.
Proof. intros rid [r Hr]. unfold initial in Hr. cbn in Hr. rewrite lookup_empty in Hr. discriminate. Qed.

(** X14 (socket handlers, setFileAtPath, deleteFileAtPath): whatever the
    clients send, every room of the registry keeps the root node it was
    created with, and that node is a directory: no create, edit, delete or
    rename, of the root path included, removes or replaces it. *)
Lemma root_always_directory inputs rid :
  let s := handle_all initial inputs in
  is_Some (rooms s !! rid) ->
  exists t n, roomFiles s !! rid = Some t
              /\ getFileFromPath t "/" = Some (ONode 0)
              /\ nodes t !! 0%nat = Some n /\ type n = Some "directory".
Proof.
  intros s Hin.
  pose proof (handle_all_rooms_rooted inputs initial rooms_rooted_initial) as Hs.
  destruct (Hs rid Hin) as (t & Ht & Hroot & (n & Hn & Hty) & _).
  exists t, n. repeat split; try assumption.
  unfold getFileFromPath. rewrite Hroot. reflexivity.
Qed.

(** A room after a delete and a rename of its root path. *)
Lemma root_always_directory_witness :
  let s := handle_all initial
             [ CreateRoom "3f9a1c2e-7b1d-4c55-9e0a-5d2f8a6b4c01" 5; Connect "s";
               DeleteFile "s" "/" "3f9a1c2e"; RenameFile "s" "/" "/x" "3f9a1c2e" ] in
  exists t n, roomFiles s !! "3f9a1c2e" = Some t
              /\ getFileFromPath t "/" = Some (ONode 0)
              /\ nodes t !! 0%nat = Some n /\ type n = Some "directory".
Proof.
  apply (root_always_directory
           [ CreateRoom "3f9a1c2e-7b1d-4c55-9e0a-5d2f8a6b4c01" 5; Connect "s";
             DeleteFile "s" "/" "3f9a1c2e"; RenameFile "s" "/" "/x" "3f9a1c2e" ] "3f9a1c2e").
  vm_compute. eexists. reflexivity.
Defined.

(** Applied to the root path, [deleteFileAtPath] looks for an entry named
    ["undefined"] in the root; when there is none, it returns [false] and
    changes nothing. *)
Lemma delete_root_without_undefined t r :
  root t = Some r ->
  child t (ONode r) "undefined" = None ->
  deleteFileAtPath t "/" = inr (false, t).
Proof.
  intros Hr Hc. unfold deleteFileAtPath.
  change (pop (path_parts "/")) with (@None string, @nil string).
  rewrite Hr. simpl. unfold key_of. simpl. rewrite Hc. reflexivity.
Qed.

(** A rename of the root path leaves a copy of the root below the root;
    the copy shares the children object of the root, so the tree has become
    a cycle: [/x] contains [/x/x], and so on. *)
Lemma rename_root_shares_children :
  let rid := "3f9a1c2e" in
  let s := handle_all initial
             [ CreateRoom "3f9a1c2e-7b1d-4c55-9e0a-5d2f8a6b4c01" 5; Connect "s";
               JoinRoom "s" rid "al" 6; RenameFile "s" "/" "/x" rid ] in
  Rooms.uncaught s = []
  /\ resolves "/" rid s = Some (Some (ONode 0))
  /\ resolves "/x" rid s = Some (Some (ONode 4))
  /\ resolves "/x/x/x/x" rid s = Some (Some (ONode 4))
  /\ resolves "/x/x/x/main.js" rid s = Some (Some (ONode 2)).
Proof. vm_compute. repeat split. Qed.

(** C6, after a file named [undefined] was created in the root: a delete
    of the root path returns [true] and removes that file, where the claim
    has [false] and an unchanged tree.  (The root node itself stays.) *)
Theorem delete_root_removes_undefined_entry :
  let rid := "3f9a1c2e" in
  let s := handle_all initial
             [ CreateRoom "3f9a1c2e-7b1d-4c55-9e0a-5d2f8a6b4c01" 5; Connect "s";
               JoinRoom "s" rid "al" 6; CreateFile "s" "/undefined" None None rid 7 ] in
  let s' := handle s (DeleteFile "s" "/" rid) in
  listing_of 4 rid s
  = Some [ ("/main.js", Some "file"); ("/undefined", Some "file"); ("/example.py", Some "file") ]
  /\ delete_returns "/" rid s = Some true
  /\ listing_of 4 rid s' = Some [ ("/main.js", Some "file"); ("/example.py", Some "file") ]
  /\ resolves "/" rid s' = Some (Some (ONode 0))
  /\ Rooms.uncaught s' = [].
Proof. vm_compute. repeat split. Qed.

(** ** Rooms *)

(** C9: [createRoom] stores, under the new room id, a tree whose root is a
    directory with exactly two entries, the files [/main.js] and
    [/example.py], and registers the room with an empty roster. *)
Theorem create_room_seeds_two_files (uuid : string) (now : nat) (s : server) :
  let rid := fst (createRoom uuid now s) in
  let s' := snd (createRoom uuid now s) in
  rid = String.substring 0 8 uuid
  /\ getRoom rid s' = Some (Room rid [] now)
  /\ roomFiles s' !! rid = Some seeded
  /\ getFileFromPath seeded "/" = Some (ONode 0)
  /\ (nodes seeded !! 0%nat ≫= type) = Some "directory"
  /\ (forall fuel, listing (S (S fuel)) seeded "" 0
                   = [ ("/main.js", Some "file"); ("/example.py", Some "file") ])
  /\ root_entries seeded = Some {[ "main.js"; "example.py" ]}
  /\ (exists text, getFileFromPath seeded "/main.js" = Some (ONode 2)
                   /\ nodes seeded !! 2%nat
                      = Some (Node "main.js" (Some "/main.js") (Some "file") (Some text) None None))
  /\ (exists text, getFileFromPath seeded "/example.py" = Some (ONode 3)
                   /\ nodes seeded !! 3%nat
                      = Some (Node "example.py" (Some "/example.py") (Some "file") (Some text)
                                   None None)).
Proof.
  cbn zeta. unfold createRoom, getRoom. cbn [fst snd rooms roomFiles].
  split; [ reflexivity | ]. split; [ apply lookup_insert_eq | ].
  split; [ apply lookup_insert_eq | ].
  split; [ vm_compute; reflexivity | ]. split; [ vm_compute; reflexivity | ].
  split; [ intros fuel; vm_compute; reflexivity | ].
  split.
  - vm_compute. reflexivity.
  - split; eexists; (split; [ vm_compute; reflexivity | vm_compute; reflexivity ]).
Qed.

Lemma others_all_gone sid us : (forall u, In u us -> id u = sid) -> others sid us = [].
Proof.
  induction us as [| u us IH]; intros H; [ reflexivity | ].
  unfold others in *. simpl. rewrite (H u) by (left; reflexivity).
  rewrite String.eqb_refl. simpl. apply IH. intros v Hv. apply H. right. exact Hv.
Qed.

(** When a socket whose [socket.roomId] is [rid] disconnects and the roster
    of [rid] holds nobody else, the room and its tree are removed in the same
    step, and [getRoom] no longer finds the room. *)
Lemma disconnect_empties_current_room (s : server) (sid rid : string) (sock : socket)
      (r : room) :
  sockets s !! sid = Some sock ->
  socket_roomId sock = Some rid ->
  rid <> "" ->
  rooms s !! rid = Some r ->
  (forall u, In u (users r) -> id u = sid) ->
  let s' := disconnect sid s in
  rooms s' !! rid = None /\ roomFiles s' !! rid = None /\ getRoom rid s' = None.
Proof.
  intros Hsock Hroom Hne Hr Hall. unfold disconnect, getRoom.
  rewrite Hsock, Hroom, (truthy_some _ Hne), Hr, (others_all_gone _ _ Hall).
  cbn [rooms roomFiles Rooms.emit]. rewrite !lookup_delete_eq. auto.
Qed.

(** C7, for a socket that joined room [3f9a1c2e] and then room [77aa12bc]:
    it is the only member of the first room; it disconnects, and the first
    room stays, with the roster entry of the socket and with its tree, and
    [getRoom] still finds it.  The handler looks at [socket.roomId] only,
    which the second [join-room] has overwritten. *)
Theorem disconnect_after_rejoin_leaves_room :
  let a := "3f9a1c2e" in
  let b := "77aa12bc" in
  let s := handle_all initial
             [ CreateRoom "3f9a1c2e-7b1d-4c55-9e0a-5d2f8a6b4c01" 5;
               CreateRoom "77aa12bc-7b1d-4c55-9e0a-5d2f8a6b4c01" 6; Connect "s";
               JoinRoom "s" a "al" 7; JoinRoom "s" b "al" 8 ] in
  let s' := handle s (Disconnect "s") in
  getRoom a s = Some (Room a [ User "s" "al" 7 ] 5)
  /\ sockets s' !! "s" = None
  /\ getRoom a s' = Some (Room a [ User "s" "al" 7 ] 5)
  /\ roomFiles s' !! a = Some seeded
  /\ getRoom b s' = None.
Proof. vm_compute. repeat split. Qed.

(** *** The roster *)

Lemma others_app sid us vs : others sid (us ++ vs) = (others sid us ++ others sid vs)%list.
Proof. unfold others. apply Stdlib.Lists.List.filter_app. Qed.

Lemma others_none sid us : (forall u, In u us -> id u <> sid) -> others sid us = us.
Proof.
  induction us as [| u us IH]; intros H; [ reflexivity | ].
  unfold others in *. simpl.
  destruct (String.eqb (id u) sid) eqn:E.
  - apply String.eqb_eq in E. exfalso. apply (H u); [ left; reflexivity | exact E ].
  - simpl. f_equal. apply IH. intros v Hv. apply H. right. exact Hv.
Qed.

Lemma others_excludes sid us u : In u (others sid us) -> In u us /\ id u <> sid.
Proof.
  unfold others. rewrite Stdlib.Lists.List.filter_In. intros [Hin Hb]. split; [ exact Hin | ].
  intros Heq. rewrite Heq, String.eqb_refl in Hb. discriminate.
Qed.

(** X7: when a socket disconnects from a room in which somebody else is
    left, the room stays, its roster loses exactly the entries of that
    socket, and no tree is touched. *)
Theorem disconnect_keeps_shared_room (s : server) (sid rid : string) (sock : socket)
        (r : room) (other : user) :
  sockets s !! sid = Some sock ->
  socket_roomId sock = Some rid ->
  rid <> "" ->
  rooms s !! rid = Some r ->
  In other (users r) -> id other <> sid ->
  let s' := disconnect sid s in
  getRoom rid s' = Some (Room (room_id r) (others sid (users r)) (room_createdAt r))
  /\ (forall u, In u (others sid (users r)) <-> In u (users r) /\ id u <> sid)
  /\ roomFiles s' = roomFiles s
  /\ sockets s' !! sid = None.
Proof.
  intros Hsock Hroom Hne Hr Hin Hid. unfold disconnect, getRoom.
  rewrite Hsock, Hroom, (truthy_some _ Hne), Hr.
  destruct (others sid (users r)) as [| u us] eqn:E.
  - exfalso. assert (In other (others sid (users r))) as H.
    { unfold others. apply Stdlib.Lists.List.filter_In. split; [ exact Hin | ].
      destruct (String.eqb (id other) sid) eqn:Eb; [ | reflexivity ].
      apply String.eqb_eq in Eb. contradiction. }
    rewrite E in H. destruct H.
  - unfold Rooms.emit. cbn [rooms roomFiles sockets].
    split; [ apply lookup_insert_eq | ]. split; [ | split; [ reflexivity | apply lookup_delete_eq ] ].
    intros v. rewrite <- E. unfold others. rewrite Stdlib.Lists.List.filter_In. split.
    + intros [Hv Hb]. split; [ exact Hv | ]. intros Heq.
      rewrite Heq, String.eqb_refl in Hb. discriminate.
    + intros [Hv Hvid]. split; [ exact Hv | ].
      destruct (String.eqb (id v) sid) eqn:Eb; [ | reflexivity ].
      apply String.eqb_eq in Eb. contradiction.
Qed.

Lemma disconnect_keeps_shared_room_witness :
  let s := handle_all initial
             [ CreateRoom "3f9a1c2e-7b1d-4c55-9e0a-5d2f8a6b4c01" 5; Connect "a"; Connect "b";
               JoinRoom "a" "3f9a1c2e" "al" 6; JoinRoom "b" "3f9a1c2e" "bo" 7 ] in
  getRoom "3f9a1c2e" (disconnect "a" s) = Some (Room "3f9a1c2e" [ User "b" "bo" 7 ] 5).
Proof.
  apply (disconnect_keeps_shared_room _ "a" "3f9a1c2e" (Socket (Some "3f9a1c2e") (Some "al"))
           (Room "3f9a1c2e" [ User "a" "al" 6; User "b" "bo" 7 ] 5) (User "b" "bo" 7)).
  - vm_compute. reflexivity.
  - reflexivity.
  - discriminate.
  - vm_compute. reflexivity.
  - right. left. reflexivity.
  - discriminate.
Defined.

(** X8: joining a room that already has members and then disconnecting
    leaves the registry as it was: the rooms, their rosters and their trees
    are those from before the join. *)
Theorem join_then_disconnect_restores (s : server) (sid rid userName : string) (now : nat)
        (r : room) :
  rid <> "" ->
  rooms s !! rid = Some r ->
  users r <> [] ->
  (forall u, In u (users r) -> id u <> sid) ->
  let s' := disconnect sid (join_room sid rid userName now s) in
  rooms s' = rooms s /\ roomFiles s' = roomFiles s /\ sockets s' !! sid = None.
Proof.
  intros Hne Hr Husers Hfresh. unfold join_room. rewrite Hr.
  unfold disconnect, Rooms.emit. cbn [sockets rooms roomFiles emitted Rooms.uncaught].
  rewrite (lookup_insert_eq (sockets s)). cbn [socket_roomId]. rewrite (truthy_some _ Hne).
  rewrite (lookup_insert_eq (rooms s)). cbn [users room_id room_createdAt].
  rewrite others_app, (others_none _ _ Hfresh).
  unfold others at 1. simpl. rewrite String.eqb_refl. simpl. rewrite app_nil_r.
  destruct (users r) as [| u us] eqn:E; [ contradiction | ].
  cbn [rooms roomFiles sockets]. rewrite insert_insert_eq.
  split; [ | split; [ reflexivity | apply lookup_delete_eq ] ].
  apply insert_id. rewrite Hr. destruct r as [i us' c]. simpl in *. subst. reflexivity.
Qed.

Lemma join_then_disconnect_restores_witness :
  let s := handle_all initial
             [ CreateRoom "3f9a1c2e-7b1d-4c55-9e0a-5d2f8a6b4c01" 5; Connect "a";
               JoinRoom "a" "3f9a1c2e" "al" 6; Connect "b" ] in
  rooms (disconnect "b" (join_room "b" "3f9a1c2e" "bo" 7 s)) = rooms s.
Proof.
  apply (join_then_disconnect_restores _ "b" "3f9a1c2e" "bo" 7
           (Room "3f9a1c2e" [ User "a" "al" 6 ] 5)).
  - discriminate.
  - vm_compute. reflexivity.
  - discriminate.
  - intros u [<- | []]. discriminate.
Defined.

Lemma join_room_found s sid rid userName now r :
  rooms s !! rid = Some r ->
  join_room sid rid userName now s
  = Server (<[rid := Room (room_id r) (users r ++ [ User sid userName now ]) (room_createdAt r)]>
              (rooms s))
           (roomFiles s)
           (<[sid := Socket (Some rid) (Some userName)]> (sockets s))
           (emitted s ++ [ Emission (ToSocket sid) "files-sync" ]
                      ++ [ Emission (ToOthers (Some rid) sid) "user-joined" ]
                      ++ [ Emission (ToSocket sid) "users-list" ])%list
           (Rooms.uncaught s).
Proof.
  intros H. unfold join_room. rewrite H. unfold Rooms.emit.
  cbn [rooms roomFiles sockets emitted Rooms.uncaught].
  rewrite <- !app_assoc. reflexivity.
Qed.

(** X15 (join-room, disconnect): [join-room] overwrites [socket.roomId] and
    never removes the socket from the roster of the room it joined before,
    and [disconnect] looks at [socket.roomId] only.  A socket that joins
    room [a], then room [b], and disconnects is gone, and the roster of
    [a] still holds its entry. *)
Theorem rejoin_leaves_roster_entry (s : server) (sid a b nameA nameB : string)
        (nowA nowB : nat) (ra rb : room) :
  a <> b -> b <> "" ->
  rooms s !! a = Some ra -> rooms s !! b = Some rb ->
  let s' := disconnect sid (join_room sid b nameB nowB (join_room sid a nameA nowA s)) in
  getRoom a s' = Some (Room (room_id ra) (users ra ++ [ User sid nameA nowA ]) (room_createdAt ra))
  /\ sockets s' !! sid = None.
Proof.
  intros Hab Hb Ha Hrb. rewrite (join_room_found s sid a nameA nowA ra Ha).
  rewrite (join_room_found _ sid b nameB nowB rb)
    by (cbn [rooms]; rewrite lookup_insert_ne by exact Hab; exact Hrb).
  cbn [rooms roomFiles sockets emitted Rooms.uncaught].
  unfold disconnect, getRoom. cbn [rooms roomFiles sockets emitted Rooms.uncaught].
  rewrite (lookup_insert_eq (<[sid := _]> (sockets s))). cbn [socket_roomId].
  rewrite (truthy_some _ Hb). rewrite (lookup_insert_eq (<[a := _]> (rooms s))).
  cbn [users room_id room_createdAt].
  destruct (others sid (users rb ++ [ User sid nameB nowB ])) as [| u us];
    unfold Rooms.emit; cbn [rooms sockets].
  - rewrite lookup_delete_ne by congruence. rewrite lookup_insert_ne by congruence.
    rewrite lookup_insert_eq. split; [ reflexivity | apply lookup_delete_eq ].
  - rewrite lookup_insert_ne by congruence. rewrite lookup_insert_ne by congruence.
    rewrite lookup_insert_eq. split; [ reflexivity | apply lookup_delete_eq ].
Qed.

Lemma rejoin_leaves_roster_entry_witness :
  let s := handle_all initial
             [ CreateRoom "3f9a1c2e-7b1d-4c55-9e0a-5d2f8a6b4c01" 5;
               CreateRoom "77aa12bc-7b1d-4c55-9e0a-5d2f8a6b4c01" 6; Connect "a" ] in
  getRoom "3f9a1c2e"
          (disconnect "a" (join_room "a" "77aa12bc" "al" 8 (join_room "a" "3f9a1c2e" "al" 7 s)))
  = Some (Room "3f9a1c2e" [ User "a" "al" 7 ] 5).
Proof.
  apply (rejoin_leaves_roster_entry _ "a" "3f9a1c2e" "77aa12bc" "al" "al" 7 8
           (Room "3f9a1c2e" [] 5) (Room "77aa12bc" [] 6)).
  - discriminate.
  - discriminate.
  - vm_compute. reflexivity.
  - vm_compute. reflexivity.
Defined.

(** *** Rooms without a tree *)

(** X16 (code-change, create-file, delete-file, setFileAtPath,
    deleteFileAtPath): [code-change] and [create-file] store an empty object
    for a room id that has no tree, and the helpers read [files['/'].children]
    unguarded.  For such a room id [create-file] throws a TypeError out of
    its handler, for every path, having stored the empty object and emitted
    nothing; and once the empty object is stored, [delete-file] throws as
    well. *)
Theorem rootless_room_throws (s : server) (sid filePath text rid : string)
        (body ty : option string) (now : nat) :
  roomFiles s !! rid = None ->
  (let s' := create_file filePath body ty rid now s in
   Rooms.uncaught s' = (Rooms.uncaught s ++ [ TypeError ])%list
   /\ emitted s' = emitted s
   /\ (root <$> roomFiles s' !! rid) = Some None)
  /\ (let s' := delete_file filePath rid (code_change sid filePath text rid s) in
      Rooms.uncaught s' = (Rooms.uncaught s ++ [ TypeError ])%list
      /\ emitted s' = emitted s).
Proof.
  intros Hnone. split.
  - unfold create_file, files_or_new, fileData. rewrite Hnone.
    destruct (String.eqb (default "file" ty) "directory");
      unfold setFileAtPath; destruct (pop (path_parts filePath)) as [fileName parts];
      destruct parts; cbn; rewrite lookup_insert_eq; auto.
  - unfold code_change, files_or_new. rewrite Hnone.
    assert (getFileFromPath no_files filePath = None) as ->.
    { unfold getFileFromPath. cbn. destruct (path_parts filePath); reflexivity. }
    cbn [is_file]. unfold delete_file, set_files. cbn [roomFiles].
    rewrite lookup_insert_eq. unfold deleteFileAtPath.
    destruct (pop (path_parts filePath)) as [fileName parts]. cbn. auto.
Qed.

Lemma rootless_room_throws_witness :
  Rooms.uncaught (handle_all initial
                    [ Connect "a"; CodeChange "a" "/x" "text" "nowhere";
                      DeleteFile "a" "/x" "nowhere" ])
  = [ TypeError ].
Proof.
  apply (proj2 (rootless_room_throws initial "a" "/x" "text" "nowhere" None None 0 eq_refl)).
Defined.

(** *** Announcements *)

Lemma deleteFileAtPath_total t filePath r :
  root t = Some r -> exists b t', deleteFileAtPath t filePath = inr (b, t').
Proof.
  intros Hr. unfold deleteFileAtPath.
  destruct (pop (path_parts filePath)) as [fileName parts]. rewrite Hr.
  destruct (descend t parts (ONode r)) as [current |]; [ | eauto ].
  destruct (child t current (key_of fileName)); [ | eauto ].
  destruct (children_of t current); eauto.
Qed.

(** X20 (delete-file, deleteFileAtPath): in every state the server can
    reach, a delete-file message that carries a path and names a registered
    room does not throw and announces [file-deleted] to the room, whether or
    not something was removed; the registry of rooms is untouched, and when
    the path does not resolve the trees are untouched as well.  (A message
    without [filePath] is outside the messages modelled: there the handler
    throws when it splits the path.) *)
Theorem delete_file_always_announces (inputs : list input) (filePath rid : string) :
  let s := handle_all initial inputs in
  let s' := delete_file filePath rid s in
  is_Some (rooms s !! rid) ->
  Rooms.uncaught s' = Rooms.uncaught s
  /\ emitted s' = (emitted s ++ [ Emission (ToRoom rid) "file-deleted" ])%list
  /\ rooms s' = rooms s
  /\ (resolves filePath rid s = Some None -> roomFiles s' = roomFiles s).
Proof.
  intros s s' Hin.
  pose proof (handle_all_rooms_rooted inputs initial rooms_rooted_initial) as Hs.
  destruct (Hs rid Hin) as (t & Ht & Hroot & _).
  destruct (deleteFileAtPath_total t filePath 0%nat Hroot) as (b & t' & Hdel).
  subst s'. fold s in Ht. unfold delete_file. rewrite Ht, Hdel.
  unfold Rooms.emit, set_files. cbn [Rooms.uncaught emitted rooms roomFiles].
  split; [ reflexivity | ]. split; [ reflexivity | ]. split; [ reflexivity | ].
  unfold resolves. rewrite Ht. cbn. intros [= Hnone].
  rewrite (delete_unresolved t filePath 0%nat Hroot Hnone) in Hdel.
  injection Hdel as _ <-. apply insert_id, Ht.
Qed.

Lemma delete_file_always_announces_witness :
  let s := handle_all initial
             [ CreateRoom "3f9a1c2e-7b1d-4c55-9e0a-5d2f8a6b4c01" 5; Connect "a" ] in
  emitted (delete_file "/missing.txt" "3f9a1c2e" s)
  = [ Emission (ToRoom "3f9a1c2e") "file-deleted" ].
Proof.
  apply (delete_file_always_announces
           [ CreateRoom "3f9a1c2e-7b1d-4c55-9e0a-5d2f8a6b4c01" 5; Connect "a" ]
           "/missing.txt" "3f9a1c2e").
  vm_compute. eexists. reflexivity.
Defined.

(** *** Edits *)

Lemma own_other_content n text k :
  k <> "content" ->
  own (Object_ (<["content" := OStr text]> (fields n)) (children n) (proto n)) k = own n k.
Proof.
  intros Hk. unfold own. cbn [fields children].
  destruct (String.eqb k "children"); [ reflexivity | ].
  apply lookup_insert_ne. congruence.
Qed.

Lemma lookup_from_set_content r text t k : k <> "content" -> forall fuel x,
  lookup_from fuel (set_content r text t) x k = lookup_from fuel t x k.
Proof.
  intros Hk. induction fuel as [| fuel IH]; intros x; [ reflexivity | ].
  cbn [lookup_from set_content nodes].
  destruct (decide (r = x)) as [-> |].
  - rewrite lookup_alter_eq. destruct (nodes t !! x) as [m |]; [ | reflexivity ].
    cbn [fmap option_fmap option_map]. rewrite own_other_content by exact Hk.
    destruct (own m k); [ reflexivity | ]. cbn [proto].
    destruct (proto m); [ apply IH | reflexivity ].
  - rewrite lookup_alter_ne by assumption. destruct (nodes t !! x) as [m |]; [ | reflexivity ].
    destruct (own m k); [ reflexivity | ]. destruct (proto m); [ apply IH | reflexivity ].
Qed.

Lemma proto_value_set_content r text t x :
  proto_value (set_content r text t) x = proto_value t x.
Proof.
  unfold proto_value. cbn [set_content nodes].
  destruct (decide (r = x)) as [-> |].
  - rewrite lookup_alter_eq. destruct (nodes t !! x); reflexivity.
  - rewrite lookup_alter_ne by assumption. reflexivity.
Qed.

Lemma get_set_content r text t x k :
  k <> "content" -> get (set_content r text t) x k = get t x k.
Proof.
  intros Hk. unfold get. change (next (set_content r text t)) with (next t).
  rewrite lookup_from_set_content by exact Hk. unfold from_Object_prototype.
  rewrite proto_value_set_content. reflexivity.
Qed.

Lemma children_of_set_content r text t o :
  children_of (set_content r text t) o = children_of t o.
Proof.
  destruct o as [x | | |]; try reflexivity. unfold children_of.
  rewrite get_set_content by discriminate. reflexivity.
Qed.

Lemma walk_set_content r text t : forall l o,
  ~ In "content" l -> walk (set_content r text t) l o = walk t l o.
Proof.
  induction l as [| part rest IH]; intros o Hl; cbn [walk]; [ reflexivity | ].
  destruct o as [o |]; [ | reflexivity ].
  assert (child (set_content r text t) o part = child t o part) as ->.
  { unfold child. rewrite children_of_set_content.
    destruct (children_of t o); [ | reflexivity ].
    rewrite get_set_content; [ reflexivity | ]. intros ->. apply Hl. left. reflexivity. }
  destruct (child t o part); [ apply IH | reflexivity ].
  intros H. apply Hl. right. exact H.
Qed.

Lemma is_file_stored t o r : is_file t o = Some r -> is_Some (nodes t !! r).
Proof.
  unfold is_file. destruct o as [[r' | | |] |]; try discriminate.
  destruct (get t r' "type") as [[| | s |] |] eqn:E; try discriminate.
  destruct (String.eqb s "file"); [ | discriminate ]. intros [= ->].
  unfold get in E. cbn [lookup_from] in E.
  destruct (nodes t !! r); [ eauto | ]. discriminate E.
Qed.

(** X6 (code-change, getFileFromPath): a code-change message for a path
    that resolves to an object whose [type] reads ['file'] sets the own
    [content] property of that object and changes nothing else in the store:
    the object keeps its other properties, its children and its prototype,
    every other object and the root are as they were, and every path with no
    segment named [content] resolves as before.  (A path with such a
    segment can resolve differently when the object serves as the prototype
    of a children object.)  For any other path (missing, a directory, an
    inherited name) the server state is left as it is. *)
Theorem code_change_edits_files_only (s : server) (sid filePath text rid : string)
        (t : files) :
  roomFiles s !! rid = Some t ->
  let s' := code_change sid filePath text rid s in
  match is_file t (getFileFromPath t filePath) with
  | Some r =>
      exists t' n,
        roomFiles s' !! rid = Some t'
        /\ nodes t !! r = Some n
        /\ nodes t' !! r
           = Some (Object_ (<["content" := OStr text]> (fields n)) (children n) (proto n))
        /\ (forall r', r' <> r -> nodes t' !! r' = nodes t !! r')
        /\ root t' = root t
        /\ (forall p, ~ In "content" (path_parts p) ->
                      getFileFromPath t' p = getFileFromPath t p)
        /\ emitted s' = (emitted s ++ [ Emission (ToOthers (Some rid) sid) "code-update" ])%list
  | None => s' = s
  end.
Proof.
  intros Ht s'. subst s'. unfold code_change, files_or_new. rewrite Ht.
  destruct (is_file t (getFileFromPath t filePath)) as [r |] eqn:E; [ | reflexivity ].
  destruct (is_file_stored _ _ _ E) as [n Hn].
  exists (set_content r text t), n.
  split; [ unfold Rooms.emit, set_files; cbn [roomFiles]; apply lookup_insert_eq | ].
  split; [ exact Hn | ].
  split; [ cbn [set_content nodes]; rewrite lookup_alter_eq, Hn; reflexivity | ].
  split; [ intros r' Hne; simpl; apply lookup_alter_ne; congruence | ].
  split; [ reflexivity | ]. split; [ | reflexivity ].
  intros p Hp. unfold getFileFromPath. apply walk_set_content, Hp.
Qed.

Lemma code_change_edits_files_only_witness :
  let s := handle_all initial
             [ CreateRoom "3f9a1c2e-7b1d-4c55-9e0a-5d2f8a6b4c01" 5; Connect "s";
               JoinRoom "s" "3f9a1c2e" "al" 6 ] in
  let s' := code_change "s" "/main.js" "let x = 1;" "3f9a1c2e" s in
  exists t', roomFiles s' !! "3f9a1c2e" = Some t'
             /\ (nodes t' !! 2%nat ≫= content) = Some "let x = 1;"
             /\ getFileFromPath t' "/example.py" = Some (ONode 3).
Proof.
  intros s s'.
  pose proof (code_change_edits_files_only s "s" "/main.js" "let x = 1;" "3f9a1c2e" seeded
                eq_refl) as H.
  change (is_file seeded (getFileFromPath seeded "/main.js")) with (Some 2%nat) in H.
  destruct H as (t' & n & H1 & _ & H3 & _ & _ & H6 & _).
  exists t'. split; [ exact H1 | ]. split.
  - rewrite H3. unfold content. cbn. rewrite lookup_insert_eq. reflexivity.
  - rewrite H6; [ reflexivity | ]. vm_compute. intros [H | []]. discriminate H.
Defined.

(** *** Lookups *)

Lemma well_formed_shallow t : well_formed t -> shallow t.
Proof.
  intros (_ & H & _) x n p Hn Hp. destruct (H x n Hn) as (_ & _ & H3 & _).
  apply (H3 p Hp).
Qed.

(** When the prototype of an object has the default prototype, a lookup
    looks at the object and at its prototype. *)
Lemma lookup_from_two t x k f :
  (forall n p, nodes t !! x = Some n -> proto n = Some p -> nodes t !! p ≫= proto = None) ->
  lookup_from (S (S f)) t x k
  = match nodes t !! x with
    | None => None
    | Some n =>
        match own n k with
        | Some v => Some v
        | None => match proto n with
                  | Some p => nodes t !! p ≫= (fun m => own m k)
                  | None => None
                  end
        end
    end.
Proof.
  intros H. cbn [lookup_from]. destruct (nodes t !! x) as [n |] eqn:Hn; [ | reflexivity ].
  destruct (own n k); [ reflexivity | ]. destruct (proto n) as [p |] eqn:Hp; [ | reflexivity ].
  specialize (H n p eq_refl Hp). destruct (nodes t !! p) as [m |]; [ | reflexivity ].
  simpl in *. destruct (own m k); [ reflexivity | ]. rewrite H. reflexivity.
Qed.

Lemma get_two t x k :
  (forall n p, nodes t !! x = Some n -> proto n = Some p -> nodes t !! p ≫= proto = None) ->
  get t x k
  = match match nodes t !! x with
          | None => None
          | Some n =>
              match own n k with
              | Some v => Some v
              | None => match proto n with
                        | Some p => nodes t !! p ≫= (fun m => own m k)
                        | None => None
                        end
              end
          end with
    | Some v => Some v
    | None => from_Object_prototype t x k
    end.
Proof. intros H. unfold get. rewrite lookup_from_two by exact H. reflexivity. Qed.

(** Stores that agree on an object and on its prototype answer alike. *)
Lemma get_agree t t' x k :
  shallow t ->
  nodes t' !! x = nodes t !! x ->
  (forall n p, nodes t !! x = Some n -> proto n = Some p -> nodes t' !! p = nodes t !! p) ->
  get t' x k = get t x k.
Proof.
  intros H Hx Hp. rewrite (get_two t) by (intros n p; apply H).
  rewrite (get_two t').
  - unfold from_Object_prototype, proto_value.
    rewrite Hx. destruct (nodes t !! x) as [n |] eqn:Hn; [ | reflexivity ].
    destruct (proto n) as [p |] eqn:Epr; [ | reflexivity ].
    rewrite (Hp n p eq_refl Epr). reflexivity.
  - intros n p. rewrite Hx. intros Hn Epr. rewrite (Hp n p Hn Epr). exact (H x n p Hn Epr).
Qed.

(** The [__proto__] accessor is never shadowed. *)
Lemma lookup_from_proto_key t f : forall x,
  (forall r n, nodes t !! r = Some n -> fields n !! "__proto__" = None) ->
  lookup_from f t x "__proto__" = None.
Proof.
  induction f as [| f IH]; intros x H; [ reflexivity | ]. cbn [lookup_from].
  destruct (nodes t !! x) as [n |] eqn:Hn; [ | reflexivity ].
  unfold own. cbn. rewrite (H x n Hn). destruct (proto n); [ apply IH, H | reflexivity ].
Qed.

Lemma from_Object_prototype_truthy t x k v :
  from_Object_prototype t x k = Some v -> truthy_obj v = true.
Proof.
  unfold from_Object_prototype, proto_value. destruct (String.eqb k "__proto__").
  - intros [= <-]. destruct (nodes t !! x ≫= proto); reflexivity.
  - destruct (is_inherited k); [ intros [= <-]; reflexivity | discriminate ].
Qed.

(** When [Object.prototype] has nothing truthy under a key for one object,
    it has nothing under it for any. *)
Lemma from_Object_prototype_falsy t x k t' y :
  falsy (from_Object_prototype t x k) = true -> from_Object_prototype t' y k = None.
Proof.
  unfold from_Object_prototype, proto_value. destruct (String.eqb k "__proto__").
  - destruct (nodes t !! x ≫= proto); discriminate.
  - destruct (is_inherited k); [ discriminate | reflexivity ].
Qed.

Lemma falsy_not_truthy v : falsy (Some v) = true -> truthy_obj v = true -> False.
Proof. simpl. intros H1 H2. rewrite H2 in H1. discriminate. Qed.

(** *** Writes *)

Lemma own_put n k r k' :
  own (if String.eqb k "children"
       then Object_ (fields n) (Some r) (proto n)
       else Object_ (<[k := ONode r]> (fields n)) (children n) (proto n)) k'
  = if decide (k = k') then Some (ONode r) else own n k'.
Proof.
  unfold own. destruct (String.eqb k "children") eqn:Ek.
  - apply String.eqb_eq in Ek. subst k. cbn [children fields].
    destruct (decide ("children" = k')) as [<- | Hne]; [ reflexivity | ].
    destruct (String.eqb k' "children") eqn:Ek'; [ | reflexivity ].
    apply String.eqb_eq in Ek'. congruence.
  - cbn [children fields]. destruct (decide (k = k')) as [<- | Hne].
    + rewrite Ek. apply lookup_insert_eq.
    + destruct (String.eqb k' "children"); [ reflexivity | ].
      apply lookup_insert_ne. exact Hne.
Qed.

Lemma shallow_put_child c k r t : shallow t -> shallow (put_child c k r t).
Proof.
  intros H x n p. unfold put_child. cbn [nodes]. rewrite !lookup_alter.
  destruct (decide (c = x)) as [<- |].
  - destruct (nodes t !! c) as [m |] eqn:Hm; [ | discriminate ]. cbn. intros [= <-].
    intros Hp. assert (proto m = Some p) as Hp' by (destruct (String.eqb k "children"); exact Hp).
    pose proof (H c m p Hm Hp') as Hq. destruct (decide (c = p)) as [<- |]; [ | exact Hq ].
    rewrite Hm in *. cbn in *. destruct (String.eqb k "children"); exact Hq.
  - intros Hn Hp. pose proof (H x n p Hn Hp) as Hq.
    destruct (decide (c = p)) as [<- |]; [ | exact Hq ].
    destruct (nodes t !! c) as [m |]; [ | reflexivity ]. cbn in *.
    destruct (String.eqb k "children"); exact Hq.
Qed.

(** A change to one object that keeps a property and the prototype keeps
    every lookup of that property. *)
Lemma lookup_from_alter g c t k :
  (forall n, own (g n) k = own n k /\ proto (g n) = proto n) ->
  forall f x, lookup_from f (Files (root t) (alter g c (nodes t)) (next t)) x k
              = lookup_from f t x k.
Proof.
  intros Hg. induction f as [| f IH]; intros x; [ reflexivity | ].
  cbn [lookup_from nodes]. rewrite lookup_alter.
  destruct (decide (c = x)) as [<- |].
  - destruct (nodes t !! c) as [m |]; [ | reflexivity ].
    cbn [fmap option_fmap option_map]. destruct (Hg m) as [-> ->].
    destruct (own m k); [ reflexivity | ]. destruct (proto m); [ apply IH | reflexivity ].
  - destruct (nodes t !! x) as [m |]; [ | reflexivity ].
    destruct (own m k); [ reflexivity | ]. destruct (proto m); [ apply IH | reflexivity ].
Qed.

Lemma proto_value_alter g c t x :
  (forall n, proto (g n) = proto n) ->
  proto_value (Files (root t) (alter g c (nodes t)) (next t)) x = proto_value t x.
Proof.
  intros Hg. unfold proto_value. cbn [nodes]. rewrite lookup_alter.
  destruct (decide (c = x)) as [<- |]; [ | reflexivity ].
  destruct (nodes t !! c) as [m |]; [ | reflexivity ]. cbn. rewrite Hg. reflexivity.
Qed.

Lemma get_alter g c t x k :
  (forall n, own (g n) k = own n k /\ proto (g n) = proto n) ->
  get (Files (root t) (alter g c (nodes t)) (next t)) x k = get t x k.
Proof.
  intros Hg. unfold get. cbn [next]. rewrite lookup_from_alter by exact Hg.
  unfold from_Object_prototype. rewrite proto_value_alter; [ reflexivity | ].
  intros n. apply Hg.
Qed.

Lemma get_put_child_other c k r t x k' :
  k <> k' -> get (put_child c k r t) x k' = get t x k'.
Proof.
  intros Hne. unfold put_child. apply get_alter. intros n. split.
  - rewrite own_put. rewrite decide_False by exact Hne. reflexivity.
  - destruct (String.eqb k "children"); reflexivity.
Qed.

Lemma get_put_child_same c k r t n :
  nodes t !! c = Some n -> get (put_child c k r t) c k = Some (ONode r).
Proof.
  intros Hn. unfold get. cbn [lookup_from]. unfold put_child at 1. cbn [nodes].
  rewrite lookup_alter_eq, Hn. cbn [fmap option_fmap option_map].
  rewrite own_put, decide_True by reflexivity. reflexivity.
Qed.

(** A write under a key that reads falsy leaves what reads truthy as it
    is. *)
Lemma put_child_preserved c k r t :
  shallow t -> falsy (get t c k) = true -> preserved t (put_child c k r t).
Proof.
  intros Hs Hf. split; [ simpl; lia | ]. intros x k' v _ Hg Hv.
  destruct (decide (k = k')) as [<- | Hne];
    [ | rewrite get_put_child_other by exact Hne; exact Hg ].
  destruct (decide (c = x)) as [<- | Hcx];
    [ exfalso; rewrite Hg in Hf; exact (falsy_not_truthy _ Hf Hv) | ].
  pose proof (shallow_put_child c k r t Hs) as Hs'.
  assert (from_Object_prototype (put_child c k r t) x k = from_Object_prototype t x k) as Hfop.
  { unfold from_Object_prototype, put_child. rewrite proto_value_alter; [ reflexivity | ].
    intros n. destruct (String.eqb k "children"); reflexivity. }
  rewrite get_two in Hf, Hg by (intros ? ?; apply Hs).
  rewrite get_two by (intros ? ?; apply Hs'). rewrite Hfop.
  unfold put_child. cbn [nodes]. rewrite !lookup_alter_ne by exact Hcx.
  destruct (nodes t !! x) as [n |] eqn:Hn; [ | exact Hg ].
  destruct (own n k) as [w |]; [ exact Hg | ].
  destruct (proto n) as [p |] eqn:Hp; [ | exact Hg ].
  destruct (decide (c = p)) as [<- | Hcp]; [ | rewrite lookup_alter_ne by exact Hcp; exact Hg ].
  exfalso. pose proof (Hs x n c Hn Hp) as Hc.
  destruct (nodes t !! c) as [m |] eqn:Hm; cbn in Hc, Hf, Hg.
  - destruct (own m k) as [w |].
    + injection Hg as ->. exact (falsy_not_truthy _ Hf Hv).
    + rewrite Hc in Hf. rewrite (from_Object_prototype_falsy t c k t x Hf) in Hg.
      discriminate Hg.
  - rewrite (from_Object_prototype_falsy t c k t x Hf) in Hg. discriminate Hg.
Qed.

(** *** Stores that keep what was read *)

Lemma preserved_refl t : preserved t t.
Proof. split; [ lia | auto ]. Qed.

Lemma preserved_trans t1 t2 t3 : preserved t1 t2 -> preserved t2 t3 -> preserved t1 t3.
Proof.
  intros [H1 H1'] [H2 H2']. split; [ lia | ]. intros x k v Hx Hg Hv.
  apply H2'; [ lia | | exact Hv ]. apply H1'; assumption.
Qed.

Lemma shallow_alloc_node n t : shallow t -> proto n = None -> shallow (snd (alloc_node n t)).
Proof.
  intros H Hn x m p. unfold alloc_node. cbn [snd nodes].
  destruct (decide (next t = x)) as [<- |].
  - rewrite lookup_insert_eq. intros [= <-]. congruence.
  - rewrite lookup_insert_ne by assumption. intros Hm Hp.
    destruct (decide (next t = p)) as [<- |].
    + rewrite lookup_insert_eq. exact Hn.
    + rewrite lookup_insert_ne by assumption. exact (H x m p Hm Hp).
Qed.

Lemma well_formed_stored t r : well_formed t -> (r < next t)%nat -> is_Some (nodes t !! r).
Proof. intros (H & _) Hr. apply H, Hr. Qed.

Lemma well_formed_below t r n : well_formed t -> nodes t !! r = Some n -> (r < next t)%nat.
Proof. intros (H & _) Hr. apply H. eauto. Qed.

(** What a lookup returns is in the store. *)
Lemma get_below t x k r : well_formed t -> get t x k = Some (ONode r) -> (r < next t)%nat.
Proof.
  intros (_ & H & _) Hg. apply get_ref in Hg as (r' & n & Hn & Hr).
  destruct (H r' n Hn) as (H1 & H2 & H3 & _).
  destruct Hr as [Hr | [Hr | [k' Hr]]]; [ exact (H1 r Hr) | apply (H3 r Hr) | exact (H2 k' r Hr) ].
Qed.

Lemma children_of_below t o c : well_formed t -> children_of t o = Some c -> (c < next t)%nat.
Proof.
  intros W. unfold children_of. destruct o as [x | | |]; try discriminate.
  destruct (get t x "children") as [[c' | | |] |] eqn:E; try discriminate.
  intros [= <-]. exact (get_below _ _ _ _ W E).
Qed.

Lemma child_below t o k r : well_formed t -> child t o k = Some (ONode r) -> (r < next t)%nat.
Proof.
  intros W. unfold child. destruct (children_of t o) as [c |]; [ | discriminate ].
  destruct (falsy (get t c k)); [ discriminate | ]. apply get_below, W.
Qed.

Lemma get_alloc_node n t x k :
  well_formed t -> (x < next t)%nat -> get (snd (alloc_node n t)) x k = get t x k.
Proof.
  intros W Hx. apply get_agree.
  - apply well_formed_shallow, W.
  - unfold alloc_node. cbn [snd nodes]. apply lookup_insert_ne. lia.
  - intros m p Hm Hp. unfold alloc_node. cbn [snd nodes]. apply lookup_insert_ne.
    destruct W as (_ & H & _). destruct (H x m Hm) as (_ & _ & H3 & _).
    destruct (H3 p Hp) as [Hlt _]. lia.
Qed.

Lemma preserved_alloc_node n t : well_formed t -> preserved t (snd (alloc_node n t)).
Proof.
  intros W. split; [ simpl; lia | ]. intros x k v Hx Hg _.
  rewrite get_alloc_node by assumption. exact Hg.
Qed.

Lemma falsy_truthy v : falsy (Some v) = false -> truthy_obj v = true.
Proof. simpl. destruct (truthy_obj v); [ reflexivity | discriminate ]. Qed.

Lemma child_Some t o part v :
  child t o part = Some v ->
  exists c, children_of t o = Some c /\ get t c part = Some v /\ truthy_obj v = true.
Proof.
  unfold child. destruct (children_of t o) as [c |]; [ | discriminate ].
  destruct (get t c part) as [w |] eqn:E; [ | discriminate ].
  destruct (falsy (Some w)) eqn:Ef; [ discriminate | ]. intros [= <-].
  exists c. split; [ reflexivity | ]. split; [ exact E | apply falsy_truthy, Ef ].
Qed.

Lemma child_found t o part c v :
  children_of t o = Some c -> get t c part = Some v -> truthy_obj v = true ->
  child t o part = Some v.
Proof.
  intros Hc Hg Hv. unfold child. rewrite Hc, Hg. simpl. rewrite Hv. reflexivity.
Qed.

Lemma children_of_Some t o c :
  children_of t o = Some c -> exists x, o = ONode x /\ get t x "children" = Some (ONode c).
Proof.
  unfold children_of. destruct o as [x | | |]; try discriminate.
  destruct (get t x "children") as [[c' | | |] |] eqn:E; try discriminate.
  intros [= <-]. eauto.
Qed.

Lemma children_of_preserved t t' x c :
  preserved t t' -> (x < next t)%nat ->
  children_of t (ONode x) = Some c -> children_of t' (ONode x) = Some c.
Proof.
  intros [_ H] Hx Hc. apply children_of_Some in Hc as (x' & [= <-] & Hg).
  unfold children_of. rewrite (H x "children" (ONode c) Hx Hg eq_refl). reflexivity.
Qed.

Lemma child_preserved t t' x part v :
  well_formed t -> preserved t t' -> (x < next t)%nat ->
  child t (ONode x) part = Some v -> child t' (ONode x) part = Some v.
Proof.
  intros W P Hx Hc. apply child_Some in Hc as (c & Hc & Hg & Hv).
  apply (child_found t' _ _ c); [ | | exact Hv ].
  - eapply children_of_preserved; eassumption.
  - destruct P as [_ P]. apply P; [ | exact Hg | exact Hv ].
    eapply children_of_below; eassumption.
Qed.

(** A path that resolves keeps resolving, to the same object. *)
Lemma walk_preserved t t' : well_formed t -> preserved t t' -> forall parts cur v,
  (forall x, cur = Some (ONode x) -> (x < next t)%nat) ->
  walk t parts cur = Some v -> walk t' parts cur = Some v.
Proof.
  intros W P. induction parts as [| part rest IH]; intros cur v Hcur; cbn [walk]; [ auto | ].
  destruct cur as [o |]; [ | discriminate ].
  destruct (child t o part) as [o' |] eqn:Hc; [ | discriminate ].
  destruct (child_children _ _ _ _ Hc) as [c Hch].
  apply children_of_Some in Hch as (x & -> & _).
  rewrite (child_preserved t t' x part o' W P (Hcur x eq_refl) Hc).
  apply IH. intros y [= ->]. eapply child_below; eassumption.
Qed.

(** *** Well-formed stores *)

Lemma well_formed_alloc_node n t :
  well_formed t ->
  (forall c, children n = Some c ->
             (c <= next t)%nat /\ forall r m, nodes t !! r = Some m -> proto m <> Some c) ->
  (forall k x, fields n !! k = Some (ONode x) -> (x <= next t)%nat) ->
  proto n = None ->
  fields n !! "__proto__" = None ->
  well_formed (snd (alloc_node n t)).
Proof.
  intros (D & N & R) Hc Hf Hp Hk. unfold alloc_node. cbn [snd]. split; [ | split ].
  - intros r. cbn [nodes next]. destruct (decide (next t = r)) as [<- |].
    + rewrite lookup_insert_eq. split; [ lia | eauto ].
    + rewrite lookup_insert_ne by assumption. rewrite D. lia.
  - intros r m. cbn [nodes next]. destruct (decide (next t = r)) as [<- |].
    + rewrite lookup_insert_eq. intros [= <-].
      split; [ intros c E; destruct (Hc c E); lia | ].
      split; [ intros k x E; specialize (Hf k x E); lia | ].
      split; [ intros p E; congruence | exact Hk ].
    + rewrite lookup_insert_ne by assumption. intros Hm.
      destruct (N r m Hm) as (H1 & H2 & H3 & H4).
      split; [ intros c E; specialize (H1 c E); lia | ].
      split; [ intros k x E; specialize (H2 k x E); lia | ].
      split; [ | exact H4 ].
      intros p E. destruct (H3 p E) as (Hlt & Hpr & Hsl). split; [ lia | ].
      unfold plain_target. cbn [nodes]. split.
      * rewrite lookup_insert_ne by lia. exact Hpr.
      * intros r' m'. destruct (decide (next t = r')) as [<- |].
        -- rewrite lookup_insert_eq. intros [= <-] Ec.
           destruct (Hc p Ec) as [_ Hno]. exact (Hno r m Hm E).
        -- rewrite lookup_insert_ne by assumption. apply Hsl.
  - intros r E. cbn [root next] in *. specialize (R r E). lia.
Qed.

(** A change to the object [c]: what it may do to the properties and to
    the prototype of [c] for the store to stay well formed. *)
Lemma well_formed_alter g c t :
  well_formed t ->
  (forall n, nodes t !! c = Some n ->
     (forall c', children (g n) = Some c' ->
                 (c' < next t)%nat /\ forall x m, nodes t !! x = Some m -> proto m <> Some c')
     /\ (forall k x, fields (g n) !! k = Some (ONode x) -> (x < next t)%nat)
     /\ fields (g n) !! "__proto__" = None
     /\ (proto (g n) = proto n
         \/ exists r, proto (g n) = Some r /\ (r < next t)%nat /\ r <> c
                      /\ nodes t !! r ≫= proto = None
                      /\ (forall x m, nodes t !! x = Some m -> children m <> Some r)
                      /\ children (g n) <> Some r
                      /\ (forall x m, nodes t !! x = Some m -> proto m <> Some c))) ->
  well_formed (Files (root t) (alter g c (nodes t)) (next t)).
Proof.
  intros (D & N & R) H. split; [ | split; [ | exact R ] ].
  - intros r. cbn [nodes next]. rewrite <- D, lookup_alter.
    destruct (decide (c = r)) as [<- |]; [ | reflexivity ].
    rewrite fmap_is_Some. reflexivity.
  - cbn [nodes next].
    assert (forall p, (exists x m, nodes t !! x = Some m /\ proto m = Some p) ->
                      alter g c (nodes t) !! p ≫= proto = None) as Hpr.
    { intros p (x & m & Hm & E). destruct (N x m Hm) as (_ & _ & H3 & _).
      destruct (H3 p E) as (_ & Hpr & _). rewrite lookup_alter.
      destruct (decide (c = p)) as [<- |]; [ | exact Hpr ].
      destruct (nodes t !! c) as [n |] eqn:Hn; [ | reflexivity ].
      destruct (H n eq_refl) as (_ & _ & _ & [Hg | (r & _ & _ & _ & _ & _ & _ & Hno)]).
      - cbn in *. congruence.
      - exfalso. exact (Hno x m Hm E). }
    assert (forall p, (exists x m, nodes t !! x = Some m /\ proto m = Some p) ->
                      forall r' m', alter g c (nodes t) !! r' = Some m' -> children m' <> Some p)
      as Hsl.
    { intros p (x & m & Hm & E) r' m'. destruct (N x m Hm) as (_ & _ & H3 & _).
      destruct (H3 p E) as (_ & _ & Hsl). rewrite lookup_alter.
      destruct (decide (c = r')) as [<- |]; [ | apply Hsl ].
      destruct (nodes t !! c) as [n |] eqn:Hn; [ | discriminate ]. cbn. intros [= <-] Ec.
      destruct (H n eq_refl) as (Hch & _). destruct (Hch p Ec) as [_ Hno].
      exact (Hno x m Hm E). }
    intros r m. rewrite lookup_alter. destruct (decide (c = r)) as [<- |].
    + destruct (nodes t !! c) as [n |] eqn:Hn; [ | discriminate ]. cbn. intros [= <-].
      destruct (H n eq_refl) as (Hch & Hf & Hk & Hp). destruct (N c n Hn) as (_ & _ & H3 & _).
      split; [ intros c' E; apply (Hch c' E) | ]. split; [ exact Hf | ]. split; [ | exact Hk ].
      intros p E. destruct Hp as [Hp | (r & Hr & Hlt & Hne & Hnone & Hslot & Hown & Hno)].
      * rewrite Hp in E. destruct (H3 p E) as (Hlt & _). split; [ exact Hlt | ].
        split; [ apply Hpr; eauto | apply Hsl; eauto ].
      * rewrite Hr in E. injection E as <-. split; [ exact Hlt | ].
        unfold plain_target. cbn [nodes]. split.
        -- rewrite lookup_alter_ne by congruence. exact Hnone.
        -- intros r' m'. rewrite lookup_alter. destruct (decide (c = r')) as [<- |].
           ++ rewrite Hn. cbn. intros [= <-]. exact Hown.
           ++ apply Hslot.
    + intros Hm. destruct (N r m Hm) as (H1 & H2 & H3 & H4).
      split; [ exact H1 | ]. split; [ exact H2 | ]. split; [ | exact H4 ].
      intros p E. destruct (H3 p E) as (Hlt & _). split; [ exact Hlt | ].
      split; [ apply Hpr; eauto | apply Hsl; eauto ].
Qed.

Lemma well_formed_put_child c k r t :
  well_formed t -> (r < next t)%nat -> k <> "__proto__" ->
  (k = "children" -> forall x m, nodes t !! x = Some m -> proto m <> Some r) ->
  well_formed (put_child c k r t).
Proof.
  intros W Hr Hk Hno. apply well_formed_alter; [ exact W | ]. intros n Hn.
  destruct W as (_ & N & _). destruct (N c n Hn) as (H1 & H2 & H3 & H4).
  destruct (String.eqb k "children") eqn:Ek; cbn [children fields proto].
  - apply String.eqb_eq in Ek.
    split; [ intros c' [= <-]; split; [ exact Hr | exact (Hno Ek) ] | ].
    split; [ exact H2 | ]. split; [ exact H4 | left; reflexivity ].
  - split.
    { intros c' E. split; [ exact (H1 c' E) | ]. intros x m Hm Hp.
      destruct (N x m Hm) as (_ & _ & H3' & _). destruct (H3' c' Hp) as (_ & _ & Hsl).
      exact (Hsl c n Hn E). }
    split.
    { intros k' x. destruct (decide (k = k')) as [<- |].
      - rewrite lookup_insert_eq. intros [= <-]. exact Hr.
      - rewrite lookup_insert_ne by assumption. apply H2. }
    split; [ rewrite lookup_insert_ne by exact Hk; exact H4 | left; reflexivity ].
Qed.

(** *** Directories made on the way *)

Lemma get_proto_key t x : well_formed t -> get t x "__proto__" = Some (proto_value t x).
Proof.
  intros (_ & N & _). unfold get. rewrite lookup_from_proto_key; [ reflexivity | ].
  intros r n Hn. apply N in Hn. tauto.
Qed.

Lemma falsy_not_proto_key t c k : well_formed t -> falsy (get t c k) = true -> k <> "__proto__".
Proof.
  intros W Hf ->. rewrite get_proto_key in Hf by exact W. unfold proto_value in Hf.
  destruct (nodes t !! c ≫= proto); discriminate.
Qed.

Lemma set_child_put c k r t : k <> "__proto__" -> set_child c k r t = (put_child c k r t, None).
Proof.
  intros Hk. unfold set_child. destruct (lookup_from _ t c k); [ reflexivity | ].
  apply String.eqb_neq in Hk. rewrite Hk. reflexivity.
Qed.

Lemma put_other key v m k : key <> k -> put key v m !! k = m !! k.
Proof. intros H. unfold put. destruct v; [ apply lookup_insert_ne, H | reflexivity ]. Qed.

Lemma Node_no_proto_key nm p ty c d ch : fields (Node nm p ty c d ch) !! "__proto__" = None.
Proof.
  unfold Node. cbn [fields]. rewrite !put_other by discriminate.
  rewrite lookup_insert_ne by discriminate. apply lookup_empty.
Qed.

Lemma well_formed_alloc_kids t : well_formed t -> well_formed (snd (alloc_kids t)).
Proof.
  intros W. apply well_formed_alloc_node; [ exact W | discriminate | | reflexivity | reflexivity ].
  intros k x. cbn. rewrite lookup_empty. discriminate.
Qed.

(** The prototypes that were assigned are objects of the store. *)
Lemma proto_below t r n p :
  well_formed t -> nodes t !! r = Some n -> proto n = Some p -> (p < next t)%nat.
Proof. intros (_ & N & _) Hn Hp. destruct (N r n Hn) as (_ & _ & H3 & _). apply (H3 p Hp). Qed.

Lemma put_child_proto c k r t x n :
  nodes (put_child c k r t) !! x = Some n -> exists m, nodes t !! x = Some m /\ proto m = proto n.
Proof.
  unfold put_child. cbn [nodes]. rewrite lookup_alter. destruct (decide (c = x)) as [<- |].
  - destruct (nodes t !! c) as [m |]; simpl; [ | discriminate ]. intros [= <-].
    exists m. split; [ reflexivity | ]. destruct (String.eqb k "children"); reflexivity.
  - eauto.
Qed.

(** The directory [add_directory] makes: a store that keeps what was read,
    with the new directory under the key and a fresh children object. *)
Lemma add_directory_spec c part t :
  well_formed t -> (c < next t)%nat -> falsy (get t c part) = true ->
  exists t3, add_directory c part t = (t3, None)
             /\ well_formed t3 /\ preserved t t3 /\ root t3 = root t
             /\ next t3 = S (S (next t))
             /\ get t3 c part = Some (ONode (S (next t)))
             /\ children_of t3 (ONode (S (next t))) = Some (next t)
             /\ leaf t3 (next t).
Proof.
  intros W Hc Hf. pose proof (falsy_not_proto_key _ _ _ W Hf) as Hk.
  unfold add_directory, alloc_kids. cbn [alloc_node next].
  rewrite set_child_put by exact Hk. eexists. split; [ reflexivity | ].
  set (t1 := snd (alloc_kids t)).
  set (nd := Node part None (Some "directory") None None (Some (next t))).
  set (t2 := snd (alloc_node nd t1)).
  change (Files (root t) (<[S (next t) := nd]> (<[next t := Object_ ∅ None None]> (nodes t)))
                (S (S (next t)))) with t2.
  pose proof (well_formed_alloc_kids t W) as W1.
  assert (forall r m, nodes t2 !! r = Some m -> forall p, proto m = Some p -> (p < next t)%nat)
    as Hprotos.
  { intros r m. unfold t2, t1, alloc_kids, alloc_node. cbn [snd nodes next].
    destruct (decide (S (next t) = r)) as [<- |].
    { rewrite lookup_insert_eq. intros [= <-]. discriminate. }
    rewrite lookup_insert_ne by assumption.
    destruct (decide (next t = r)) as [<- |].
    { rewrite lookup_insert_eq. intros [= <-]. discriminate. }
    rewrite lookup_insert_ne by assumption. intros Hm p Hp. eapply proto_below; eassumption. }
  assert (well_formed t2) as W2.
  { apply well_formed_alloc_node; [ exact W1 | | | reflexivity | apply Node_no_proto_key ].
    - intros c' [= <-]. split; [ simpl; lia | ]. intros r m Hm Hp.
      unfold t1, alloc_kids, alloc_node in Hm. cbn [snd nodes] in Hm.
      destruct (decide (next t = r)) as [<- |].
      + rewrite lookup_insert_eq in Hm. injection Hm as <-. discriminate.
      + rewrite lookup_insert_ne in Hm by assumption.
        pose proof (proto_below _ _ _ _ W Hm Hp). lia.
    - intros k x E. exfalso. exact (Node_plain _ _ _ _ _ _ _ _ E). }
  assert (get t2 c part = get t c part) as Hg2.
  { unfold t2. rewrite get_alloc_node; [ | exact W1 | simpl; lia ].
    unfold t1, alloc_kids. apply get_alloc_node; assumption. }
  split.
  { apply well_formed_put_child; [ exact W2 | simpl; lia | exact Hk | ].
    intros _ x m Hm Hp. specialize (Hprotos x m Hm _ Hp). lia. }
  split.
  { apply (preserved_trans _ t1); [ apply preserved_alloc_node, W | ].
    apply (preserved_trans _ t2); [ apply preserved_alloc_node, W1 | ].
    apply (put_child_preserved c part (S (next t)) t2); [ apply well_formed_shallow, W2 | ].
    rewrite Hg2. exact Hf. }
  split; [ reflexivity | ]. split; [ reflexivity | ].
  assert (forall r, r <> c -> nodes (put_child c part (S (next t)) t2) !! r = nodes t2 !! r)
    as Hoff by (intros r Hr; unfold put_child; cbn [nodes]; apply lookup_alter_ne; congruence).
  split.
  { destruct (well_formed_stored t2 c W2) as [n Hn]; [ simpl; lia | ].
    eapply get_put_child_same, Hn. }
  split.
  { unfold children_of, get. cbn [lookup_from]. rewrite Hoff by lia.
    unfold t2, alloc_node. cbn [snd nodes]. rewrite lookup_insert_eq. reflexivity. }
  split.
  { rewrite Hoff by lia. unfold t2, t1, alloc_kids, alloc_node. cbn [snd nodes next].
    rewrite lookup_insert_ne by lia. apply lookup_insert_eq. }
  intros r n Hn Hp. apply put_child_proto in Hn as (m & Hm & E). rewrite <- E in Hp.
  specialize (Hprotos r m Hm _ Hp). lia.
Qed.

Lemma get_leaf t k part : leaf t k -> get t k part = from_Object_prototype t k part.
Proof.
  intros [Hk _]. unfold get. cbn [lookup_from]. rewrite Hk.
  assert (own (Object_ ∅ None None) part = None) as ->; [ | reflexivity ].
  unfold own. destruct (String.eqb part "children"); [ reflexivity | apply lookup_empty ].
Qed.

(** A fresh [{}] answers with members of [Object.prototype] only. *)
Lemma leaf_reads t k part v : leaf t k -> get t k part = Some v -> exists b, v = OBuiltin b.
Proof.
  intros L. rewrite (get_leaf _ _ _ L). destruct L as [Hk _].
  unfold from_Object_prototype, proto_value. rewrite Hk. cbn [mbind option_bind proto].
  destruct (String.eqb part "__proto__"); [ intros [= E]; eauto | ].
  destruct (is_inherited part); [ intros [= E]; eauto | discriminate ].
Qed.

Lemma not_falsy v : falsy v = false -> exists w, v = Some w /\ truthy_obj w = true.
Proof.
  destruct v as [w |]; [ | discriminate ]. intros H. exists w.
  split; [ reflexivity | apply falsy_truthy, H ].
Qed.

(** Below a directory that was just made, every further segment makes a
    directory. *)
Lemma descend_creating_leaf rest : forall t d k b t1 cur1,
  well_formed t -> (d < next t)%nat -> children_of t (ONode d) = Some k -> leaf t k ->
  (b <= k)%nat ->
  descend_creating t rest (Some (ONode d)) = (t1, inr cur1) ->
  well_formed t1 /\ preserved t t1 /\ root t1 = root t
  /\ walk t1 rest (Some (ONode d)) = cur1
  /\ (forall c, cur1 ≫= children_of t1 = Some c -> leaf t1 c /\ (b <= c)%nat).
Proof.
  induction rest as [| part rest IH]; intros t d k b t1 cur1 W Hd Hk L Hb.
  - intros [= <- <-]. split; [ exact W | ]. split; [ apply preserved_refl | ].
    split; [ reflexivity | ]. split; [ reflexivity | ].
    intros c Hc. cbn [mbind option_bind] in Hc. rewrite Hk in Hc. injection Hc as <-. auto.
  - cbn [descend_creating mbind option_bind]. rewrite Hk.
    pose proof (children_of_below _ _ _ W Hk) as Hlt.
    destruct (falsy (get t k part)) eqn:Hf.
    + destruct (add_directory_spec k part t W Hlt Hf)
        as (t3 & E & W3 & P3 & R3 & N3 & G3 & C3 & L3).
      rewrite E. rewrite (children_of_preserved t t3 d k P3 Hd Hk). rewrite G3. intros Hrec.
      apply (IH t3 (S (next t)) (next t) b) in Hrec as (W1 & P1 & R1 & Wk & Hl);
        [ | exact W3 | lia | exact C3 | exact L3 | lia ].
      split; [ exact W1 | ]. split; [ exact (preserved_trans _ _ _ P3 P1) | ].
      split; [ congruence | ]. split; [ | exact Hl ].
      cbn [walk].
      rewrite (child_preserved t3 t1 d part (ONode (S (next t))) W3 P1);
        [ exact Wk | lia | ].
      apply (child_found t3 _ _ k); [ | exact G3 | reflexivity ].
      exact (children_of_preserved t t3 d k P3 Hd Hk).
    + rewrite Hk. destruct (not_falsy _ Hf) as (v & Hv & Htr). rewrite Hv.
      destruct (leaf_reads _ _ _ _ L Hv) as [b0 ->].
      destruct rest as [| part2 rest]; [ | discriminate ].
      intros [= <- <-]. split; [ exact W | ]. split; [ apply preserved_refl | ].
      split; [ reflexivity | ]. split; [ | discriminate ].
      cbn [walk]. rewrite (child_found t _ _ k _ Hk Hv Htr). reflexivity.
Qed.

(** The loop of [setFileAtPath]: either the segments resolve and nothing is
    written, or, from the first segment that does not resolve, directories
    are made, and the walk ends in the last of them, whose children object
    is fresh.  In both cases the segments resolve afterwards to where the
    loop ended, and what could be read before reads as it did. *)
Lemma descend_creating_spec parts : forall t cur t1 cur1,
  well_formed t -> (forall x, cur = Some (ONode x) -> (x < next t)%nat) ->
  descend_creating t parts cur = (t1, inr cur1) ->
  well_formed t1 /\ preserved t t1 /\ root t1 = root t
  /\ walk t1 parts cur = cur1
  /\ ((t1 = t /\ walk t parts cur = cur1)
      \/ (walk t parts cur = None
          /\ forall c, cur1 ≫= children_of t1 = Some c -> leaf t1 c /\ (next t <= c)%nat)).
Proof.
  induction parts as [| part rest IH]; intros t cur t1 cur1 W Hcur.
  - intros [= <- <-]. split; [ exact W | ]. split; [ apply preserved_refl | ].
    split; [ reflexivity | ]. split; [ reflexivity | ]. left. auto.
  - cbn [descend_creating]. destruct cur as [o |]; [ | discriminate ].
    cbn [mbind option_bind]. destruct (children_of t o) as [c |] eqn:Hc; [ | discriminate ].
    destruct (children_of_Some _ _ _ Hc) as (x & -> & _).
    pose proof (Hcur x eq_refl) as Hx. pose proof (children_of_below _ _ _ W Hc) as Hlt.
    destruct (falsy (get t c part)) eqn:Hf.
    + destruct (add_directory_spec c part t W Hlt Hf)
        as (t3 & E & W3 & P3 & R3 & N3 & G3 & C3 & L3).
      rewrite E. rewrite (children_of_preserved t t3 x c P3 Hx Hc). rewrite G3. intros Hrec.
      apply (descend_creating_leaf rest t3 (S (next t)) (next t) (next t)) in Hrec
        as (W1 & P1 & R1 & Wk & Hl); [ | exact W3 | lia | exact C3 | exact L3 | lia ].
      split; [ exact W1 | ]. split; [ exact (preserved_trans _ _ _ P3 P1) | ].
      split; [ congruence | ]. split.
      * cbn [walk].
        rewrite (child_preserved t3 t1 x part (ONode (S (next t))) W3 P1);
          [ exact Wk | lia | ].
        apply (child_found t3 _ _ c); [ | exact G3 | reflexivity ].
        exact (children_of_preserved t t3 x c P3 Hx Hc).
      * right. split; [ | exact Hl ]. cbn [walk]. unfold child. rewrite Hc, Hf. reflexivity.
    + rewrite Hc. destruct (not_falsy _ Hf) as (v & Hv & Htr). rewrite Hv. intros Hrec.
      pose proof (child_found t _ _ c _ Hc Hv Htr) as Hchild.
      apply IH in Hrec as (W1 & P1 & R1 & Wk & Hcases);
        [ | exact W | intros y [= ->]; rewrite Hv in *; eapply get_below; eassumption ].
      split; [ exact W1 | ]. split; [ exact P1 | ]. split; [ exact R1 | ]. split.
      * cbn [walk]. rewrite (child_preserved t t1 x part v W P1 Hx Hchild). exact Wk.
      * cbn [walk]. rewrite Hchild. exact Hcases.
Qed.

(** *** The round trip *)

Lemma walk_snoc t l k : forall cur,
  walk t (l ++ [ k ]) cur = match walk t l cur with
                            | Some o => child t o k
                            | None => None
                            end.
Proof.
  induction l as [| part rest IH]; intros cur; cbn [walk app].
  - destruct cur as [o |]; [ | reflexivity ]. destruct (child t o k); reflexivity.
  - destruct cur as [o |]; [ | reflexivity ].
    destruct (child t o part); [ apply IH | reflexivity ].
Qed.

Lemma walk_below t : well_formed t -> forall parts cur x,
  (forall y, cur = Some (ONode y) -> (y < next t)%nat) ->
  walk t parts cur = Some (ONode x) -> (x < next t)%nat.
Proof.
  intros W. induction parts as [| part rest IH]; intros cur x Hcur; cbn [walk].
  - apply Hcur.
  - destruct cur as [o |]; [ | discriminate ].
    destruct (child t o part) as [o' |] eqn:Hc; [ | discriminate ].
    apply IH. intros y [= ->]. eapply child_below; eassumption.
Qed.

Lemma children_of_leaf t c : leaf t c -> children_of t (ONode c) = None.
Proof. intros L. unfold children_of. rewrite (get_leaf _ _ _ L). reflexivity. Qed.

(** A walk that ends in a directory does not read a fresh [{}]: what such
    an object answers has no children.  So the walk is the same in a store
    that differs in that object only. *)
Lemma walk_around_leaf t t' c :
  well_formed t -> leaf t c ->
  (forall x k, x <> c -> get t' x k = get t x k) ->
  forall parts cur o c',
    walk t parts cur = Some o -> children_of t o = Some c' ->
    walk t' parts cur = Some o /\ children_of t' o = Some c'.
Proof.
  intros W L H.
  assert (forall o c', children_of t o = Some c' -> children_of t' o = Some c') as Hch.
  { intros o c' Hc. destruct (children_of_Some _ _ _ Hc) as (x & -> & Hg).
    unfold children_of. rewrite H, Hg; [ reflexivity | ].
    intros ->. rewrite (children_of_leaf _ _ L) in Hc. discriminate. }
  induction parts as [| part rest IH]; intros cur o c'; cbn [walk].
  - intros -> Hc. split; [ reflexivity | apply Hch, Hc ].
  - destruct cur as [o0 |]; [ | discriminate ].
    destruct (child t o0 part) as [o1 |] eqn:Hc1; [ | discriminate ].
    intros Hw Hc. destruct (child_Some _ _ _ _ Hc1) as (c0 & Hc0 & Hg & Htr).
    assert (c0 <> c) as Hne.
    { intros ->. destruct (leaf_reads _ _ _ _ L Hg) as [b ->].
      destruct rest as [| part2 rest]; cbn [walk] in Hw.
      - injection Hw as <-. discriminate Hc.
      - discriminate Hw. }
    assert (child t' o0 part = Some o1) as ->.
    { apply (child_found t' _ _ c0); [ apply Hch, Hc0 | | exact Htr ].
      rewrite H by exact Hne. exact Hg. }
    apply IH; assumption.
Qed.

Lemma alter_proto_key g c t :
  well_formed t -> (forall n, fields (g n) = fields n) ->
  forall r n, alter g c (nodes t) !! r = Some n -> fields n !! "__proto__" = None.
Proof.
  intros (_ & N & _) Hg r n. rewrite lookup_alter. destruct (decide (c = r)) as [<- |].
  - destruct (nodes t !! c) as [m |] eqn:Hm; simpl; [ | discriminate ]. intros [= <-].
    rewrite Hg. apply (N c m Hm).
  - intros Hn. apply (N r n Hn).
Qed.

(** The assignment that ends [setFileAtPath], on a fresh [{}]: under any
    key, [__proto__] included, the object answers with what was assigned, and
    no other object answers differently. *)
Lemma set_child_leaf c key fd t t' :
  well_formed t -> leaf t c -> set_child c key fd t = (t', None) ->
  root t' = root t /\ next t' = next t
  /\ get t' c key = Some (ONode fd)
  /\ (forall x k, x <> c -> get t' x k = get t x k).
Proof.
  intros W L. pose proof L as [Hc Hno].
  assert (forall g x k, x <> c ->
            get (Files (root t) (alter g c (nodes t)) (next t)) x k = get t x k) as Hoff.
  { intros g x k Hx. apply get_agree; [ apply well_formed_shallow, W | | ]; cbn [nodes].
    - apply lookup_alter_ne. congruence.
    - intros n p Hn Hp. apply lookup_alter_ne. intros <-. exact (Hno x n Hn Hp). }
  unfold set_child. cbn [lookup_from]. rewrite Hc.
  assert (own (Object_ ∅ None None) key = None) as ->
    by (unfold own; destruct (String.eqb key "children"); [ reflexivity | apply lookup_empty ]).
  cbn [proto mbind option_bind]. destruct (String.eqb key "__proto__") eqn:Ek.
  - apply String.eqb_eq in Ek. subst key. rewrite bool_decide_eq_false_2 by discriminate.
    destruct (reaches _ t fd c); [ discriminate | ]. intros [= <-].
    split; [ reflexivity | ]. split; [ reflexivity | ]. split; [ | apply Hoff ].
    unfold get. rewrite lookup_from_proto_key.
    + unfold from_Object_prototype, proto_value, set_proto. cbn [nodes String.eqb Ascii.eqb
        Bool.eqb]. rewrite lookup_alter_eq, Hc. reflexivity.
    + unfold set_proto. cbn [nodes]. apply alter_proto_key; [ exact W | reflexivity ].
  - intros [= <-]. split; [ reflexivity | ]. split; [ reflexivity | ].
    split; [ eapply get_put_child_same, Hc | apply Hoff ].
Qed.

Lemma child_None_falsy t o k c :
  child t o k = None -> children_of t o = Some c -> falsy (get t c k) = true.
Proof.
  unfold child. intros H Hc. rewrite Hc in H. destruct (falsy (get t c k)) eqn:Hf; [ reflexivity | ].
  destruct (not_falsy _ Hf) as (w & Hw & _). rewrite Hw in H. discriminate.
Qed.

(** The walk along a path that [setFileAtPath] has just written ends in the
    object that was stored, and every path that resolved before resolves as
    it did. *)
Lemma setFileAtPath_resolves (t : files) (filePath : string) (fileData : nat) (t' : files) :
  well_formed t ->
  getFileFromPath t filePath = None ->
  setFileAtPath t filePath fileData = (t', None) ->
  getFileFromPath t' filePath = Some (ONode fileData)
  /\ root t' = root t
  /\ (forall q v, getFileFromPath t q = Some v -> getFileFromPath t' q = Some v).
Proof.
  unfold getFileFromPath, setFileAtPath. intros W Hnone.
  assert (forall x, ONode <$> root t = Some (ONode x) -> (x < next t)%nat) as Hroot.
  { intros x Hx. destruct (root t) as [r |] eqn:Hr; [ | discriminate ].
    injection Hx as <-. destruct W as (_ & _ & R). exact (R r Hr). }
  destruct (list_snoc_cases (path_parts filePath)) as [E | (l & k & E)]; rewrite E in *.
  - cbn in Hnone |- *. rewrite Hnone. discriminate.
  - rewrite pop_snoc. rewrite walk_snoc in Hnone.
    destruct (descend_creating t l (ONode <$> root t)) as [t1 [x | cur1]] eqn:Hd;
      [ discriminate | ].
    destruct (cur1 ≫= children_of t1) as [c |] eqn:Hc; [ | discriminate ].
    unfold key_of. cbn [default]. intros Hset.
    destruct (descend_creating_spec l t _ t1 cur1 W Hroot Hd) as (W1 & P1 & R1 & Wk & Hcases).
    destruct cur1 as [o |]; [ | discriminate ]. cbn [mbind option_bind] in Hc.
    assert (preserved t t' /\ root t' = root t
            /\ walk t' l (ONode <$> root t) = Some o
            /\ children_of t' o = Some c
            /\ get t' c k = Some (ONode fileData)) as (P & R & Hw & Hch & Hg).
    { destruct Hcases as [[-> Hwalk] | [Hwalk Hleaf]].
      - rewrite Hwalk in Hnone. pose proof (child_None_falsy _ _ _ _ Hnone Hc) as Hf.
        rewrite set_child_put in Hset by (eapply falsy_not_proto_key; eassumption).
        injection Hset as <-.
        pose proof (put_child_preserved c k fileData t (well_formed_shallow _ W) Hf) as P.
        split; [ exact P | ]. split; [ reflexivity | ].
        split; [ exact (walk_preserved t _ W P l _ _ Hroot Hwalk) | ].
        destruct (children_of_Some _ _ _ Hc) as (x & -> & _).
        split.
        + apply (children_of_preserved t _ x c P); [ | exact Hc ].
          exact (walk_below t W l _ x Hroot Hwalk).
        + destruct (well_formed_stored t c W (children_of_below _ _ _ W Hc)) as [n Hn].
          eapply get_put_child_same, Hn.
      - destruct (Hleaf c Hc) as [L Hge].
        destruct (set_child_leaf c k fileData t1 t' W1 L Hset) as (R' & N' & Hg & Hoff).
        destruct (walk_around_leaf t1 t' c W1 L Hoff l _ o c Wk Hc) as [Hw Hch].
        split; [ | split; [ congruence | auto ] ].
        destruct P1 as [Hn1 P1]. split; [ lia | ]. intros x k0 v Hx Hv Htr.
        rewrite Hoff by lia. apply P1; assumption. }
    split; [ | split; [ exact R | ] ].
    + rewrite R, walk_snoc, Hw.
      apply (child_found t' _ _ c); [ exact Hch | exact Hg | reflexivity ].
    + intros q v Hq. rewrite R. exact (walk_preserved t t' W P _ _ _ Hroot Hq).
Qed.

(** *** Stores the server can reach *)

Lemma well_formed_no_files : well_formed no_files.
Proof.
  split; [ | split ].
  - intros r. cbn. rewrite lookup_empty. split; [ intros [? [=]] | lia ].
  - intros r n H. cbn in H. rewrite lookup_empty in H. discriminate H.
  - intros r [=].
Qed.

(** The four objects of the seeded tree. *)
Lemma seeded_nodes r n :
  nodes seeded !! r = Some n ->
  (r < 4)%nat /\ proto n = None /\ fields n !! "__proto__" = None
  /\ (forall c, children n = Some c -> (c < 4)%nat)
  /\ (forall k x, fields n !! k = Some (ONode x) -> (x < 4)%nat).
Proof.
  unfold seeded. cbn [nodes].
  destruct (decide (r = 0%nat)) as [-> |].
  { rewrite lookup_insert_eq. intros [= <-]. split; [ lia | ]. split; [ reflexivity | ].
    split; [ apply Node_no_proto_key | ]. split; [ intros c [= <-]; lia | ].
    intros k x E. exfalso. exact (Node_plain _ _ _ _ _ _ _ _ E). }
  rewrite lookup_insert_ne by congruence.
  destruct (decide (r = 1%nat)) as [-> |].
  { rewrite lookup_insert_eq. intros [= <-]. split; [ lia | ]. split; [ reflexivity | ].
    split; [ reflexivity | ]. split; [ discriminate | ].
    intros k x. cbn [fields].
    destruct (decide (k = "main.js")) as [-> |];
      [ rewrite lookup_insert_eq; intros [= <-]; lia | rewrite lookup_insert_ne by congruence ].
    destruct (decide (k = "example.py")) as [-> |];
      [ rewrite lookup_insert_eq; intros [= <-]; lia | rewrite lookup_insert_ne by congruence ].
    rewrite lookup_empty. discriminate. }
  rewrite lookup_insert_ne by congruence.
  destruct (decide (r = 2%nat)) as [-> |].
  { rewrite lookup_insert_eq. intros [= <-]. split; [ lia | ]. split; [ reflexivity | ].
    split; [ apply Node_no_proto_key | ]. split; [ discriminate | ].
    intros k x E. exfalso. exact (Node_plain _ _ _ _ _ _ _ _ E). }
  rewrite lookup_insert_ne by congruence.
  destruct (decide (r = 3%nat)) as [-> |].
  { rewrite lookup_insert_eq. intros [= <-]. split; [ lia | ]. split; [ reflexivity | ].
    split; [ apply Node_no_proto_key | ]. split; [ discriminate | ].
    intros k x E. exfalso. exact (Node_plain _ _ _ _ _ _ _ _ E). }
  rewrite lookup_insert_ne by congruence. rewrite lookup_empty. discriminate.
Qed.

Lemma well_formed_seeded : well_formed seeded.
Proof.
  split; [ | split ].
  - intros r. split.
    + intros [n Hn]. destruct (seeded_nodes r n Hn) as [Hlt _]. exact Hlt.
    + cbn [next seeded]. intros Hr.
      destruct r as [| [| [| [| r]]]]; [ | | | | lia ]; vm_compute; eauto.
  - intros r n Hn. destruct (seeded_nodes r n Hn) as (_ & Hp & Hk & Hc & Hf).
    split; [ exact Hc | ]. split; [ exact Hf | ]. split; [ | exact Hk ].
    intros p E. congruence.
  - intros r [= <-]. simpl. lia.
Qed.

Lemma unpolluted_seeded : unpolluted seeded.
Proof. intros r n Hn. apply (seeded_nodes r n Hn). Qed.

(** *** An object that was just made *)

Lemma unreferenced_next t : well_formed t -> unreferenced (next t) t.
Proof.
  intros (_ & N & _) r n Hn. destruct (N r n Hn) as (H1 & H2 & H3 & _).
  split; [ intros E; specialize (H1 _ E); lia | ].
  split; [ intros E; destruct (H3 _ E); lia | ].
  intros k E. specialize (H2 _ _ E). lia.
Qed.

(** The children object of something is the [children] of an object. *)
Lemma children_of_slot t o c :
  children_of t o = Some c -> exists r n, nodes t !! r = Some n /\ children n = Some c.
Proof.
  intros H. apply children_of_Some in H as (x & _ & Hg). unfold get in Hg.
  destruct (lookup_from _ t x "children") as [v |] eqn:E; [ | discriminate Hg ].
  injection Hg as ->. apply lookup_from_own in E as (r & n & Hn & Ho).
  exists r, n. split; [ exact Hn | ]. unfold own in Ho. cbn in Ho.
  destruct (children n); [ injection Ho as <-; reflexivity | discriminate ].
Qed.

Lemma slot_not_target t r n c x m :
  well_formed t -> nodes t !! r = Some n -> children n = Some c ->
  nodes t !! x = Some m -> proto m <> Some c.
Proof.
  intros (_ & N & _) Hn Hc Hm Hp. destruct (N x m Hm) as (_ & _ & H3 & _).
  destruct (H3 c Hp) as (_ & _ & Hsl). exact (Hsl r n Hn Hc).
Qed.

Lemma well_formed_set_proto c r t :
  well_formed t -> (r < next t)%nat -> unreferenced r t -> nodes t !! r ≫= proto = None ->
  (exists x n, nodes t !! x = Some n /\ children n = Some c) ->
  well_formed (set_proto c r t).
Proof.
  intros W Hr Hu Hp (x0 & n0 & Hn0 & Hc0). apply well_formed_alter; [ exact W | ].
  intros n Hn. cbn [children fields proto]. pose proof W as (_ & N & _).
  destruct (N c n Hn) as (H1 & H2 & _ & H4).
  split.
  { intros c' E. split; [ exact (H1 c' E) | ]. intros x m Hm.
    exact (slot_not_target t c n c' x m W Hn E Hm). }
  split; [ exact H2 | ]. split; [ exact H4 | ]. right. exists r.
  split; [ reflexivity | ]. split; [ exact Hr | ].
  split; [ intros ->; exact (proj1 (Hu x0 n0 Hn0) Hc0) | ].
  split; [ exact Hp | ].
  split; [ intros x m Hm; exact (proj1 (Hu x m Hm)) | ].
  split; [ exact (proj1 (Hu c n Hn)) | ].
  intros x m Hm. exact (slot_not_target t x0 n0 c x m W Hn0 Hc0 Hm).
Qed.

(** The assignment that ends [setFileAtPath], of an object nothing refers
    to yet. *)
Lemma well_formed_set_child c k r t :
  well_formed t -> (r < next t)%nat -> unreferenced r t -> nodes t !! r ≫= proto = None ->
  (exists x n, nodes t !! x = Some n /\ children n = Some c) ->
  well_formed (fst (set_child c k r t)).
Proof.
  intros W Hr Hu Hp Hc. unfold set_child.
  assert (k <> "__proto__" -> well_formed (put_child c k r t)) as Hput.
  { intros Hk. apply well_formed_put_child; [ exact W | exact Hr | exact Hk | ].
    intros _ x m Hm. exact (proj1 (proj2 (Hu x m Hm))). }
  destruct (lookup_from _ t c k) eqn:E.
  - apply Hput. intros ->. rewrite lookup_from_proto_key in E; [ discriminate | ].
    intros x n Hn. destruct W as (_ & N & _). apply (N x n Hn).
  - destruct (String.eqb k "__proto__") eqn:Ek;
      [ | apply Hput; apply String.eqb_neq; exact Ek ].
    destruct (bool_decide _); [ exact W | ]. destruct (reaches _ t r c); [ exact W | ].
    apply well_formed_set_proto; assumption.
Qed.

Lemma set_child_nodes_other c k r t x :
  c <> x -> nodes (fst (set_child c k r t)) !! x = nodes t !! x.
Proof.
  intros Hc. unfold set_child. destruct (lookup_from _ t c k);
    [ cbn [fst put_child nodes]; apply lookup_alter_ne; exact Hc | ].
  destruct (String.eqb k "__proto__");
    [ | cbn [fst put_child nodes]; apply lookup_alter_ne; exact Hc ].
  destruct (bool_decide _); [ reflexivity | ]. destruct (reaches _ t _ c); [ reflexivity | ].
  cbn [fst set_proto nodes]. apply lookup_alter_ne. exact Hc.
Qed.

Lemma fresh_add_directory c part t x :
  well_formed t -> (x < next t)%nat -> unreferenced x t ->
  c <> x ->
  unreferenced x (fst (add_directory c part t))
  /\ nodes (fst (add_directory c part t)) !! x = nodes t !! x.
Proof.
  intros W Hx Hu Hc. unfold add_directory, alloc_kids. cbn [alloc_node next].
  set (t2 := Files _ _ _).
  assert (unreferenced x t2) as Hu2.
  { apply (unreferenced_alloc_node x _ (snd (alloc_kids t)));
      [ | cbn; intros [= E]; lia | discriminate | apply Node_plain ].
    apply unreferenced_alloc_node; [ exact Hu | discriminate | discriminate | ].
    intros k. cbn. rewrite lookup_empty. discriminate. }
  split; [ apply unreferenced_set_child; [ exact Hu2 | lia ] | ].
  rewrite set_child_nodes_other by exact Hc.
  unfold t2. cbn [nodes]. rewrite !lookup_insert_ne by lia. reflexivity.
Qed.

(** Whatever the loop of [setFileAtPath] does, and however it ends, the
    store stays well formed and the object to be stored stays as it is,
    with no reference to it. *)
Lemma descend_creating_keeps parts : forall t cur fd,
  well_formed t -> (forall x, cur = Some (ONode x) -> (x < next t)%nat) ->
  (fd < next t)%nat -> unreferenced fd t ->
  well_formed (fst (descend_creating t parts cur))
  /\ (fd < next (fst (descend_creating t parts cur)))%nat
  /\ unreferenced fd (fst (descend_creating t parts cur))
  /\ nodes (fst (descend_creating t parts cur)) !! fd = nodes t !! fd.
Proof.
  induction parts as [| part rest IH]; intros t cur fd W Hcur Hfd Hu.
  - cbn. auto.
  - cbn [descend_creating]. destruct cur as [o |]; [ | cbn; auto ].
    cbn [mbind option_bind]. destruct (children_of t o) as [c |] eqn:Hc; [ | cbn; auto ].
    destruct (children_of_Some _ _ _ Hc) as (x & -> & _).
    pose proof (children_of_unreferenced _ _ _ _ Hu Hc) as Hne.
    pose proof (children_of_below _ _ _ W Hc) as Hlt.
    destruct (falsy (get t c part)) eqn:Hf.
    + destruct (add_directory_spec c part t W Hlt Hf)
        as (t3 & E & W3 & P3 & R3 & N3 & G3 & C3 & L3).
      destruct (fresh_add_directory c part t fd W Hfd Hu Hne) as [Hu3 Hn3].
      rewrite E in Hu3, Hn3 |- *. cbn [fst] in Hu3, Hn3.
      destruct (children_of t3 (ONode x)) as [c' |] eqn:Hc'; [ | cbn; split; [ | split ]; auto; lia ].
      destruct (IH t3 (get t3 c' part) fd W3) as (H1 & H2 & H3 & H4);
        [ intros y Hy; eapply get_below; eassumption | lia | exact Hu3 | ].
      split; [ exact H1 | ]. split; [ exact H2 | ]. split; [ exact H3 | congruence ].
    + rewrite Hc. apply IH; [ exact W | | exact Hfd | exact Hu ].
      intros y Hy. eapply get_below; eassumption.
Qed.

Lemma well_formed_setFileAtPath t filePath fd :
  well_formed t -> (fd < next t)%nat -> unreferenced fd t -> nodes t !! fd ≫= proto = None ->
  well_formed (fst (setFileAtPath t filePath fd))
  /\ nodes (fst (setFileAtPath t filePath fd)) !! fd = nodes t !! fd.
Proof.
  intros W Hfd Hu Hp. unfold setFileAtPath. destruct (pop _) as [fileName parts].
  assert (forall x, ONode <$> root t = Some (ONode x) -> (x < next t)%nat) as Hroot.
  { intros x Hx. destruct (root t) as [r |] eqn:Hr; [ | discriminate ].
    injection Hx as <-. destruct W as (_ & _ & R). exact (R r Hr). }
  destruct (descend_creating_keeps parts t (ONode <$> root t) fd W Hroot Hfd Hu)
    as (W1 & Hfd1 & Hu1 & Hn1).
  destruct (descend_creating t parts _) as [t1 [x | cur]]; cbn [fst] in *; [ auto | ].
  destruct cur as [o |]; cbn [mbind option_bind]; [ | auto ].
  destruct (children_of t1 o) as [c |] eqn:Hc; [ | auto ].
  split.
  - apply well_formed_set_child; [ exact W1 | exact Hfd1 | exact Hu1 | congruence | ].
    eapply children_of_slot, Hc.
  - rewrite set_child_nodes_other; [ exact Hn1 | ].
    eapply children_of_unreferenced; eassumption.
Qed.

Lemma well_formed_delete_child c k t : well_formed t -> well_formed (delete_child c k t).
Proof.
  intros W. apply well_formed_alter; [ exact W | ]. intros n Hn.
  pose proof W as (_ & N & _). destruct (N c n Hn) as (H1 & H2 & _ & H4).
  destruct (String.eqb k "children"); cbn [children fields proto].
  - split; [ discriminate | ]. split; [ exact H2 | ]. split; [ exact H4 | left; reflexivity ].
  - split.
    { intros c' E. split; [ exact (H1 c' E) | ]. intros x m Hm.
      exact (slot_not_target t c n c' x m W Hn E Hm). }
    split; [ intros k' x E; apply lookup_delete_Some in E as [_ E]; exact (H2 k' x E) | ].
    split; [ | left; reflexivity ].
    destruct (decide (k = "__proto__")) as [-> |];
      [ apply lookup_delete_eq | rewrite lookup_delete_ne by assumption; exact H4 ].
Qed.

Lemma well_formed_deleteFileAtPath t filePath b t' :
  well_formed t -> deleteFileAtPath t filePath = inr (b, t') -> well_formed t'.
Proof.
  intros W H.
  apply delete_changes_own_entries_only in H as [-> | (cur & c & k & n & _ & _ & _ & ->)];
    [ exact W | apply well_formed_delete_child, W ].
Qed.

Lemma well_formed_set_content r text t : well_formed t -> well_formed (set_content r text t).
Proof.
  intros W. apply well_formed_alter; [ exact W | ]. intros n Hn.
  pose proof W as (_ & N & _). destruct (N r n Hn) as (H1 & H2 & _ & H4).
  cbn [children fields proto]. split.
  { intros c' E. split; [ exact (H1 c' E) | ]. intros x m Hm.
    exact (slot_not_target t r n c' x m W Hn E Hm). }
  split.
  { intros k x. destruct (decide ("content" = k)) as [<- |].
    - rewrite lookup_insert_eq. discriminate.
    - rewrite lookup_insert_ne by assumption. apply H2. }
  split; [ rewrite lookup_insert_ne by discriminate; exact H4 | left; reflexivity ].
Qed.

Lemma dec_not_proto_key i : dec i <> "__proto__".
Proof.
  unfold dec. intros H. destruct (Nat.to_uint i) as [| u | u | u | u | u | u | u | u | u | u] eqn:E;
    [ discriminate H | .. ];
    match type of H with
    | NilZero.string_of_uint ?d = _ =>
        pose proof (NilZero.usu d ltac:(discriminate)) as U; rewrite H in U; discriminate U
    end.
Qed.

Lemma index_props_no_proto_key s : index_props s !! "__proto__" = None.
Proof.
  unfold index_props. apply not_elem_of_list_to_map_1. intros H.
  apply list_elem_of_fmap in H as ([k v] & Hk & Hin). cbn in Hk.
  apply elem_of_lookup_imap in Hin as (i & u & [= -> _] & _).
  exact (dec_not_proto_key i (eq_sym Hk)).
Qed.

(** The copy a rename makes can be added to the store. *)
Lemma well_formed_alloc_spread t file newName newPath :
  well_formed t -> well_formed (snd (alloc_node (spread t file newName newPath) t)).
Proof.
  intros W. pose proof W as (_ & N & _).
  assert (forall (m : gmap string obj) k x,
            (forall k' x', m !! k' = Some (ONode x') -> (x' <= next t)%nat) ->
            <["path" := OStr newPath]> (<["name" := OStr newName]> m) !! k = Some (ONode x) ->
            (x <= next t)%nat) as Hnamed.
  { intros m k x Hm.
    destruct (decide ("path" = k)) as [<- |];
      [ rewrite lookup_insert_eq; discriminate | rewrite lookup_insert_ne by assumption ].
    destruct (decide ("name" = k)) as [<- |];
      [ rewrite lookup_insert_eq; discriminate | rewrite lookup_insert_ne by assumption ].
    apply Hm. }
  assert (forall (m : gmap string obj), m !! "__proto__" = None ->
            <["path" := OStr newPath]> (<["name" := OStr newName]> m) !! "__proto__" = None)
    as Hkey by (intros m Hm; rewrite !lookup_insert_ne by discriminate; exact Hm).
  assert (forall k' x', (∅ : gmap string obj) !! k' = Some (ONode x') -> (x' <= next t)%nat)
    as Hempty by (intros k' x'; rewrite lookup_empty; discriminate).
  apply well_formed_alloc_node; [ exact W | | | | ];
    unfold spread; destruct file as [r | nm | s | d]; cbn [children fields proto];
    try (destruct (nodes t !! r) as [n |] eqn:Hn; cbn [children fields proto]);
    try discriminate; try reflexivity;
    try (intros k x; apply Hnamed; exact Hempty);
    try (apply Hkey; apply lookup_empty).
  - intros c E. destruct (N r n Hn) as (H1 & _). split; [ specialize (H1 c E); lia | ].
    intros x m Hm. exact (slot_not_target t r n c x m W Hn E Hm).
  - intros k x. apply Hnamed. intros k' x' E. destruct (N r n Hn) as (_ & H2 & _).
    specialize (H2 k' x' E). lia.
  - intros k x. apply Hnamed. intros k' x' E. apply index_props_plain in E as [u [=]].
  - apply Hkey. destruct (N r n Hn) as (_ & _ & _ & H4). exact H4.
  - apply Hkey, index_props_no_proto_key.
Qed.

(** *** Created files *)

Ltac node_field :=
  intros; unfold name, path, type, content, Node, put; cbn [fields];
  repeat match goal with o : option _ |- _ => destruct o end;
  cbn [fmap option_fmap option_map];
  repeat first [ rewrite lookup_insert_eq | rewrite lookup_insert_ne by discriminate ];
  rewrite ?lookup_empty; reflexivity.

Lemma Node_name nm p ty c d ch : name (Node nm p ty c d ch) = Some nm.
Proof. node_field. Qed.

Lemma Node_path nm p ty c d ch : path (Node nm p ty c d ch) = p.
Proof. node_field. Qed.

Lemma Node_type nm p ty c d ch : type (Node nm p ty c d ch) = ty.
Proof. node_field. Qed.

Lemma Node_content nm p ty c d ch : content (Node nm p ty c d ch) = c.
Proof. node_field. Qed.

Lemma unreferenced_alloc_self n t :
  well_formed t ->
  children n <> Some (next t) -> proto n <> Some (next t) ->
  (forall k, fields n !! k <> Some (ONode (next t))) ->
  unreferenced (next t) (snd (alloc_node n t)).
Proof. intros W. apply unreferenced_alloc_node, unreferenced_next, W. Qed.

Lemma well_formed_alloc_directory nm p ty c d t :
  well_formed t ->
  well_formed (snd (alloc_node (Node nm p ty c d (Some (next t))) (snd (alloc_kids t)))).
Proof.
  intros W. pose proof (well_formed_alloc_kids t W) as W1.
  apply well_formed_alloc_node; [ exact W1 | | | reflexivity | apply Node_no_proto_key ].
  - intros c' [= <-]. split; [ simpl; lia | ]. intros r m Hm Hp.
    unfold alloc_kids, alloc_node in Hm. cbn [snd nodes] in Hm.
    destruct (decide (next t = r)) as [<- |].
    + rewrite lookup_insert_eq in Hm. injection Hm as <-. discriminate.
    + rewrite lookup_insert_ne in Hm by assumption.
      pose proof (proto_below _ _ _ _ W Hm Hp). lia.
  - intros k x E. exfalso. exact (Node_plain _ _ _ _ _ _ _ _ E).
Qed.

Lemma well_formed_alloc_file nm p ty c d t :
  well_formed t -> well_formed (snd (alloc_node (Node nm p ty c d None) t)).
Proof.
  intros W.
  apply well_formed_alloc_node; [ exact W | discriminate | | reflexivity | apply Node_no_proto_key ].
  intros k x E. exfalso. exact (Node_plain _ _ _ _ _ _ _ _ E).
Qed.

Lemma fileData_eq filePath text ty now t :
  fileData filePath text ty now t
  = if String.eqb ty "directory"
    then alloc_node (Node (List.last (split "/" filePath) "") (Some filePath) (Some ty) None
                          (Some now) (Some (next t)))
                    (snd (alloc_kids t))
    else alloc_node (Node (List.last (split "/" filePath) "") (Some filePath) (Some ty)
                          (Some text) (Some now) None) t.
Proof. reflexivity. Qed.

(** The object [create-file] makes: nothing refers to it yet, it carries
    what the message says, and the objects made before answer as they
    did. *)
Lemma fileData_spec filePath text ty now t :
  well_formed t ->
  let fd := fst (fileData filePath text ty now t) in
  let t2 := snd (fileData filePath text ty now t) in
  well_formed t2 /\ (fd < next t2)%nat /\ unreferenced fd t2
  /\ (exists nd, nodes t2 !! fd = Some nd /\ proto nd = None
                 /\ name nd = Some (List.last (split "/" filePath) "")
                 /\ path nd = Some filePath
                 /\ type nd = Some ty
                 /\ content nd = if String.eqb ty "directory" then None else Some text)
  /\ root t2 = root t /\ (next t <= next t2)%nat
  /\ (forall x k, (x < next t)%nat -> get t2 x k = get t x k).
Proof.
  intros W fd t2. subst fd t2. rewrite fileData_eq. destruct (String.eqb ty "directory").
  - pose proof (well_formed_alloc_kids t W) as W1.
    set (nd := Node _ _ _ _ _ _). set (t1 := snd (alloc_kids t)) in *.
    replace (fst (alloc_node nd t1)) with (next t1) by reflexivity.
    split; [ apply well_formed_alloc_directory, W | ]. split; [ simpl; lia | ].
    split.
    { apply (unreferenced_alloc_self nd t1 W1);
        [ cbn; intros [= E]; lia | discriminate | apply Node_plain ]. }
    split.
    { exists nd. split; [ cbn; apply lookup_insert_eq | ]. split; [ reflexivity | ].
      split; [ apply Node_name | ]. split; [ apply Node_path | ].
      split; [ apply Node_type | apply Node_content ]. }
    split; [ reflexivity | ]. split; [ simpl; lia | ].
    intros x k Hx. rewrite get_alloc_node; [ | exact W1 | simpl; lia ].
    apply get_alloc_node; assumption.
  - set (nd := Node _ _ _ _ _ _).
    replace (fst (alloc_node nd t)) with (next t) by reflexivity.
    split; [ apply well_formed_alloc_file, W | ]. split; [ simpl; lia | ].
    split.
    { apply (unreferenced_alloc_self nd t W); [ discriminate | discriminate | apply Node_plain ]. }
    split.
    { exists nd. split; [ cbn; apply lookup_insert_eq | ]. split; [ reflexivity | ].
      split; [ apply Node_name | ]. split; [ apply Node_path | ].
      split; [ apply Node_type | apply Node_content ]. }
    split; [ reflexivity | ]. split; [ simpl; lia | ].
    intros x k Hx. apply get_alloc_node; assumption.
Qed.

(** The copy a rename makes, added to the store: nothing refers to it
    yet, and it has the default prototype. *)
Lemma spread_spec t file newName newPath :
  well_formed t ->
  let t1 := snd (alloc_node (spread t file newName newPath) t) in
  well_formed t1 /\ unreferenced (next t) t1 /\ nodes t1 !! next t ≫= proto = None.
Proof.
  intros W t1. subst t1. split; [ apply well_formed_alloc_spread, W | ].
  pose proof W as (_ & N & _).
  destruct (spread_plain (next t) t file newName newPath (unreferenced_next t W))
    as (H1 & H2 & H3).
  split; [ apply unreferenced_alloc_self; assumption | ].
  cbn [alloc_node snd nodes]. rewrite lookup_insert_eq. cbn.
  unfold spread. destruct file as [r | | |]; try reflexivity.
  destruct (nodes t !! r); reflexivity.
Qed.

Lemma deleteFileAtPath_keeps t filePath b t' :
  deleteFileAtPath t filePath = inr (b, t') ->
  next t' = next t /\ root t' = root t
  /\ forall x, nodes t' !! x ≫= proto = nodes t !! x ≫= proto.
Proof.
  intros H.
  apply delete_changes_own_entries_only in H as [-> | (cur & c & k & n & _ & _ & _ & ->)];
    [ auto | ].
  split; [ reflexivity | ]. split; [ reflexivity | ].
  intros x. unfold delete_child. cbn [nodes]. rewrite lookup_alter.
  destruct (decide (c = x)) as [<- |]; [ | reflexivity ].
  destruct (nodes t !! c) as [m |]; [ | reflexivity ]. cbn.
  destruct (String.eqb k "children"); reflexivity.
Qed.

Lemma unreferenced_deleteFileAtPath x t filePath b t' :
  unreferenced x t -> deleteFileAtPath t filePath = inr (b, t') -> unreferenced x t'.
Proof.
  intros Hu H.
  apply delete_changes_own_entries_only in H as [-> | (cur & c & k & n & _ & _ & _ & ->)];
    [ exact Hu | apply unreferenced_delete_child, Hu ].
Qed.

Lemma rooms_well_formed_set_files rid t s :
  rooms_well_formed s -> well_formed t -> rooms_well_formed (set_files rid t s).
Proof.
  intros Hs Ht rid' t'. unfold set_files. cbn [roomFiles].
  destruct (decide (rid = rid')) as [<- |].
  - rewrite lookup_insert_eq. intros [= <-]. exact Ht.
  - rewrite lookup_insert_ne by assumption. apply Hs.
Qed.

Lemma rooms_well_formed_files_or_new rid s t s1 :
  rooms_well_formed s -> files_or_new rid s = (t, s1) ->
  rooms_well_formed s1 /\ well_formed t.
Proof.
  intros Hs. unfold files_or_new. destruct (roomFiles s !! rid) as [t0 |] eqn:E.
  - intros [= <- <-]. split; [ exact Hs | exact (Hs _ _ E) ].
  - intros [= <- <-].
    split; [ apply rooms_well_formed_set_files; [ exact Hs | ] | ]; apply well_formed_no_files.
Qed.

Lemma handle_rooms_well_formed s i : rooms_well_formed s -> rooms_well_formed (handle s i).
Proof.
  intros Hs. unfold handle. destruct (Rooms.uncaught s); [ | exact Hs ].
  destruct i as [uuid now | sid | sid rid userName now | sid filePath text rid | sid rid
                | sid filePath text ty rid now | sid filePath rid | sid oldPath newPath rid | sid];
    try (destruct (bool_decide _); [ | exact Hs ]).
  - (* create room *)
    intros rid t. unfold createRoom. cbn [snd roomFiles].
    destruct (decide (String.substring 0 8 uuid = rid)) as [<- |].
    + rewrite lookup_insert_eq. intros [= <-]. apply well_formed_seeded.
    + rewrite lookup_insert_ne by assumption. apply Hs.
  - exact Hs.
  - (* join *)
    unfold join_room. destruct (rooms s !! rid) as [r |]; exact Hs.
  - (* code change *)
    unfold code_change. destruct (files_or_new rid s) as [t s1] eqn:E.
    destruct (rooms_well_formed_files_or_new _ _ _ _ Hs E) as (Hs1 & Ht).
    destruct (is_file t _) as [r |]; [ | exact Hs1 ].
    apply (rooms_well_formed_set_files rid _ s1 Hs1), well_formed_set_content, Ht.
  - exact Hs.
  - (* create file *)
    unfold create_file. destruct (files_or_new rid s) as [t s1] eqn:E.
    destruct (rooms_well_formed_files_or_new _ _ _ _ Hs E) as (Hs1 & Ht).
    destruct (fileData_spec filePath (default "" text) (default "file" ty) now t Ht)
      as (W2 & Hfd & Hu & (nd & Hnd & Hp & _) & _).
    destruct (fileData _ _ _ now t) as [fd t2]. cbn [fst snd] in *.
    destruct (well_formed_setFileAtPath t2 filePath fd W2 Hfd Hu) as [W3 _];
      [ rewrite Hnd; exact Hp | ].
    destruct (setFileAtPath t2 filePath fd) as [t3 [x |]];
      apply (rooms_well_formed_set_files rid t3 s1 Hs1), W3.
  - (* delete file *)
    unfold delete_file. destruct (roomFiles s !! rid) as [t |] eqn:E; [ | exact Hs ].
    destruct (deleteFileAtPath t filePath) as [x | [b t1]] eqn:E1; [ exact Hs | ].
    apply (rooms_well_formed_set_files rid t1 s Hs).
    eapply well_formed_deleteFileAtPath; [ exact (Hs _ _ E) | exact E1 ].
  - (* rename file *)
    unfold rename_file. destruct (roomFiles s !! rid) as [t |] eqn:E; [ | exact Hs ].
    destruct (getFileFromPath t oldPath) as [file |]; [ | exact Hs ].
    pose proof (Hs _ _ E) as W.
    destruct (spread_spec t file (List.last (split "/" newPath) "") newPath W)
      as (W1 & Hu1 & Hp1).
    set (nd := spread t file _ newPath) in *.
    change (alloc_node nd t) with (next t, snd (alloc_node nd t)). cbv beta iota.
    set (t1 := snd (alloc_node nd t)) in *.
    destruct (deleteFileAtPath t1 oldPath) as [x | [b t2]] eqn:E2;
      [ apply (rooms_well_formed_set_files rid t1 s Hs), W1 | ].
    destruct (deleteFileAtPath_keeps _ _ _ _ E2) as (Hn2 & _ & Hpr2).
    destruct (well_formed_setFileAtPath t2 newPath (next t)) as [W3 _].
    { eapply well_formed_deleteFileAtPath; eassumption. }
    { rewrite Hn2. simpl. lia. }
    { eapply unreferenced_deleteFileAtPath; eassumption. }
    { rewrite Hpr2. exact Hp1. }
    destruct (setFileAtPath t2 newPath (next t)) as [t3 [x |]];
      apply (rooms_well_formed_set_files rid t3 s Hs), W3.
  - (* disconnect *)
    unfold disconnect. destruct (sockets s !! sid) as [sock |]; [ | exact Hs ].
    destruct (truthy (socket_roomId sock)); [ | exact Hs ].
    destruct (socket_roomId sock) as [rid |]; [ | exact Hs ].
    destruct (rooms s !! rid) as [r |]; [ | exact Hs ].
    destruct (others sid (users r)); [ | exact Hs ].
    intros rid' t. unfold Rooms.emit. cbn [roomFiles]. intros H.
    apply lookup_delete_Some in H as [_ H]. exact (Hs _ _ H).
Qed.

Lemma handle_all_rooms_well_formed inputs : forall s,
  rooms_well_formed s -> rooms_well_formed (handle_all s inputs).
Proof.
  induction inputs as [| i rest IH]; intros s Hs; [ exact Hs | ].
  apply IH, handle_rooms_well_formed, Hs.
Qed.

Lemma rooms_well_formed_initial : rooms_well_formed initial.
Proof. intros rid t H. cbn in H. rewrite lookup_empty in H. discriminate H. Qed.

(** X3 (setFileAtPath, getFileFromPath): on a well-formed store, when a
    path does not resolve and [setFileAtPath] stores an object at it without
    throwing, the path resolves to that object afterwards, whatever its
    segments are ([__proto__] and the names of the members of
    [Object.prototype] included): the directories missing on the way were
    made, and entries shared between directories do not get in the way.
    The root is the same, and every path that resolved before resolves to
    the object it resolved to.  (Every store the server reaches is well
    formed: [handle_all_rooms_well_formed].) *)
Theorem set_then_get (t : files) (filePath : string) (fd : nat) (t' : files) :
  well_formed t ->
  getFileFromPath t filePath = None ->
  setFileAtPath t filePath fd = (t', None) ->
  getFileFromPath t' filePath = Some (ONode fd)
  /\ root t' = root t
  /\ (forall q v, getFileFromPath t q = Some v -> getFileFromPath t' q = Some v).
Proof. exact (setFileAtPath_resolves t filePath fd t'). Qed.

(** A file stored as [/lib/__proto__] in a fresh tree: the directory
    [lib] is made, and the file becomes the prototype of its children
    object. *)
Lemma set_then_get_witness :
  let t := snd (alloc_node (Node "__proto__" (Some "/lib/__proto__") (Some "file") (Some "")
                                 None None) seeded) in
  match setFileAtPath t "/lib/__proto__" 4 with
  | (t', None) => getFileFromPath t' "/lib/__proto__" = Some (ONode 4)
                  /\ getFileFromPath t' "/main.js" = Some (ONode 2)
  | (_, Some _) => False
  end.
Proof.
  intros t. destruct (setFileAtPath t "/lib/__proto__" 4) as [t' [x |]] eqn:E.
  - vm_compute in E. discriminate E.
  - destruct (set_then_get t "/lib/__proto__" 4 t') as (H1 & _ & H3).
    + apply well_formed_alloc_file, well_formed_seeded.
    + vm_compute. reflexivity.
    + exact E.
    + split; [ exact H1 | ]. apply H3. vm_compute. reflexivity.
Defined.

Lemma uncaught_grows {A : Type} (l : list A) (x : A) : (l ++ [ x ])%list <> l.
Proof.
  intros H. apply (f_equal (@length A)) in H. rewrite length_app in H. simpl in H. lia.
Qed.

(** Stores that answer alike resolve paths alike. *)
Lemma walk_agree t t' :
  well_formed t ->
  (forall x k, (x < next t)%nat -> get t' x k = get t x k) ->
  forall parts cur,
    (forall x, cur = Some (ONode x) -> (x < next t)%nat) ->
    walk t' parts cur = walk t parts cur.
Proof.
  intros W H. induction parts as [| part rest IH]; intros cur Hcur; cbn [walk]; [ reflexivity | ].
  destruct cur as [o |]; [ | reflexivity ].
  assert (child t' o part = child t o part) as ->.
  { unfold child. destruct o as [x | | |]; try reflexivity. unfold children_of.
    rewrite H by (apply Hcur; reflexivity).
    destruct (get t x "children") as [[c | | |] |] eqn:E; try reflexivity.
    rewrite H by (eapply get_below; eassumption). reflexivity. }
  destruct (child t o part) as [o' |] eqn:Hc; [ | reflexivity ].
  apply IH. intros y [= ->]. eapply child_below; eassumption.
Qed.

Lemma root_below t x : well_formed t -> ONode <$> root t = Some (ONode x) -> (x < next t)%nat.
Proof.
  intros (_ & _ & R) Hx. destruct (root t) as [r |] eqn:Hr; [ | discriminate ].
  injection Hx as <-. exact (R r eq_refl).
Qed.

(** X4 (create-file, setFileAtPath, getFileFromPath): in every state the
    server can reach, a create-file message for a path that does not resolve
    either throws (the parent is not a directory) or leaves the tree of the
    room with an object at that path that carries the name, path, type and
    content of the message; every path that resolved before resolves to the
    object it resolved to, and [file-created] is announced to the room. *)
Theorem create_file_then_resolves (inputs : list input) (filePath : string)
        (body ty : option string) (rid : string) (now : nat) (t : files) :
  let s := handle_all initial inputs in
  let s' := create_file filePath body ty rid now s in
  roomFiles s !! rid = Some t ->
  getFileFromPath t filePath = None ->
  Rooms.uncaught s' = Rooms.uncaught s ->
  exists t' r n,
    roomFiles s' !! rid = Some t'
    /\ getFileFromPath t' filePath = Some (ONode r)
    /\ nodes t' !! r = Some n
    /\ name n = Some (List.last (split "/" filePath) "")
    /\ path n = Some filePath
    /\ type n = Some (default "file" ty)
    /\ content n = (if String.eqb (default "file" ty) "directory" then None
                    else Some (default "" body))
    /\ (forall q v, getFileFromPath t q = Some v -> getFileFromPath t' q = Some v)
    /\ emitted s' = (emitted s ++ [ Emission (ToRoom rid) "file-created" ])%list.
Proof.
  intros s s' Ht Hnone. subst s'.
  pose proof (handle_all_rooms_well_formed inputs initial rooms_well_formed_initial) as Hs.
  fold s in Hs. pose proof (Hs _ _ Ht) as W.
  unfold create_file, files_or_new. rewrite Ht.
  destruct (fileData_spec filePath (default "" body) (default "file" ty) now t W)
    as (W2 & Hfd & Hu & (nd & Hnd & Hp & Hname & Hpath & Hty & Hcontent) & R2 & Hn2 & Hg2).
  destruct (fileData _ _ _ now t) as [fd t2]. cbn [fst snd] in *.
  assert (forall q, getFileFromPath t2 q = getFileFromPath t q) as Hsame.
  { intros q. unfold getFileFromPath. rewrite R2.
    apply (walk_agree t t2 W Hg2). intros x. apply root_below, W. }
  destruct (well_formed_setFileAtPath t2 filePath fd W2 Hfd Hu) as [_ Hkeep];
    [ rewrite Hnd; exact Hp | ].
  destruct (setFileAtPath t2 filePath fd) as [t3 [x |]] eqn:E3.
  - unfold Rooms.throw, set_files. cbn [Rooms.uncaught]. intros H.
    apply uncaught_grows in H. contradiction.
  - intros _. cbn [fst] in Hkeep.
    destruct (setFileAtPath_resolves t2 filePath fd t3 W2) as (H1 & _ & H3);
      [ rewrite Hsame; exact Hnone | exact E3 | ].
    exists t3, fd, nd.
    split; [ unfold Rooms.emit, set_files; cbn [roomFiles]; apply lookup_insert_eq | ].
    split; [ exact H1 | ]. split; [ congruence | ].
    split; [ exact Hname | ]. split; [ exact Hpath | ]. split; [ exact Hty | ].
    split; [ exact Hcontent | ].
    split; [ intros q v Hq; apply H3; rewrite Hsame; exact Hq | reflexivity ].
Qed.

Lemma create_file_then_resolves_witness :
  let s := handle_all initial
             [ CreateRoom "3f9a1c2e-7b1d-4c55-9e0a-5d2f8a6b4c01" 5; Connect "s";
               JoinRoom "s" "3f9a1c2e" "al" 6 ] in
  let s' := create_file "/src/app.py" (Some "print(1)") None "3f9a1c2e" 7 s in
  exists t' r n,
    roomFiles s' !! "3f9a1c2e" = Some t'
    /\ getFileFromPath t' "/src/app.py" = Some (ONode r)
    /\ nodes t' !! r = Some n
    /\ name n = Some "app.py"
    /\ path n = Some "/src/app.py"
    /\ type n = Some "file"
    /\ content n = Some "print(1)".
Proof.
  destruct (create_file_then_resolves
              [ CreateRoom "3f9a1c2e-7b1d-4c55-9e0a-5d2f8a6b4c01" 5; Connect "s";
                JoinRoom "s" "3f9a1c2e" "al" 6 ]
              "/src/app.py" (Some "print(1)") None "3f9a1c2e" 7 seeded)
    as (t' & r & n & H1 & H2 & H3 & H4 & H5 & H6 & H7 & _).
  - vm_compute. reflexivity.
  - vm_compute. reflexivity.
  - vm_compute. reflexivity.
  - exists t', r, n. auto 10.
Defined.

(** *** Trees in which no prototype was assigned *)

Lemma get_unpolluted t x k :
  unpolluted t ->
  get t x k = match nodes t !! x ≫= (fun n => own n k) with
              | Some v => Some v
              | None => from_Object_prototype t x k
              end.
Proof.
  intros U. rewrite get_two.
  - destruct (nodes t !! x) as [n |] eqn:Hn; [ | reflexivity ]. cbn.
    destruct (own n k); [ reflexivity | ]. rewrite (U x n Hn). reflexivity.
  - intros n p Hn Hp. rewrite (U x n Hn) in Hp. discriminate.
Qed.

Lemma unpolluted_delete_child c k t : unpolluted t -> unpolluted (delete_child c k t).
Proof.
  intros U x n. unfold delete_child. cbn [nodes]. rewrite lookup_alter.
  destruct (decide (c = x)) as [<- |]; [ | apply U ].
  destruct (nodes t !! c) as [m |] eqn:Hm; simpl; [ | discriminate ]. intros [= <-].
  destruct (String.eqb k "children"); exact (U c m Hm).
Qed.

Lemma own_delete n k k' :
  own (if String.eqb k "children"
       then Object_ (fields n) None (proto n)
       else Object_ (delete k (fields n)) (children n) (proto n)) k'
  = if decide (k = k') then None else own n k'.
Proof.
  unfold own. destruct (String.eqb k "children") eqn:Ek.
  - apply String.eqb_eq in Ek. subst k. cbn [children fields].
    destruct (decide ("children" = k')) as [<- | Hne]; [ reflexivity | ].
    destruct (String.eqb k' "children") eqn:Ek'; [ | reflexivity ].
    apply String.eqb_eq in Ek'. congruence.
  - cbn [children fields]. destruct (decide (k = k')) as [<- | Hne].
    + rewrite Ek. apply lookup_delete_eq.
    + destruct (String.eqb k' "children"); [ reflexivity | ].
      apply lookup_delete_ne. exact Hne.
Qed.

Lemma from_Object_prototype_delete_child c k t x k' :
  from_Object_prototype (delete_child c k t) x k' = from_Object_prototype t x k'.
Proof.
  unfold from_Object_prototype, delete_child. rewrite proto_value_alter; [ reflexivity | ].
  intros n. destruct (String.eqb k "children"); reflexivity.
Qed.

(** After [delete c[k]], the object [c] answers under [k] as
    [Object.prototype] does, and nothing else has changed. *)
Lemma get_delete_child c k t n x k' :
  unpolluted t -> nodes t !! c = Some n ->
  get (delete_child c k t) x k'
  = if decide (x = c /\ k' = k) then from_Object_prototype t c k else get t x k'.
Proof.
  intros U Hn. rewrite (get_unpolluted (delete_child c k t))
    by (apply unpolluted_delete_child, U).
  rewrite (get_unpolluted t) by exact U. rewrite from_Object_prototype_delete_child.
  unfold delete_child. cbn [nodes]. rewrite lookup_alter.
  destruct (decide (c = x)) as [<- | Hne].
  - rewrite Hn. cbn [fmap option_fmap option_map mbind option_bind]. rewrite own_delete.
    destruct (decide (k = k')) as [<- | Hk].
    + rewrite decide_True by auto. reflexivity.
    + rewrite decide_False by (intros [_ ->]; congruence). reflexivity.
  - rewrite decide_False by (intros [-> _]; congruence). reflexivity.
Qed.

Lemma children_not_inherited t x : from_Object_prototype t x "children" = None.
Proof. reflexivity. Qed.

Lemma children_of_reflects c k t n o c' :
  unpolluted t -> nodes t !! c = Some n ->
  children_of (delete_child c k t) o = Some c' -> children_of t o = Some c'.
Proof.
  intros U Hn H. apply children_of_Some in H as (x & -> & Hg).
  rewrite (get_delete_child c k t n) in Hg by assumption.
  destruct (decide (x = c /\ "children" = k)) as [[-> <-] |].
  - rewrite children_not_inherited in Hg. discriminate.
  - unfold children_of. rewrite Hg. reflexivity.
Qed.

Lemma from_Object_prototype_unpolluted t x k v :
  unpolluted t -> from_Object_prototype t x k = Some v -> exists b, v = OBuiltin b.
Proof.
  intros U. unfold from_Object_prototype, proto_value.
  destruct (String.eqb k "__proto__").
  - destruct (nodes t !! x) as [n |] eqn:Hn; cbn; [ rewrite (U x n Hn) | ];
      intros [= <-]; eauto.
  - destruct (is_inherited k); [ intros [= <-]; eauto | discriminate ].
Qed.

Lemma child_reflects c k t n o part o1 :
  unpolluted t -> nodes t !! c = Some n ->
  child (delete_child c k t) o part = Some o1 ->
  child t o part = Some o1
  \/ (exists b, o1 = OBuiltin b) /\ children_of t o = Some c /\ part = k.
Proof.
  intros U Hn H. apply child_Some in H as (c0 & Hc0 & Hg & Htr).
  pose proof (children_of_reflects c k t n o c0 U Hn Hc0) as Hc0'. clear Hc0.
  rename Hc0' into Hc0.
  rewrite (get_delete_child c k t n) in Hg by assumption.
  destruct (decide (c0 = c /\ part = k)) as [[-> ->] |].
  - right. split; [ eapply from_Object_prototype_unpolluted; eassumption | auto ].
  - left. eapply child_found; eassumption.
Qed.

(** A path that resolves after [delete c[k]] resolved before, to the same
    object unless it now ends in a member of [Object.prototype]. *)
Lemma walk_reflects c k t n v0 :
  unpolluted t -> nodes t !! c = Some n ->
  get t c k = Some v0 -> truthy_obj v0 = true ->
  forall parts cur o,
    walk (delete_child c k t) parts cur = Some o ->
    walk t parts cur = Some o \/ (exists b, o = OBuiltin b) /\ is_Some (walk t parts cur).
Proof.
  intros U Hn Hv0 Htr. induction parts as [| part rest IH]; intros cur o; cbn [walk]; [ auto | ].
  destruct cur as [o0 |]; [ | discriminate ].
  destruct (child (delete_child c k t) o0 part) as [o1 |] eqn:Hc; [ | discriminate ].
  destruct (child_reflects c k t n o0 part o1 U Hn Hc) as [Hc' | ([b ->] & Hc0 & ->)].
  - rewrite Hc'. apply IH.
  - destruct rest as [| part2 rest]; cbn [walk]; [ | discriminate ].
    intros [= <-]. right. split; [ eauto | ].
    rewrite (child_found t _ _ c _ Hc0 Hv0 Htr). eauto.
Qed.

(** What a removal that returns [true] has done. *)
Lemma deleteFileAtPath_true t filePath t' :
  deleteFileAtPath t filePath = inr (true, t') ->
  exists r cur c v,
    root t = Some r
    /\ descend t (snd (pop (path_parts filePath))) (ONode r) = Some cur
    /\ children_of t cur = Some c
    /\ get t c (key_of (fst (pop (path_parts filePath)))) = Some v
    /\ truthy_obj v = true
    /\ t' = delete_child c (key_of (fst (pop (path_parts filePath)))) t.
Proof.
  unfold deleteFileAtPath. destruct (pop (path_parts filePath)) as [fileName parts].
  cbn [fst snd]. destruct (root t) as [r |] eqn:Hr; [ | discriminate ].
  destruct (descend t parts (ONode r)) as [cur |] eqn:Hd; [ | discriminate ].
  destruct (child t cur (key_of fileName)) as [v |] eqn:Hc; [ | discriminate ].
  destruct (child_Some _ _ _ _ Hc) as (c & Hc0 & Hg & Htr). rewrite Hc0.
  intros [= <-]. exists r, cur, c, v.
  split; [ reflexivity | ]. split; [ exact Hd | ]. split; [ exact Hc0 | ].
  split; [ exact Hg | ]. split; [ exact Htr | reflexivity ].
Qed.

(** A path that does not resolve does not start to resolve when an entry
    is removed. *)
Lemma unresolved_after_delete t filePath b t' other :
  unpolluted t ->
  deleteFileAtPath t filePath = inr (b, t') ->
  getFileFromPath t other = None -> getFileFromPath t' other = None.
Proof.
  intros U H Hnone. destruct b.
  - apply deleteFileAtPath_true in H as (r & cur & c & v & Hr & _ & Hc & Hg & Htr & ->).
    destruct (nodes t !! c) as [n |] eqn:Hn.
    + unfold getFileFromPath in *. cbn [delete_child root].
      destruct (walk (delete_child c _ t) (path_parts other) (ONode <$> root t)) as [o |] eqn:E;
        [ | reflexivity ].
      apply (walk_reflects c _ t n v U Hn Hg Htr) in E as [E | [_ [w E]]]; congruence.
    + rewrite delete_child_absent; [ exact Hnone | ]. intros n Hn'. congruence.
  - apply delete_changes_own_entries_only in H as H'.
    destruct H' as [-> | (cur & c & k & n & Hc & Hn & Ho & ->)]; [ exact Hnone | ].
    unfold deleteFileAtPath in H. destruct (pop (path_parts filePath)) as [fileName parts].
    destruct (root t); [ | discriminate ].
    destruct (descend t parts _) as [cur' |]; [ | injection H as <-; exact Hnone ].
    destruct (child t cur' _); [ | injection H as <-; exact Hnone ].
    destruct (children_of t cur'); [ discriminate | injection H as <-; exact Hnone ].
Qed.

Lemma not_inherited_key t x k : is_inherited k = false -> from_Object_prototype t x k = None.
Proof.
  intros H. unfold from_Object_prototype. destruct (String.eqb k "__proto__") eqn:E.
  - apply String.eqb_eq in E. subst k. discriminate H.
  - rewrite H. reflexivity.
Qed.

Lemma get_Some_stored t x k v :
  get t x k = Some v -> from_Object_prototype t x k = None -> is_Some (nodes t !! x).
Proof.
  unfold get. cbn [lookup_from]. destruct (nodes t !! x); [ eauto | ]. congruence.
Qed.

(** X2 (deleteFileAtPath, getFileFromPath): in a tree in which no
    prototype was assigned, once [deleteFileAtPath] has removed a path whose
    last segment is not the name of a member of [Object.prototype],
    [getFileFromPath] no longer resolves that path, also when directories
    share their children or contain themselves. *)
Theorem deleted_path_unresolved (t : files) (filePath k : string) (t' : files) :
  unpolluted t ->
  last (path_parts filePath) = Some k ->
  is_inherited k = false ->
  deleteFileAtPath t filePath = inr (true, t') ->
  getFileFromPath t' filePath = None.
Proof.
  intros U Hlast Hk H. apply last_Some in Hlast as [l E].
  apply deleteFileAtPath_true in H as (r & cur & c & v & Hr & Hd & Hc & Hg & Htr & ->).
  rewrite E, pop_snoc in Hd, Hg |- *. cbn [fst snd key_of default] in Hd, Hg |- *.
  change (Datatypes.id k) with k in *.
  pose proof (not_inherited_key t c k Hk) as Hno.
  destruct (get_Some_stored _ _ _ _ Hg Hno) as [n Hn].
  unfold getFileFromPath. rewrite E, walk_snoc. cbn [delete_child root]. rewrite Hr.
  destruct (walk (delete_child c k t) l (ONode <$> Some r)) as [cur' |] eqn:Hw; [ | reflexivity ].
  apply (walk_reflects c k t n v U Hn Hg Htr) in Hw as [Hw | [[b ->] _]]; [ | reflexivity ].
  cbn [fmap option_fmap option_map] in Hw. rewrite walk_descend, Hd in Hw. injection Hw as <-.
  unfold child. destruct (children_of (delete_child c k t) cur) as [c' |] eqn:Hc'; [ | reflexivity ].
  apply (children_of_reflects c k t n) in Hc'; [ | exact U | exact Hn ].
  assert (c' = c) as -> by congruence.
  rewrite (get_delete_child c k t n) by assumption.
  rewrite decide_True by auto. rewrite Hno. reflexivity.
Qed.

Lemma deleted_path_unresolved_witness :
  getFileFromPath (delete_child 1 "main.js" seeded) "/main.js" = None.
Proof.
  apply (deleted_path_unresolved seeded "/main.js" "main.js").
  - exact unpolluted_seeded.
  - reflexivity.
  - reflexivity.
  - vm_compute. reflexivity.
Defined.

(** *** Renaming *)

Lemma unpolluted_alloc_node n t :
  unpolluted t -> proto n = None -> unpolluted (snd (alloc_node n t)).
Proof.
  intros U Hn x m. unfold alloc_node. cbn [snd nodes].
  destruct (decide (next t = x)) as [<- |].
  - rewrite lookup_insert_eq. intros [= <-]. exact Hn.
  - rewrite lookup_insert_ne by assumption. apply U.
Qed.

Lemma deleteFileAtPath_keeps_node x t filePath b t' :
  unreferenced x t -> deleteFileAtPath t filePath = inr (b, t') ->
  nodes t' !! x = nodes t !! x.
Proof.
  intros Hu H.
  apply delete_changes_own_entries_only in H as [-> | (cur & c & k & n & Hc & _ & _ & ->)];
    [ reflexivity | ].
  unfold delete_child. cbn [nodes]. apply lookup_alter_ne.
  eapply children_of_unreferenced; eassumption.
Qed.

Lemma spread_node t r0 n0 newName newPath :
  nodes t !! r0 = Some n0 ->
  let nd := spread t (ONode r0) newName newPath in
  name nd = Some newName /\ path nd = Some newPath
  /\ type nd = type n0 /\ content nd = content n0 /\ children nd = children n0.
Proof.
  intros Hn nd. subst nd. unfold spread. rewrite Hn.
  unfold name, path, type, content. cbn [fields children].
  repeat split;
    repeat first [ rewrite lookup_insert_eq | rewrite lookup_insert_ne by discriminate ];
    reflexivity.
Qed.

(** X5 (rename-file, getFileFromPath, deleteFileAtPath, setFileAtPath): in
    every state the server can reach, when no prototype was assigned in the
    tree of the room, a rename-file message whose old path resolves to an
    object and whose new path does not resolve either throws or leaves, at
    the new path, an object with the type, the content and the children of
    the old one, named after the new path. *)
Theorem rename_file_moves_node (inputs : list input) (oldPath newPath rid : string)
        (t : files) (r0 : nat) (n0 : node) :
  let s := handle_all initial inputs in
  let s' := rename_file oldPath newPath rid s in
  roomFiles s !! rid = Some t ->
  unpolluted t ->
  getFileFromPath t oldPath = Some (ONode r0) ->
  nodes t !! r0 = Some n0 ->
  getFileFromPath t newPath = None ->
  Rooms.uncaught s' = Rooms.uncaught s ->
  exists t' r n,
    roomFiles s' !! rid = Some t'
    /\ getFileFromPath t' newPath = Some (ONode r)
    /\ nodes t' !! r = Some n
    /\ name n = Some (List.last (split "/" newPath) "")
    /\ path n = Some newPath
    /\ type n = type n0 /\ content n = content n0 /\ children n = children n0
    /\ emitted s' = (emitted s ++ [ Emission (ToRoom rid) "file-renamed" ])%list.
Proof.
  intros s s' Ht U Hold Hn0 Hnew. subst s'.
  pose proof (handle_all_rooms_well_formed inputs initial rooms_well_formed_initial) as Hs.
  fold s in Hs. pose proof (Hs _ _ Ht) as W.
  unfold rename_file. rewrite Ht, Hold.
  destruct (spread_spec t (ONode r0) (List.last (split "/" newPath) "") newPath W)
    as (W1 & Hu1 & Hp1).
  pose proof (spread_node t r0 n0 (List.last (split "/" newPath) "") newPath Hn0) as Hnd.
  set (nd := spread t (ONode r0) _ newPath) in *.
  change (alloc_node nd t) with (next t, snd (alloc_node nd t)). cbv beta iota.
  set (t1 := snd (alloc_node nd t)) in *.
  assert (nodes t1 !! next t = Some nd) as Hfresh by (apply lookup_insert_eq).
  assert (getFileFromPath t1 newPath = None) as Hnew1.
  { unfold getFileFromPath. change (root t1) with (root t). rewrite <- Hnew.
    apply (walk_agree t t1 W); [ | intros x; apply root_below, W ].
    intros x k Hx. apply get_alloc_node; assumption. }
  assert (unpolluted t1) as U1.
  { apply unpolluted_alloc_node; [ exact U | ]. unfold nd, spread. rewrite Hn0. reflexivity. }
  destruct (deleteFileAtPath t1 oldPath) as [x | [b t2]] eqn:E2.
  - unfold Rooms.throw, set_files. cbn [Rooms.uncaught]. intros H.
    apply uncaught_grows in H. contradiction.
  - pose proof (well_formed_deleteFileAtPath _ _ _ _ W1 E2) as W2.
    pose proof (unresolved_after_delete _ _ _ _ _ U1 E2 Hnew1) as Hnew2.
    pose proof (deleteFileAtPath_keeps_node _ _ _ _ _ Hu1 E2) as Hnodes.
    destruct (deleteFileAtPath_keeps _ _ _ _ E2) as (Hn2 & _ & Hpr2).
    destruct (well_formed_setFileAtPath t2 newPath (next t)) as [_ Hkeep].
    { exact W2. }
    { rewrite Hn2. simpl. lia. }
    { eapply unreferenced_deleteFileAtPath; eassumption. }
    { rewrite Hpr2. exact Hp1. }
    destruct (setFileAtPath t2 newPath (next t)) as [t3 [x |]] eqn:E3.
    + unfold Rooms.throw, set_files. cbn [Rooms.uncaught]. intros H.
      apply uncaught_grows in H. contradiction.
    + intros _. cbn [fst] in Hkeep.
      destruct (setFileAtPath_resolves t2 newPath (next t) t3 W2 Hnew2 E3) as (H1 & _ & _).
      exists t3, (next t), nd.
      split; [ unfold Rooms.emit, set_files; cbn [roomFiles]; apply lookup_insert_eq | ].
      split; [ exact H1 | ]. split; [ congruence | ].
      destruct Hnd as (Ha & Hb & Hc & Hd & He). auto 10.
Qed.

Lemma rename_file_moves_node_witness :
  let s := handle_all initial
             [ CreateRoom "3f9a1c2e-7b1d-4c55-9e0a-5d2f8a6b4c01" 5; Connect "s";
               JoinRoom "s" "3f9a1c2e" "al" 6 ] in
  let s' := rename_file "/example.py" "/scripts/hello.py" "3f9a1c2e" s in
  exists t' r n,
    roomFiles s' !! "3f9a1c2e" = Some t'
    /\ getFileFromPath t' "/scripts/hello.py" = Some (ONode r)
    /\ nodes t' !! r = Some n
    /\ name n = Some "hello.py"
    /\ path n = Some "/scripts/hello.py"
    /\ type n = Some "file"
    /\ content n = Some ("# Python example" +:+ nl +:+ "print(" +:+ dq
                         +:+ "Hello from Python!" +:+ dq +:+ ")")
    /\ children n = None.
Proof.
  destruct (rename_file_moves_node
              [ CreateRoom "3f9a1c2e-7b1d-4c55-9e0a-5d2f8a6b4c01" 5; Connect "s";
                JoinRoom "s" "3f9a1c2e" "al" 6 ]
              "/example.py" "/scripts/hello.py" "3f9a1c2e" seeded 3
              (Node "example.py" (Some "/example.py") (Some "file")
                    (Some ("# Python example" +:+ nl +:+ "print(" +:+ dq
                           +:+ "Hello from Python!" +:+ dq +:+ ")")) None None))
    as (t' & r & n & H1 & H2 & H3 & H4 & H5 & H6 & H7 & H8 & _).
  - vm_compute. reflexivity.
  - exact unpolluted_seeded.
  - vm_compute. reflexivity.
  - vm_compute. reflexivity.
  - vm_compute. reflexivity.
  - vm_compute. reflexivity.
  - exists t', r, n. rewrite H6, H7, H8. auto 10.
Defined.

(** *** A file named [__proto__] *)

(** X21 (create-file, setFileAtPath, getFileFromPath, code-change,
    deleteFileAtPath, rename-file): in a fresh room, a create-file message
    for [/__proto__] adds no entry to the root; the assignment
    [children['__proto__'] = fileData] makes the new object the prototype of
    the children object of the root.  From then on its properties resolve as
    paths of the room ([/name], [/content]); a removal of such a path
    returns [true] and removes nothing; a code-change for [/__proto__]
    edits the object, so that with the empty text [/content] stops
    resolving; and a rename of [/content] stores the spread of a string, an
    object with one property per character. *)
Theorem proto_segment_replaces_prototype :
  let rid := "3f9a1c2e" in
  let s := handle_all initial
             [ CreateRoom "3f9a1c2e-7b1d-4c55-9e0a-5d2f8a6b4c01" 5; Connect "s";
               JoinRoom "s" rid "al" 6; CreateFile "s" "/__proto__" (Some "x") None rid 7 ] in
  let edited := handle s (CodeChange "s" "/__proto__" "" rid) in
  let renamed := handle s (RenameFile "s" "/content" "/hello" rid) in
  Rooms.uncaught s = []
  /\ listing_of 4 rid s = Some [ ("/main.js", Some "file"); ("/example.py", Some "file") ]
  /\ resolves "/__proto__" rid s = Some (Some (ONode 4))
  /\ resolves "/name" rid s = Some (Some (OStr "__proto__"))
  /\ resolves "/content" rid s = Some (Some (OStr "x"))
  /\ delete_returns "/name" rid s = Some true
  /\ roomFiles (handle s (DeleteFile "s" "/name" rid)) = roomFiles s
  /\ resolves "/content" rid edited = Some None
  /\ resolves "/hello" rid renamed = Some (Some (ONode 5))
  /\ (roomFiles renamed !! rid ≫= (fun t => nodes t !! 5%nat ≫= (fun n => fields n !! "0")))
     = Some (OStr "x").
Proof. vm_compute. repeat split. Qed.
